(** * generate_sounds.py: tone synthesis, WAV writing and MP3 transcoding

    A shallow embedding of [scripts/generate_sounds.py].

    - Python floats and NumPy [float64] values are IEEE 754 binary64 numbers,
      modelled with the Standard Library's executable specification
      [SpecFloat] at precision 53 and maximal exponent 1024.
    - NumPy arrays are lists; slices follow CPython's index adjustment and
      NumPy's broadcasting check for in-place operations.
    - Exceptions are values of an error monad.
    - The file system is a finite map from paths to byte strings, the console
      is a list of printed lines.
    - [np.sin] is a parameter of the development: its accuracy is a property
      of the platform's math library, not of the script. *)

From Stdlib Require Import ZArith List Bool Lia Ascii String.
From Stdlib.Strings Require Import Byte.
From Stdlib Require Import Floats.SpecFloat.
From stdpp Require Import base option list strings gmap.

Local Open Scope Z_scope.

(** ** Exceptions and the error monad *)

Inductive exn : Type :=
  | ValueError
  | OverflowError
  | ZeroDivisionError
  | FileNotFoundError
  | FileExistsError
  | CalledProcessError (returncode : Z).

Inductive result (A : Type) : Type :=
  | Ok (a : A)
  | Raise (e : exn).
Arguments Ok {A} a.
Arguments Raise {A} e.

Definition rbind {A B : Type} (r : result A) (k : A -> result B) : result B :=
  match r with
  | Ok a => k a
  | Raise e => Raise e
  end.

Notation "x <- r ;; k" := (rbind r (fun x => k))
  (at level 100, r at next level, right associativity, only parsing).

(** ** Binary64 arithmetic *)

Module B64.

Definition prec : Z := 53.
Definition emax : Z := 1024.

Abbreviation float := spec_float.

Definition mul : float -> float -> float := SFmul prec emax.
Definition add : float -> float -> float := SFadd prec emax.
Definition sub : float -> float -> float := SFsub prec emax.
Definition div : float -> float -> float := SFdiv prec emax.
Definition abs : float -> float := SFabs.
Definition leb : float -> float -> bool := SFleb.
Definition eqb : float -> float -> bool := SFeqb.
Definition valid : float -> bool := valid_binary prec emax.

(** Conversion of a Python [int] to [float] (round to nearest even; exact
    below 2^53). *)
Definition of_Z (z : Z) : float := binary_normalize prec emax z 0 false.

(** A decimal literal [n / 10^k] denotes the binary64 number nearest to it;
    the correctly rounded quotient of two exactly representable integers is
    that number. *)
Definition of_decimal (n : Z) (k : nat) : float :=
  div (of_Z n) (of_Z (10 ^ Z.of_nat k)).

Definition zero : float := S754_zero false.
Definition one : float := of_Z 1.
Definition nan : float := S754_nan.

(** [math.pi] and [np.pi]: 0x400921FB54442D18. *)
Definition pi : float := S754_finite false 7074237752028440 (-51).

(** Truncation toward zero of a finite value [m * 2^e]. *)
Definition trunc_mag (m : positive) (e : Z) : Z :=
  match e with
  | Z0 => Zpos m
  | Zpos p => Zpos m * 2 ^ Zpos p
  | Zneg p => Zpos m / 2 ^ Zpos p
  end.

(** Round half to even of a finite value [m * 2^e]. *)
Definition round_mag (m : positive) (e : Z) : Z :=
  match e with
  | Z0 => Zpos m
  | Zpos p => Zpos m * 2 ^ Zpos p
  | Zneg p =>
      let q := Zpos m / 2 ^ Zpos p in
      let r := Zpos m mod 2 ^ Zpos p in
      match 2 * r ?= 2 ^ Zpos p with
      | Lt => q
      | Gt => q + 1
      | Eq => if Z.even q then q else q + 1
      end
  end.

Definition signed (s : bool) (z : Z) : Z := if s then - z else z.

(** Python's [int(x)] on a float. *)
Definition py_int (x : float) : result Z :=
  match x with
  | S754_zero _ => Ok 0
  | S754_finite s m e => Ok (signed s (trunc_mag m e))
  | S754_infinity _ => Raise OverflowError
  | S754_nan => Raise ValueError
  end.

(** Python's [round(x)] on a float (one argument: nearest integer, ties to
    even). *)
Definition py_round (x : float) : result Z :=
  match x with
  | S754_zero _ => Ok 0
  | S754_finite s m e => Ok (signed s (round_mag m e))
  | S754_infinity _ => Raise OverflowError
  | S754_nan => Raise ValueError
  end.

(** [x] is a valid binary64 number with [|x| <= c]. *)
Definition in_range (c x : float) : bool := valid x && leb (abs x) c.

(** [a * b <= c] on the exact values of three valid positive numbers. *)
Definition exact_mul_leb (a b c : float) : bool :=
  match a, b, c with
  | S754_finite false ma ea, S754_finite false mb eb, S754_finite false mc ec =>
      valid a && valid b && valid c
      && (Z.pos (ma * mb) * 2 ^ (ea + eb - Z.min (ea + eb) ec)
          <=? Z.pos mc * 2 ^ (ec - Z.min (ea + eb) ec))
  | _, _, _ => false
  end.

(** [m1 * 2^e1 <= m2 * 2^e2], stated on integers: both sides are scaled by
    the smaller exponent. *)
Definition vle (m1 e1 m2 e2 : Z) : Prop :=
  m1 * 2 ^ (e1 - Z.min e1 e2) <= m2 * 2 ^ (e2 - Z.min e1 e2).

(** What [k] right shifts of [m] leave in a shift record that started without
    round and sticky bits: the quotient, and clear bits when nothing was
    shifted out. *)
Definition shr_inv (m k : Z) (mrs : shr_record) : Prop :=
  shr_m mrs = m / 2 ^ k
  /\ (m mod 2 ^ k = 0 -> shr_r mrs = false /\ shr_s mrs = false).

End B64.

Abbreviation float := spec_float.

(** ** NumPy arrays *)

Module Np.

Abbreviation array := (list float).

(** [np.zeros(n)] *)
Definition zeros (n : Z) : result array :=
  if n <? 0 then Raise ValueError else Ok (replicate (Z.to_nat n) B64.zero).

(** [np.arange(0, num)] with a float dtype *)
Definition arange (num : Z) : array := B64.of_Z <$> seqZ 0 num.

(** [y[-1] = stop] *)
Definition set_last (y : array) (stop : float) : array :=
  <[pred (length y) := stop]> y.

(** [np.linspace(start, stop, num, endpoint)] on scalars, after
    numpy/_core/function_base.py: the grid is [arange(0, num) * step + start]
    with [step = (stop - start) / div]; a zero step (denormal range) divides
    first; with [endpoint] the last entry is overwritten by [stop]. *)
Definition linspace (start stop : float) (num : Z) (endpoint : bool)
  : result array :=
  if num <? 0 then Raise ValueError else
  let div := if endpoint then num - 1 else num in
  let start := B64.mul start B64.one in
  let stop := B64.mul stop B64.one in
  let delta := B64.sub stop start in
  let y := arange num in
  let y :=
    if 0 <? div then
      let step := B64.div delta (B64.of_Z div) in
      if B64.eqb step B64.zero
      then (fun v => B64.mul (B64.div v (B64.of_Z div)) delta) <$> y
      else (fun v => B64.mul v step) <$> y
    else (fun v => B64.mul v delta) <$> y in
  let y := (fun v => B64.add v start) <$> y in
  Ok (if endpoint && (1 <? num) then set_last y stop else y).

(** CPython's adjustment of one slice index against a length (step 1). *)
Definition adjust_index (len i : Z) : Z :=
  if i <? 0 then Z.max (i + len) 0 else Z.min i len.

(** Bounds [lo, hi) of [a[start:stop]]; [None] is an omitted index. *)
Definition slice_bounds (len : Z) (start stop : option Z) : Z * Z :=
  (from_option (adjust_index len) 0 start,
   from_option (adjust_index len) len stop).

(** The right-hand side of an assignment into a view of [n] items must have
    [n] items or one item (which is repeated); anything else is NumPy's
    "could not broadcast" [ValueError]. *)
Definition broadcast_to (n : nat) (v : array) : result array :=
  if decide (length v = n) then Ok v
  else match v with
       | [x] => Ok (replicate n x)
       | _ => Raise ValueError
       end.

(** [a[start:stop] = f(a[start:stop], v)] element by element. *)
Definition update_slice (f : float -> float -> float)
    (a : array) (start stop : option Z) (v : array) : result array :=
  let '(lo, hi) := slice_bounds (Z.of_nat (length a)) start stop in
  let n := Z.to_nat (hi - lo) in
  let lo := Z.to_nat lo in
  v' <- broadcast_to n v ;;
  Ok (take lo a ++ zip_with f (take n (drop lo a)) v' ++ drop (lo + n) a).

(** [a[start:stop] = v] *)
Definition set_slice : array -> option Z -> option Z -> array -> result array :=
  update_slice (fun _ x => x).

(** [a[start:stop] *= v] *)
Definition imul_slice : array -> option Z -> option Z -> array -> result array :=
  update_slice B64.mul.

(** [a * c] for a scalar [c] *)
Definition scale (a : array) (c : float) : array :=
  (fun x => B64.mul x c) <$> a.

(** [c * a] for a scalar [c] *)
Definition scale_l (c : float) (a : array) : array :=
  B64.mul c <$> a.

End Np.

(** ** The script *)

Definition SAMPLE_RATE : Z := 44100.

(** The [frequencies] argument: a number, or a Python list of numbers. *)
Inductive frequencies : Type :=
  | Freq (f : float)
  | FreqList (l : list float).

(** Python's [a // b] on integers. *)
Definition floordiv (a b : Z) : result Z :=
  if b =? 0 then Raise ZeroDivisionError else Ok (a / b).

(** Python's [a / b] on integers, for operands that are exactly
    representable (below 2^53 in magnitude): the correctly rounded
    quotient. *)
Definition truediv (a b : Z) : result float :=
  if b =? 0 then Raise ZeroDivisionError
  else Ok (B64.div (B64.of_Z a) (B64.of_Z b)).

(** [int(SAMPLE_RATE * seconds)] *)
Definition sample_count (seconds : float) : result Z :=
  B64.py_int (B64.mul (B64.of_Z SAMPLE_RATE) seconds).

Section Synthesis.

(** [np.sin] on one float64. *)
Variable fsin : float -> float.

Definition np_sin (a : Np.array) : Np.array := fsin <$> a.

(** [np.sin(2 * np.pi * freq * t)] *)
Definition sine_tone (freq : float) (t : Np.array) : Np.array :=
  np_sin (Np.scale_l (B64.mul (B64.mul (B64.of_Z 2) B64.pi) freq) t).

(** The body of [for i, freq in enumerate(frequencies)], from index [i]. *)
Fixpoint fill_segments (rest : list float) (i len_freqs segment_len samples : Z)
    (audio : Np.array) : result Np.array :=
  match rest with
  | [] => Ok audio
  | freq :: rest' =>
      let start := i * segment_len in
      let end_ := if i <? len_freqs - 1 then start + segment_len else samples in
      d <- truediv (end_ - start) SAMPLE_RATE ;;
      segment_t <- Np.linspace B64.zero d (end_ - start) false ;;
      audio' <- Np.set_slice audio (Some start) (Some end_)
                  (sine_tone freq segment_t) ;;
      fill_segments rest' (i + 1) len_freqs segment_len samples audio'
  end.

(** "Generate wave": the buffer before the fades. *)
Definition waveform (freqs : frequencies) (duration : float) (samples : Z)
  : result Np.array :=
  t <- Np.linspace B64.zero duration samples false ;;
  match freqs with
  | FreqList l =>
      segment_len <- floordiv samples (Z.of_nat (length l)) ;;
      audio <- Np.zeros samples ;;
      fill_segments l 0 (Z.of_nat (length l)) segment_len samples audio
  | Freq f => Ok (sine_tone f t)
  end.

(** "Apply fade in/out to avoid clicks" *)
Definition apply_fades (audio : Np.array) (fade_in fade_out : float)
  : result Np.array :=
  fade_in_samples <- sample_count fade_in ;;
  fade_out_samples <- sample_count fade_out ;;
  ramp_in <- Np.linspace B64.zero B64.one fade_in_samples true ;;
  audio <- Np.imul_slice audio None (Some fade_in_samples) ramp_in ;;
  ramp_out <- Np.linspace B64.one B64.zero fade_out_samples true ;;
  Np.imul_slice audio (Some (- fade_out_samples)) None ramp_out.

(** The literal [0.7]. *)
Definition amplitude : float := B64.of_decimal 7 1.

Definition generate_tone (freqs : frequencies)
    (duration fade_in fade_out : float) : result Np.array :=
  samples <- sample_count duration ;;
  audio <- waveform freqs duration samples ;;
  audio <- apply_fades audio fade_in fade_out ;;
  Ok (Np.scale audio amplitude).

(** The time grid of a segment of [n] samples:
    [np.linspace(0, n / SAMPLE_RATE, n, False)]. *)
Definition segment_grid (n : Z) : Np.array :=
  match Np.linspace B64.zero (B64.div (B64.of_Z n) (B64.of_Z SAMPLE_RATE)) n false with
  | Ok t => t
  | Raise _ => []
  end.

(** The tones the loop writes, in the order it writes them, from index [i]:
    each has [end - start] samples. *)
Fixpoint segment_tones (rest : list float) (i len_freqs segment_len samples : Z)
  : list Np.array :=
  match rest with
  | [] => []
  | freq :: rest' =>
      let n := if i <? len_freqs - 1 then segment_len
               else samples - i * segment_len in
      sine_tone freq (segment_grid n)
      :: segment_tones rest' (i + 1) len_freqs segment_len samples
  end.

End Synthesis.

(** ** Python strings and paths *)

(** [s.endswith(suffix)] *)
Fixpoint endswith (s suffix : string) : bool :=
  String.eqb s suffix
  || match s with
     | EmptyString => false
     | String _ s' => endswith s' suffix
     end.

(** No character of [s] is a dot. *)
Fixpoint no_dot (s : string) : bool :=
  match s with
  | EmptyString => true
  | String c s' => negb (Ascii.eqb c ".") && no_dot s'
  end.

(** [s.replace(old, new)] for a non-empty [old]: occurrences are replaced
    from left to right and do not overlap; [skip] counts the characters of the
    occurrence just replaced that are still to be passed over. *)
Fixpoint replace_from (old new : string) (skip : nat) (s : string) : string :=
  match s with
  | EmptyString => EmptyString
  | String c s' =>
      match skip with
      | S k => replace_from old new k s'
      | O =>
          if String.prefix old s
          then new +:+ replace_from old new (pred (String.length old)) s'
          else String c (replace_from old new 0 s')
      end
  end.

(** With an empty [old], Python inserts [new] before every character and at
    the end. *)
Fixpoint intersperse_all (new s : string) : string :=
  match s with
  | EmptyString => new
  | String c s' => new +:+ String c (intersperse_all new s')
  end.

Definition str_replace (s old new : string) : string :=
  match old with
  | EmptyString => intersperse_all new s
  | _ => replace_from old new 0 s
  end.

(** [os.path.join(a, b)] as [posixpath] defines it. *)
Definition os_path_join (a b : string) : string :=
  if String.prefix "/" b then b
  else if (String.eqb a "" || endswith a "/")%bool then a +:+ b
  else a +:+ "/" +:+ b.

Definition OUTPUT_DIR : string :=
  "c:\Users\Nyx\Desktop\terapia\apk\math-app\assets\sounds".

(** ** Bytes and the WAV container *)

Definition byte_of_Z (z : Z) : byte :=
  default x00 (Byte.of_N (Z.to_N (z mod 256))).

(** [struct.pack('<H', v)] and [struct.pack('<L', v)] *)
Definition le16 (v : Z) : list byte :=
  [byte_of_Z v; byte_of_Z (v / 256)].
Definition le32 (v : Z) : list byte :=
  [byte_of_Z v; byte_of_Z (v / 256); byte_of_Z (v / 65536);
   byte_of_Z (v / 16777216)].

(** Two's complement wrap-around into [-32768, 32767]. *)
Definition int16_wrap (z : Z) : Z := (z + 32768) mod 65536 - 32768.

(** [np.int16(x)] on one float64: the C conversion truncates toward zero; a
    value that does not fit keeps its low 16 bits (x86-64, magnitudes that
    fit a machine word), and infinities and NaN give 0 there. *)
Definition to_int16 (x : float) : Z :=
  match x with
  | S754_finite s m e => int16_wrap (B64.signed s (B64.trunc_mag m e))
  | _ => 0
  end.

(** [np.int16(audio * 32767)] *)
Definition quantize (audio : Np.array) : list Z :=
  to_int16 <$> Np.scale audio (B64.of_Z 32767).

(** [audio_int.tobytes()] on a little-endian host. *)
Definition tobytes (audio_int : list Z) : list byte :=
  mjoin (le16 <$> audio_int).

Definition WAVE_FORMAT_PCM : Z := 1.

(** The file [wave.Wave_write] leaves behind on [close]: the RIFF header
    ([_write_header], patched with the final data length) followed by the
    frames. *)
Definition wave_file (nchannels sampwidth framerate : Z) (frames : list byte)
  : list byte :=
  let datalength := Z.of_nat (length frames) in
  list_byte_of_string "RIFF" ++ le32 (36 + datalength)
  ++ list_byte_of_string "WAVE" ++ list_byte_of_string "fmt "
  ++ le32 16 ++ le16 WAVE_FORMAT_PCM ++ le16 nchannels ++ le32 framerate
  ++ le32 (nchannels * framerate * sampwidth)
  ++ le16 (nchannels * sampwidth) ++ le16 (sampwidth * 8)
  ++ list_byte_of_string "data" ++ le32 datalength
  ++ frames.

(** ** The world: files and console, and the monad of the script's I/O *)

Record world : Type := World {
  files : gmap string (list byte);
  stdout : list string
}.

Definition io (A : Type) : Type := world -> result A * world.

Definition ioret {A : Type} (a : A) : io A := fun w => (Ok a, w).

Definition ioraise {A : Type} (e : exn) : io A := fun w => (Raise e, w).

Definition iobind {A B : Type} (m : io A) (k : A -> io B) : io B :=
  fun w =>
    match m w with
    | (Ok a, w') => k a w'
    | (Raise e, w') => (Raise e, w')
    end.

Notation "x <~ m ;; k" := (iobind m (fun x => k))
  (at level 100, m at next level, right associativity, only parsing).
Notation "m ;;; k" := (iobind m (fun _ => k))
  (at level 100, right associativity, only parsing).

(** [try: body except E: handler]: [handler e] is [None] for an exception
    the clause does not catch. *)
Definition try_except {A : Type} (body : io A) (handler : exn -> option (io A))
  : io A :=
  fun w =>
    match body w with
    | (Ok a, w') => (Ok a, w')
    | (Raise e, w') =>
        match handler e with
        | Some h => h w'
        | None => (Raise e, w')
        end
    end.

(** Lifting a pure computation that may raise. *)
Definition lift {A : Type} (r : result A) : io A := fun w => (r, w).

Definition print (line : string) : io unit :=
  fun w => (Ok tt, World (files w) (stdout w ++ [line])).

Definition write_file (path : string) (data : list byte) : io unit :=
  fun w => (Ok tt, World (<[path := data]> (files w)) (stdout w)).

(** [os.remove(path)] *)
Definition os_remove (path : string) : io unit :=
  fun w =>
    match files w !! path with
    | Some _ => (Ok tt, World (delete path (files w)) (stdout w))
    | None => (Raise FileNotFoundError, w)
    end.

(** [os.rename(src, dst)] as on Windows, the platform of [OUTPUT_DIR]: a
    missing [src] is [FileNotFoundError]; an existing [dst] is never
    replaced, the call raises [FileExistsError]; renaming a file to its own
    name does nothing. *)
Definition os_rename (src dst : string) : io unit :=
  fun w =>
    match files w !! src with
    | None => (Raise FileNotFoundError, w)
    | Some data =>
        if decide (dst = src) then (Ok tt, w)
        else match files w !! dst with
             | Some _ => (Raise FileExistsError, w)
             | None =>
                 (Ok tt, World (<[dst := data]> (delete src (files w))) (stdout w))
             end
    end.

(** [os.makedirs(path, exist_ok=True)]: directories are implicit in the flat
    file map. *)
Definition os_makedirs (path : string) : io unit := ioret tt.

(** The external encoder.  When it is installed, one run on the contents of
    the input path (if that file exists) gives the exit status and what the
    run left at the output path, if anything. *)
Inductive ffmpeg : Type :=
  | NotInstalled
  | Installed (run : option (list byte) -> Z * option (list byte)).

(** [subprocess.run(['ffmpeg', '-y', '-i', src, ..., dst],
    capture_output=True, check=True)] *)
Definition subprocess_run (enc : ffmpeg) (src dst : string) : io unit :=
  match enc with
  | NotInstalled => ioraise FileNotFoundError
  | Installed run =>
      fun w =>
        let '(returncode, output) := run (files w !! src) in
        let w' :=
          match output with
          | Some data => World (<[dst := data]> (files w)) (stdout w)
          | None => w
          end in
        if returncode =? 0 then (Ok tt, w')
        else (Raise (CalledProcessError returncode), w')
  end.

(** ** The script, continued *)

(** [wav_path] in [save_wav] *)
Definition wav_path_of (filename : string) : string :=
  os_path_join OUTPUT_DIR (str_replace filename ".mp3" ".wav").

(** [mp3_path] in [convert_to_mp3] *)
Definition mp3_path_of (wav_path : string) : string :=
  str_replace wav_path ".wav" ".mp3".

Definition save_wav (audio : Np.array) (filename : string) : io string :=
  let wav_path := wav_path_of filename in
  let audio_int := quantize audio in
  write_file wav_path (wave_file 1 2 SAMPLE_RATE (tobytes audio_int)) ;;;
  ioret wav_path.

Section Transcode.

Variable enc : ffmpeg.

Definition convert_to_mp3 (wav_path : string) : io bool :=
  let mp3_path := mp3_path_of wav_path in
  try_except
    (subprocess_run enc wav_path mp3_path ;;;
     os_remove wav_path ;;;
     print ("Created: " +:+ mp3_path) ;;;
     ioret true)
    (fun e =>
       match e with
       | FileNotFoundError =>
           Some (print "ffmpeg not found, keeping WAV files" ;;;
                 os_rename wav_path mp3_path ;;;
                 print ("Created: " +:+ mp3_path +:+ " (actually WAV)") ;;;
                 ioret false)
       | _ => None
       end).

(** One sound of [main]: the tone already synthesized (or the exception it
    raised), written and transcoded. *)
Definition make_sound (tone : result Np.array) (filename : string) : io bool :=
  audio <~ lift tone ;;
  wav <~ save_wav audio filename ;;
  convert_to_mp3 wav.

Variable fsin : float -> float.

(** The default [fade_in=0.01] of [generate_tone]. *)
Definition default_fade_in : float := B64.of_decimal 1 2.

(** "Correct sound: ascending happy tones (C5 -> E5 -> G5)" *)
Definition correct : result Np.array :=
  generate_tone fsin (FreqList [B64.of_Z 523; B64.of_Z 659; B64.of_Z 784])
    (B64.of_decimal 35 2) default_fade_in (B64.of_decimal 1 1).

(** "Incorrect sound: descending gentle tone (G4 -> E4)" *)
Definition incorrect : result Np.array :=
  generate_tone fsin (FreqList [B64.of_Z 392; B64.of_Z 330])
    (B64.of_decimal 3 1) default_fade_in (B64.of_decimal 1 1).

(** "Click sound: single short beep (A5)" *)
Definition click : result Np.array :=
  generate_tone fsin (Freq (B64.of_Z 880))
    (B64.of_decimal 8 2) (B64.of_decimal 5 3) (B64.of_decimal 3 2).

Definition main : io unit :=
  os_makedirs OUTPUT_DIR ;;;
  make_sound correct "correct.mp3" ;;;
  make_sound incorrect "incorrect.mp3" ;;;
  make_sound click "click.mp3" ;;;
  print (String (ascii_of_nat 10) "All sounds generated successfully!").

End Transcode.

(** An encoder that exits with status 0 has written its output file. *)
Definition writes_output_on_success (enc : ffmpeg) : Prop :=
  match enc with
  | NotInstalled => True
  | Installed run =>
      forall input output, run input = (0, output) -> is_Some output
  end.

(** None of the three final files of [main] exists. *)
Definition outputs_absent (w : world) : Prop :=
  files w !! os_path_join OUTPUT_DIR "correct.mp3" = None
  /\ files w !! os_path_join OUTPUT_DIR "incorrect.mp3" = None
  /\ files w !! os_path_join OUTPUT_DIR "click.mp3" = None.

(** The bytes [save_wav] writes for a buffer. *)
Definition wav_bytes (audio : Np.array) : list byte :=
  wave_file 1 2 SAMPLE_RATE (tobytes (quantize audio)).

(** ** A stand-in sine

    A computable sine used where a statement is run on a concrete input: the
    argument is reduced by the nearest multiple of pi and a degree-7 Taylor
    polynomial is evaluated, all in binary64. *)
Definition sin_taylor (x : float) : float :=
  match B64.py_round (B64.div x B64.pi) with
  | Raise _ => B64.nan
  | Ok k =>
      let y := B64.sub x (B64.mul (B64.of_Z k) B64.pi) in
      let y2 := B64.mul y y in
      let c (n : Z) (p : float) :=
        B64.sub B64.one (B64.mul (B64.div y2 (B64.of_Z n)) p) in
      let p := B64.mul y (c 6 (c 20 (c 42 B64.one))) in
      if Z.even k then p else SFopp p
  end.

(** A world with one WAV file (of no samples) and an empty console. *)
Definition click_world : world := World {["click.wav" := wav_bytes []]} [].

(** A world left by an earlier run: [correct.mp3] exists. *)
Definition rerun_world : world :=
  World {[os_path_join OUTPUT_DIR "correct.mp3" := []]} [].

(** The buffer of a call that returned. *)
Definition returned {A : Type} (r : result (list A)) : list A :=
  match r with
  | Ok a => a
  | Raise _ => []
  end.

(** * Properties *)

(** ** The error monad *)

Lemma rbind_ok {A B : Type} (r : result A) (k : A -> result B) (b : B) :
  rbind r k = Ok b -> exists a, r = Ok a /\ k a = Ok b.
Proof. destruct r as [a|e]; simpl; [eauto | discriminate]. Qed.

(** ** Array shapes *)

Lemma linspace_neg start stop num endpoint :
  num < 0 -> Np.linspace start stop num endpoint = Raise ValueError.
Proof.
  intros Hn. unfold Np.linspace.
  destruct (Z.ltb_spec num 0); [reflexivity | lia].
Qed.

Lemma length_set_last (y : Np.array) stop : length (Np.set_last y stop) = length y.
Proof. unfold Np.set_last. apply length_insert. Qed.

Lemma length_arange num : length (Np.arange num) = Z.to_nat num.
Proof. unfold Np.arange. rewrite length_fmap. apply length_seqZ. Qed.

Lemma linspace_ok start stop num endpoint :
  0 <= num ->
  exists y, Np.linspace start stop num endpoint = Ok y
            /\ length y = Z.to_nat num.
Proof.
  intros Hn. unfold Np.linspace.
  destruct (Z.ltb_spec num 0); [lia |].
  eexists; split; [reflexivity |].
  destruct (endpoint && (1 <? num))%bool; rewrite ?length_set_last;
    rewrite length_fmap;
    repeat match goal with
           | |- context [if ?b then _ else _] => destruct b
           end; rewrite length_fmap; apply length_arange.
Qed.

Lemma linspace_inv start stop num endpoint y :
  Np.linspace start stop num endpoint = Ok y ->
  0 <= num /\ length y = Z.to_nat num.
Proof.
  intros H. destruct (Z.lt_ge_cases num 0) as [Hlt | Hge].
  - rewrite linspace_neg in H by assumption. discriminate.
  - split; [assumption |].
    destruct (linspace_ok start stop num endpoint Hge) as (y' & Hy & Hlen).
    congruence.
Qed.

Lemma linspace_raises start stop num endpoint e :
  Np.linspace start stop num endpoint = Raise e -> e = ValueError.
Proof.
  unfold Np.linspace. destruct (num <? 0); [congruence | discriminate].
Qed.

Lemma broadcast_to_inv n v v' :
  Np.broadcast_to n v = Ok v' -> length v' = n.
Proof.
  unfold Np.broadcast_to. destruct (decide (length v = n)) as [Heq | Hne].
  - congruence.
  - destruct v as [| x [| ? ?]]; try discriminate.
    intros [= <-]. apply length_replicate.
Qed.

Lemma broadcast_to_same n v : length v = n -> Np.broadcast_to n v = Ok v.
Proof.
  intros H. unfold Np.broadcast_to. destruct (decide (length v = n)); [reflexivity | contradiction].
Qed.

Lemma broadcast_to_raises n v e :
  Np.broadcast_to n v = Raise e -> e = ValueError.
Proof.
  unfold Np.broadcast_to. destruct (decide (length v = n)); [discriminate |].
  destruct v as [| x [| ? ?]]; congruence.
Qed.

Lemma broadcast_to_empty n : n <> 0%nat -> Np.broadcast_to n [] = Raise ValueError.
Proof.
  intros H. unfold Np.broadcast_to.
  destruct (decide (length (@nil float) = n)) as [Heq | Hne]; [| reflexivity].
  simpl in Heq. congruence.
Qed.

Lemma adjust_index_range len i : 0 <= len -> 0 <= Np.adjust_index len i <= len.
Proof. intros H. unfold Np.adjust_index. destruct (Z.ltb_spec i 0); lia. Qed.

Lemma slice_bounds_range len start stop lo hi :
  0 <= len -> Np.slice_bounds len start stop = (lo, hi) ->
  0 <= lo <= len /\ 0 <= hi <= len.
Proof.
  intros H. unfold Np.slice_bounds. intros [= <- <-].
  destruct start as [i|], stop as [j|]; simpl;
    pose proof (adjust_index_range len) as Hr;
    try specialize (Hr i) as Hi; try specialize (Hr j) as Hj; lia.
Qed.

Lemma update_slice_length f a start stop v a' :
  Np.update_slice f a start stop v = Ok a' -> length a' = length a.
Proof.
  unfold Np.update_slice.
  destruct (Np.slice_bounds _ start stop) as [lo hi] eqn:Hb.
  apply slice_bounds_range in Hb; [| lia].
  intros H. apply rbind_ok in H as (v' & Hv & [= <-]).
  apply broadcast_to_inv in Hv.
  rewrite !length_app, length_zip_with, !length_take, !length_drop. lia.
Qed.

Lemma update_slice_raises f a start stop v e :
  Np.update_slice f a start stop v = Raise e -> e = ValueError.
Proof.
  unfold Np.update_slice.
  destruct (Np.slice_bounds _ start stop) as [lo hi].
  destruct (Np.broadcast_to _ v) eqn:Hv; simpl; [discriminate |].
  intros [= <-]. eapply broadcast_to_raises, Hv.
Qed.

(** A view with as many items as the right-hand side is updated item by
    item. *)
Lemma update_slice_ok f a start stop v lo hi :
  Np.slice_bounds (Z.of_nat (length a)) start stop = (lo, hi) ->
  length v = Z.to_nat (hi - lo) ->
  Np.update_slice f a start stop v
  = Ok (take (Z.to_nat lo) a
        ++ zip_with f (take (Z.to_nat (hi - lo)) (drop (Z.to_nat lo) a)) v
        ++ drop (Z.to_nat lo + Z.to_nat (hi - lo)) a).
Proof.
  intros Hb Hv. unfold Np.update_slice. rewrite Hb.
  rewrite broadcast_to_same by assumption. reflexivity.
Qed.

(** ** The waveform and its segments *)

Lemma zip_with_right {A B : Type} (l : list A) (k : list B) :
  length l = length k -> zip_with (fun _ x => x) l k = k.
Proof.
  revert k. induction l as [| a l IH]; intros [| b k]; simpl; try discriminate; try reflexivity.
  intros [= H]. f_equal. apply IH, H.
Qed.

Lemma truediv_sample_rate n :
  truediv n SAMPLE_RATE = Ok (B64.div (B64.of_Z n) (B64.of_Z SAMPLE_RATE)).
Proof. reflexivity. Qed.

Section Waveform.

Variable fsin : float -> float.

Lemma length_sine_tone freq t : length (sine_tone fsin freq t) = length t.
Proof. unfold sine_tone, np_sin, Np.scale_l. rewrite !length_fmap. reflexivity. Qed.

Lemma segment_grid_spec n :
  0 <= n ->
  Np.linspace B64.zero (B64.div (B64.of_Z n) (B64.of_Z SAMPLE_RATE)) n false
  = Ok (segment_grid n)
  /\ length (segment_grid n) = Z.to_nat n.
Proof.
  intros Hn. unfold segment_grid.
  destruct (linspace_ok B64.zero (B64.div (B64.of_Z n) (B64.of_Z SAMPLE_RATE)) n false Hn)
    as (y & -> & Hlen).
  split; [reflexivity | assumption].
Qed.

(** Writing one segment: the slice [start:end] lies inside the buffer and
    has as many items as the tone. *)
Lemma set_segment (audio : Np.array) (start end_ : Z) (tone : Np.array) :
  0 <= start <= end_ -> end_ <= Z.of_nat (length audio) ->
  length tone = Z.to_nat (end_ - start) ->
  Np.set_slice audio (Some start) (Some end_) tone
  = Ok (take (Z.to_nat start) audio ++ tone ++ drop (Z.to_nat end_) audio).
Proof.
  intros Hs He Ht. unfold Np.set_slice.
  erewrite update_slice_ok with (lo := start) (hi := end_); [| | assumption].
  - rewrite zip_with_right.
    + repeat f_equal. lia.
    + rewrite length_take, length_drop. lia.
  - unfold Np.slice_bounds, Np.adjust_index; simpl.
    destruct (Z.ltb_spec start 0), (Z.ltb_spec end_ 0); try lia.
    f_equal; lia.
Qed.

Lemma fill_segments_spec (len_freqs segment_len samples : Z) :
  0 <= segment_len -> (len_freqs - 1) * segment_len <= samples ->
  forall (rest : list float) (i : Z) (audio : Np.array),
    0 <= i -> i + Z.of_nat (length rest) = len_freqs -> rest <> [] ->
    length audio = Z.to_nat samples ->
    fill_segments fsin rest i len_freqs segment_len samples audio
    = Ok (take (Z.to_nat (i * segment_len)) audio
          ++ mjoin (segment_tones fsin rest i len_freqs segment_len samples)).
Proof.
  intros Hseg Hfit rest.
  induction rest as [| freq rest IH]; intros i audio Hi HL Hne Hlen; [contradiction |].
  simpl length in HL.
  assert (Hstart : 0 <= i * segment_len) by nia.
  cbn [fill_segments segment_tones].
  rewrite truediv_sample_rate. cbn [rbind].
  destruct (Z.ltb_spec i (len_freqs - 1)) as [Hlt | Hge].
  - (* an inner segment *)
    assert (Hend : i * segment_len + segment_len <= samples) by nia.
    replace (i * segment_len + segment_len - i * segment_len) with segment_len by lia.
    destruct (segment_grid_spec segment_len Hseg) as [-> Hg]. cbn [rbind].
    rewrite set_segment; [| lia | lia | rewrite length_sine_tone, Hg; f_equal; lia].
    cbn [rbind].
    destruct rest as [| freq' rest']; [simpl in HL; lia |].
    rewrite IH; [| lia | lia | discriminate |].
    + f_equal. cbn [mjoin list_join]. rewrite (app_assoc _ _ (mjoin _)). f_equal.
      replace ((i + 1) * segment_len) with (i * segment_len + segment_len) by lia.
      rewrite take_app_ge by (rewrite length_take; lia).
      rewrite length_take.
      rewrite take_app_ge by (rewrite length_sine_tone, Hg; lia).
      rewrite length_sine_tone, Hg.
      replace (Z.to_nat (i * segment_len + segment_len)
               - Z.to_nat (i * segment_len) `min` length audio
               - Z.to_nat segment_len)%nat with 0%nat by lia.
      rewrite take_0, app_nil_r. reflexivity.
    + rewrite !length_app, length_take, length_drop, length_sine_tone, Hg. lia.
  - (* the last segment runs to the end of the buffer *)
    destruct rest as [| freq' rest']; [| simpl in HL; lia].
    assert (Hn : 0 <= samples - i * segment_len) by (simpl in HL; nia).
    destruct (segment_grid_spec _ Hn) as [-> Hg]. cbn [rbind].
    rewrite set_segment; [| lia | lia | rewrite length_sine_tone, Hg; reflexivity].
    cbn [rbind fill_segments segment_tones mjoin list_join].
    rewrite drop_ge by lia. rewrite !app_nil_r. reflexivity.
Qed.

Lemma length_segment_tones (len_freqs segment_len samples : Z) rest i :
  length (segment_tones fsin rest i len_freqs segment_len samples) = length rest.
Proof.
  revert i. induction rest as [| f rest IH]; intros i; simpl; [reflexivity |].
  f_equal. apply IH.
Qed.

Lemma lookup_segment_tones (len_freqs segment_len samples : Z) rest i (j : nat) seg :
  segment_tones fsin rest i len_freqs segment_len samples !! j = Some seg ->
  exists freq,
    rest !! j = Some freq
    /\ seg = sine_tone fsin freq
               (segment_grid (if i + Z.of_nat j <? len_freqs - 1 then segment_len
                              else samples - (i + Z.of_nat j) * segment_len)).
Proof.
  revert i j seg. induction rest as [| f rest IH]; intros i j seg; [discriminate |].
  destruct j as [| j].
  - intros [= <-]. exists f. split; [reflexivity |].
    change (Z.of_nat 0) with 0. rewrite Z.add_0_r. reflexivity.
  - intros H. cbn [segment_tones] in H. apply (IH (i + 1) j seg) in H as (freq & Hf & ->).
    exists freq. split; [assumption |].
    replace (i + 1 + Z.of_nat j) with (i + Z.of_nat (S j)) by lia.
    reflexivity.
Qed.

End Waveform.

Section Tone.

Variable fsin : float -> float.

Lemma waveform_list (l : list float) (duration : float) (samples : Z) :
  l <> [] -> 0 <= samples ->
  waveform fsin (FreqList l) duration samples
  = Ok (mjoin (segment_tones fsin l 0 (Z.of_nat (length l))
                 (samples / Z.of_nat (length l)) samples)).
Proof.
  intros Hl Hn. unfold waveform.
  destruct (linspace_ok B64.zero duration samples false Hn) as (t & -> & _).
  cbn [rbind]. unfold floordiv, Np.zeros.
  assert (HL : 0 < Z.of_nat (length l)) by (destruct l; [contradiction | simpl; lia]).
  destruct (Z.eqb_spec (Z.of_nat (length l)) 0); [lia |].
  destruct (Z.ltb_spec samples 0); [lia |]. cbn [rbind].
  pose proof (Z.div_pos samples _ Hn HL) as Hq.
  pose proof (Z.mul_div_le samples _ HL) as Hle.
  rewrite (fill_segments_spec fsin (Z.of_nat (length l)) (samples / Z.of_nat (length l)) samples);
    [reflexivity | lia | nia | lia | lia | assumption | apply length_replicate].
Qed.

Lemma fill_segments_length rest i len_freqs segment_len samples audio audio' :
  fill_segments fsin rest i len_freqs segment_len samples audio = Ok audio' ->
  length audio' = length audio.
Proof.
  revert i audio. induction rest as [| freq rest IH]; intros i audio H.
  - injection H as <-. reflexivity.
  - cbn [fill_segments] in H.
    apply rbind_ok in H as (d & _ & H).
    apply rbind_ok in H as (t & _ & H).
    apply rbind_ok in H as (a1 & Hset & H).
    apply update_slice_length in Hset. apply IH in H. congruence.
Qed.

Lemma waveform_inv freqs duration samples audio :
  waveform fsin freqs duration samples = Ok audio ->
  0 <= samples /\ length audio = Z.to_nat samples.
Proof.
  unfold waveform. intros H.
  apply rbind_ok in H as (t & Ht & H). apply linspace_inv in Ht as [Hn Hlen].
  split; [assumption |].
  destruct freqs as [f | l].
  - injection H as <-. rewrite length_sine_tone. assumption.
  - apply rbind_ok in H as (segment_len & _ & H).
    apply rbind_ok in H as (zs & Hz & H).
    apply fill_segments_length in H. rewrite H.
    unfold Np.zeros in Hz. destruct (samples <? 0); [discriminate |].
    injection Hz as <-. apply length_replicate.
Qed.

Lemma waveform_ok freqs duration samples :
  freqs <> FreqList [] -> 0 <= samples ->
  exists audio, waveform fsin freqs duration samples = Ok audio
                /\ length audio = Z.to_nat samples.
Proof.
  intros Hf Hn.
  assert (exists audio, waveform fsin freqs duration samples = Ok audio) as [audio H].
  { destruct freqs as [f | l].
    - unfold waveform.
      destruct (linspace_ok B64.zero duration samples false Hn) as (t & -> & _).
      eexists; reflexivity.
    - rewrite waveform_list; [eexists; reflexivity | congruence | assumption]. }
  exists audio. split; [assumption |]. eapply waveform_inv, H.
Qed.

Lemma waveform_empty_list duration samples :
  0 <= samples ->
  waveform fsin (FreqList []) duration samples = Raise ZeroDivisionError.
Proof.
  intros Hn. unfold waveform.
  destruct (linspace_ok B64.zero duration samples false Hn) as (t & -> & _).
  reflexivity.
Qed.

(** *** The fades *)

Lemma apply_fades_length audio fade_in fade_out audio' :
  apply_fades audio fade_in fade_out = Ok audio' -> length audio' = length audio.
Proof.
  unfold apply_fades. intros H.
  apply rbind_ok in H as (ki & _ & H).
  apply rbind_ok in H as (ko & _ & H).
  apply rbind_ok in H as (ramp_in & _ & H).
  apply rbind_ok in H as (a1 & H1 & H).
  apply rbind_ok in H as (ramp_out & _ & H).
  apply update_slice_length in H1, H. congruence.
Qed.

Lemma apply_fades_ok audio fade_in fade_out ki ko :
  sample_count fade_in = Ok ki -> sample_count fade_out = Ok ko ->
  0 <= ki <= Z.of_nat (length audio) -> 1 <= ko <= Z.of_nat (length audio) ->
  exists audio', apply_fades audio fade_in fade_out = Ok audio'.
Proof.
  intros Hi Ho Hki Hko. unfold apply_fades. rewrite Hi, Ho. cbn [rbind].
  destruct (linspace_ok B64.zero B64.one ki true) as (ramp_in & -> & Hlin); [lia |].
  cbn [rbind]. unfold Np.imul_slice.
  erewrite (update_slice_ok _ audio None (Some ki) ramp_in 0 ki).
  - cbn [rbind].
    destruct (linspace_ok B64.one B64.zero ko true) as (ramp_out & -> & Hlout); [lia |].
    cbn [rbind].
    match goal with |- context [Np.update_slice _ ?a _ _ _] => set (a1 := a) end.
    assert (Hlen1 : length a1 = length audio).
    { subst a1. rewrite !length_app, length_zip_with, !length_take, !length_drop. lia. }
    erewrite (update_slice_ok _ a1 (Some (- ko)) None ramp_out
                (Z.of_nat (length audio) - ko) (Z.of_nat (length audio))).
    + eexists; reflexivity.
    + unfold Np.slice_bounds, Np.adjust_index; simpl. rewrite Hlen1.
      destruct (Z.ltb_spec (- ko) 0); [| lia]. f_equal. lia.
    + rewrite Hlout. f_equal. lia.
  - unfold Np.slice_bounds, Np.adjust_index; simpl.
    destruct (Z.ltb_spec ki 0); [lia |]. f_equal. lia.
  - rewrite Hlin. f_equal. lia.
Qed.

(** A fade-out of zero samples: [audio[-0:]] is the whole buffer, the ramp
    [np.linspace(1, 0, 0)] is empty, and the in-place product does not
    broadcast. *)
Lemma apply_fades_no_fade_out audio fade_in fade_out ki :
  sample_count fade_in = Ok ki -> sample_count fade_out = Ok 0 ->
  audio <> [] ->
  apply_fades audio fade_in fade_out = Raise ValueError.
Proof.
  intros Hi Ho Hne. unfold apply_fades. rewrite Hi, Ho. cbn [rbind].
  destruct (Np.linspace B64.zero B64.one ki true) as [ramp_in | e] eqn:Hlin; cbn [rbind].
  2: { apply linspace_raises in Hlin. congruence. }
  destruct (Np.imul_slice audio None (Some ki) ramp_in) as [a1 | e] eqn:H1; cbn [rbind].
  2: { apply update_slice_raises in H1. congruence. }
  apply update_slice_length in H1.
  change (Np.linspace B64.one B64.zero 0 true) with (@Ok Np.array []). cbn [rbind].
  unfold Np.imul_slice, Np.update_slice.
  change (- 0) with 0.
  replace (Np.slice_bounds (Z.of_nat (length a1)) (Some 0) None)
    with (0, Z.of_nat (length a1)).
  2: { unfold Np.slice_bounds, Np.adjust_index; simpl. f_equal. lia. }
  rewrite broadcast_to_empty; [reflexivity |].
  destruct audio; [contradiction | simpl in H1; lia].
Qed.

(** *** The whole tone *)

Lemma generate_tone_inv freqs duration fade_in fade_out buf :
  generate_tone fsin freqs duration fade_in fade_out = Ok buf ->
  exists samples, sample_count duration = Ok samples /\ 0 <= samples
                  /\ length buf = Z.to_nat samples.
Proof.
  unfold generate_tone. intros H.
  apply rbind_ok in H as (samples & Hs & H).
  apply rbind_ok in H as (a0 & Hw & H).
  apply rbind_ok in H as (a1 & Hf & [= <-]).
  apply waveform_inv in Hw as [Hn Hlen]. apply apply_fades_length in Hf.
  exists samples. repeat split; try assumption.
  unfold Np.scale. rewrite length_fmap. congruence.
Qed.

Lemma generate_tone_ok freqs duration fade_in fade_out samples ki ko :
  freqs <> FreqList [] ->
  sample_count duration = Ok samples ->
  sample_count fade_in = Ok ki -> sample_count fade_out = Ok ko ->
  0 <= ki <= samples -> 1 <= ko <= samples ->
  exists buf, generate_tone fsin freqs duration fade_in fade_out = Ok buf
              /\ length buf = Z.to_nat samples.
Proof.
  intros Hf Hs Hi Ho Hki Hko.
  assert (exists buf, generate_tone fsin freqs duration fade_in fade_out = Ok buf)
    as [buf H].
  { unfold generate_tone. rewrite Hs. cbn [rbind].
    destruct (waveform_ok freqs duration samples Hf) as (a0 & -> & Hlen); [lia |].
    cbn [rbind].
    destruct (apply_fades_ok a0 fade_in fade_out ki ko Hi Ho) as (a1 & ->); [lia | lia |].
    eexists; reflexivity. }
  exists buf. split; [assumption |].
  apply generate_tone_inv in H as (n & Hn & _ & Hlen). congruence.
Qed.

Lemma generate_tone_no_fade_out freqs duration fade_in fade_out samples ki :
  freqs <> FreqList [] ->
  sample_count duration = Ok samples -> 1 <= samples ->
  sample_count fade_in = Ok ki -> sample_count fade_out = Ok 0 ->
  generate_tone fsin freqs duration fade_in fade_out = Raise ValueError.
Proof.
  intros Hf Hs Hn Hi Ho. unfold generate_tone. rewrite Hs. cbn [rbind].
  destruct (waveform_ok freqs duration samples Hf) as (a0 & -> & Hlen); [lia |].
  cbn [rbind].
  rewrite (apply_fades_no_fade_out a0 fade_in fade_out ki Hi Ho); [reflexivity |].
  destruct a0; [simpl in Hlen; lia | discriminate].
Qed.

End Tone.

(** ** Sample counts *)

(** [44100 * 0.35] is 15434.999999999998 in binary64. *)
Example sample_rate_times_035 :
  B64.mul (B64.of_Z SAMPLE_RATE) (B64.of_decimal 35 2)
  = S754_finite false 8485480987361279 (-39).
Proof. vm_compute. reflexivity. Qed.

Example sample_counts_of_main :
  sample_count (B64.of_decimal 35 2) = Ok 15434
  /\ sample_count (B64.of_decimal 3 1) = Ok 13230
  /\ sample_count (B64.of_decimal 8 2) = Ok 3528
  /\ sample_count default_fade_in = Ok 441
  /\ sample_count (B64.of_decimal 1 1) = Ok 4410
  /\ sample_count (B64.of_decimal 5 3) = Ok 220
  /\ sample_count (B64.of_decimal 3 2) = Ok 1323.
Proof. vm_compute. repeat split; reflexivity. Qed.

Lemma round_mag_near_trunc m e :
  B64.trunc_mag m e <= B64.round_mag m e <= B64.trunc_mag m e + 1.
Proof.
  unfold B64.trunc_mag, B64.round_mag. destruct e as [| p | p]; try lia.
  cbv zeta. destruct (2 * (Z.pos m mod 2 ^ Z.pos p) ?= 2 ^ Z.pos p); try lia.
  destruct (Z.even _); lia.
Qed.

Lemma py_round_near_py_int x n :
  B64.py_int x = Ok n ->
  exists r, B64.py_round x = Ok r /\ Z.abs (n - r) <= 1 /\ Z.abs n <= Z.abs r.
Proof.
  destruct x as [s | s | | s m e]; simpl; try discriminate.
  - intros [= <-]. exists 0. repeat split; lia.
  - intros [= <-]. eexists; split; [reflexivity |].
    pose proof (round_mag_near_trunc m e) as H.
    assert (0 <= B64.trunc_mag m e).
    { unfold B64.trunc_mag. destruct e; try lia. apply Z.div_pos; lia. }
    destruct s; simpl; lia.
Qed.

(** C2, where the code departs from it.  With [fade_out = 0], and with a
    positive [fade_out] whose sample count truncates to 0 (here 0.00001 s,
    0.441 samples), [generate_tone] raises [ValueError] on the click tone
    (880 Hz, 0.08 s, fade-in 0.005 s) although every stated precondition
    holds: [audio[-0:]] is the whole buffer of 3528 samples and the ramp
    [np.linspace(1, 0, 0)] is empty. *)
Theorem generate_tone_fade_out_zero_raises (fsin : float -> float) :
  generate_tone fsin (Freq (B64.of_Z 880)) (B64.of_decimal 8 2)
    (B64.of_decimal 5 3) B64.zero = Raise ValueError
  /\ generate_tone fsin (Freq (B64.of_Z 880)) (B64.of_decimal 8 2)
       (B64.of_decimal 5 3) (B64.of_decimal 1 5) = Raise ValueError.
Proof.
  split;
    apply (generate_tone_no_fade_out fsin _ _ _ _ 3528 220);
    solve [discriminate | lia | vm_compute; reflexivity].
Qed.

(** C6: whenever [generate_tone] returns a buffer, single frequency or list,
    its length is [int(SAMPLE_RATE * duration)], which is within one sample
    of [round(SAMPLE_RATE * duration)] and never above it in magnitude. *)
Theorem generate_tone_length_near_round (fsin : float -> float)
    (freqs : frequencies) (duration fade_in fade_out : float) (buf : Np.array) :
  generate_tone fsin freqs duration fade_in fade_out = Ok buf ->
  exists samples r,
    sample_count duration = Ok samples
    /\ B64.py_round (B64.mul (B64.of_Z SAMPLE_RATE) duration) = Ok r
    /\ Z.of_nat (length buf) = samples
    /\ Z.abs (Z.of_nat (length buf) - r) <= 1.
Proof.
  intros H. apply generate_tone_inv in H as (samples & Hs & Hn & Hlen).
  destruct (py_round_near_py_int _ _ Hs) as (r & Hr & Hnear & _).
  exists samples, r. repeat split; try assumption; rewrite Hlen; lia.
Qed.

Lemma generate_tone_length_near_round_witness :
  exists samples r,
    sample_count (B64.of_decimal 1 3) = Ok samples
    /\ B64.py_round (B64.mul (B64.of_Z SAMPLE_RATE) (B64.of_decimal 1 3)) = Ok r
    /\ Z.of_nat (length (returned (generate_tone sin_taylor
                                     (FreqList [B64.of_Z 523; B64.of_Z 659])
                                     (B64.of_decimal 1 3) (B64.of_decimal 1 4)
                                     (B64.of_decimal 2 4)))) = samples
    /\ Z.abs (Z.of_nat (length (returned (generate_tone sin_taylor
                                     (FreqList [B64.of_Z 523; B64.of_Z 659])
                                     (B64.of_decimal 1 3) (B64.of_decimal 1 4)
                                     (B64.of_decimal 2 4)))) - r) <= 1.
Proof.
  apply (generate_tone_length_near_round sin_taylor
           (FreqList [B64.of_Z 523; B64.of_Z 659])
           (B64.of_decimal 1 3) (B64.of_decimal 1 4) (B64.of_decimal 2 4)).
  vm_compute. reflexivity.
Defined.

(** C7: for a list of [L >= 1] frequencies and a buffer of [samples]
    samples, the waveform is the concatenation of [L] tones, one per
    frequency in order; each of the first [L - 1] has [samples // L] samples
    and the last has [samples - (L - 1) * (samples // L)], so the segments
    tile the buffer with no gap and no overlap.  [generate_tone] applies the
    fades and the scale to that buffer. *)
Theorem waveform_segments_partition (fsin : float -> float) (l : list float)
    (duration fade_in fade_out : float) (samples : Z) :
  l <> [] -> sample_count duration = Ok samples -> 0 <= samples ->
  let L := Z.of_nat (length l) in
  exists segs : list Np.array,
    waveform fsin (FreqList l) duration samples = Ok (mjoin segs)
    /\ generate_tone fsin (FreqList l) duration fade_in fade_out
       = (audio <- apply_fades (mjoin segs) fade_in fade_out ;;
          Ok (Np.scale audio amplitude))
    /\ length segs = length l
    /\ length (mjoin segs) = Z.to_nat samples
    /\ forall (i : nat) (seg : Np.array),
         segs !! i = Some seg ->
         Z.of_nat (length seg)
         = (if Z.of_nat i <? L - 1 then samples / L
            else samples - (L - 1) * (samples / L))
         /\ exists freq,
              l !! i = Some freq
              /\ seg = sine_tone fsin freq (segment_grid (Z.of_nat (length seg))).
Proof.
  intros Hl Hs Hn L.
  pose proof (waveform_list fsin l duration samples Hl Hn) as Hw. fold L in Hw.
  set (segs := segment_tones fsin l 0 L (samples / L) samples) in *.
  assert (HL : 0 < L) by (subst L; destruct l; [contradiction | simpl; lia]).
  pose proof (Z.div_pos samples _ Hn HL) as Hq.
  pose proof (Z.mul_div_le samples _ HL) as Hle.
  exists segs. split; [assumption |]. split.
  { unfold generate_tone. rewrite Hs. cbn [rbind]. rewrite Hw. reflexivity. }
  split; [apply length_segment_tones |]. split.
  { apply waveform_inv in Hw. apply Hw. }
  intros i seg Hi.
  assert (Hlt : Z.of_nat i < L).
  { apply lookup_lt_Some in Hi. subst segs L.
    rewrite length_segment_tones in Hi. lia. }
  apply lookup_segment_tones in Hi as (freq & Hf & ->).
  rewrite Z.add_0_l.
  assert (Hlen : forall n, 0 <= n ->
            Z.of_nat (length (sine_tone fsin freq (segment_grid n))) = n).
  { intros n Hn'. rewrite length_sine_tone.
    destruct (segment_grid_spec n Hn') as [_ ->]. lia. }
  destruct (Z.ltb_spec (Z.of_nat i) (L - 1)) as [Hin | Hlast].
  - rewrite Hlen by assumption. split; [reflexivity |]. exists freq. split; [assumption | reflexivity].
  - replace (Z.of_nat i) with (L - 1) by lia.
    rewrite Hlen by nia. split; [reflexivity |]. exists freq. split; [assumption | reflexivity].
Qed.

Lemma waveform_segments_partition_witness :
  exists segs : list Np.array,
    waveform sin_taylor (FreqList [B64.of_Z 523; B64.of_Z 659; B64.of_Z 784])
      (B64.of_decimal 35 2) 15434 = Ok (mjoin segs)
    /\ generate_tone sin_taylor (FreqList [B64.of_Z 523; B64.of_Z 659; B64.of_Z 784])
         (B64.of_decimal 35 2) default_fade_in (B64.of_decimal 1 1)
       = (audio <- apply_fades (mjoin segs) default_fade_in (B64.of_decimal 1 1) ;;
          Ok (Np.scale audio amplitude))
    /\ length segs = 3%nat
    /\ length (mjoin segs) = Z.to_nat 15434
    /\ forall (i : nat) (seg : Np.array),
         segs !! i = Some seg ->
         Z.of_nat (length seg) = (if Z.of_nat i <? 2 then 5144 else 5146)
         /\ exists freq,
              [B64.of_Z 523; B64.of_Z 659; B64.of_Z 784] !! i = Some freq
              /\ seg = sine_tone sin_taylor freq (segment_grid (Z.of_nat (length seg))).
Proof.
  apply (waveform_segments_partition sin_taylor
           [B64.of_Z 523; B64.of_Z 659; B64.of_Z 784]
           (B64.of_decimal 35 2) default_fade_in (B64.of_decimal 1 1) 15434).
  - discriminate.
  - vm_compute. reflexivity.
  - lia.
Defined.

(** ** Paths *)

Lemma append_nil_l (b : string) : EmptyString +:+ b = b.
Proof. reflexivity. Qed.

Lemma append_cons (c : ascii) (a b : string) :
  String c a +:+ b = String c (a +:+ b).
Proof. reflexivity. Qed.

Lemma append_assoc (a b c : string) : (a +:+ b) +:+ c = a +:+ (b +:+ c).
Proof.
  induction a as [| x a IH]; [reflexivity |].
  rewrite !append_cons, IH. reflexivity.
Qed.

Lemma append_nil_r (s : string) : s +:+ EmptyString = s.
Proof.
  induction s as [| c s IH]; [reflexivity |].
  rewrite append_cons, IH. reflexivity.
Qed.

Lemma no_dot_append a b : no_dot (a +:+ b) = no_dot a && no_dot b.
Proof.
  induction a as [| x a IH]; [reflexivity |].
  rewrite append_cons. cbn [no_dot]. rewrite IH, andb_assoc. reflexivity.
Qed.

Lemma replace_from_skip_all old new s :
  replace_from old new (String.length s) s = EmptyString.
Proof. induction s as [| c s IH]; simpl; [reflexivity | assumption]. Qed.

Lemma prefix_empty (s : string) : String.prefix EmptyString s = true.
Proof. destruct s; reflexivity. Qed.

Lemma prefix_refl (s : string) : String.prefix s s = true.
Proof.
  induction s as [| c s IH]; simpl; [reflexivity |].
  destruct (ascii_dec c c); [assumption | contradiction].
Qed.

(** Replacing a dotted extension at the end of a name without other dots. *)
Lemma replace_extension (old' new p : string) :
  no_dot p = true ->
  replace_from (String "." old') new 0 (p +:+ String "." old') = p +:+ new.
Proof.
  intros Hp. induction p as [| c p IH].
  - rewrite !append_nil_l. cbn [replace_from]. rewrite prefix_refl.
    cbn [String.length pred]. rewrite replace_from_skip_all. apply append_nil_r.
  - cbn [no_dot] in Hp. apply andb_prop in Hp as [Hc Hp].
    rewrite !append_cons. cbn [replace_from String.prefix].
    destruct (ascii_dec "." c) as [<- | _]; [discriminate |].
    rewrite IH by assumption. reflexivity.
Qed.

Lemma str_replace_extension (old' new p : string) :
  no_dot p = true ->
  str_replace (p +:+ String "." old') (String "." old') new = p +:+ new.
Proof. apply replace_extension. Qed.

Lemma endswith_append (p suffix : string) : endswith (p +:+ suffix) suffix = true.
Proof.
  induction p as [| c p IH].
  - rewrite append_nil_l. destruct suffix; simpl; [reflexivity |].
    rewrite Ascii.eqb_refl, String.eqb_refl. reflexivity.
  - rewrite append_cons. cbn [endswith]. rewrite IH. apply orb_true_r.
Qed.

(** The directory part that [os.path.join(OUTPUT_DIR, name)] puts before a
    name: nothing when the name is absolute. *)
Lemma os_path_join_output_dir (stem ext : string) :
  String.prefix "/" ext = false ->
  exists dir, no_dot dir = true
              /\ forall ext', String.prefix "/" ext' = String.prefix "/" ext ->
                   os_path_join OUTPUT_DIR (stem +:+ ext') = (dir +:+ stem) +:+ ext'.
Proof.
  intros Hext. destruct stem as [| c stem].
  - exists (OUTPUT_DIR +:+ "/"). split; [reflexivity |].
    intros ext' He. unfold os_path_join. rewrite append_nil_l, He, Hext.
    rewrite append_nil_r.
    change (String.eqb OUTPUT_DIR "" || endswith OUTPUT_DIR "/") with false.
    cbv iota. rewrite append_assoc. reflexivity.
  - destruct (ascii_dec "/" c) as [<- | Hc].
    + exists EmptyString. split; [reflexivity |].
      intros ext' _. unfold os_path_join. rewrite append_cons. cbn [String.prefix].
      destruct (ascii_dec "/" "/"); [| contradiction].
      rewrite prefix_empty. reflexivity.
    + exists (OUTPUT_DIR +:+ "/"). split; [reflexivity |].
      intros ext' _. unfold os_path_join. rewrite append_cons. cbn [String.prefix].
      destruct (ascii_dec "/" c); [contradiction |].
      change (String.eqb OUTPUT_DIR "" || endswith OUTPUT_DIR "/") with false.
      cbv iota. rewrite !append_assoc. reflexivity.
Qed.

(** C10: for a file name [stem.mp3] whose stem has no dot, [save_wav]
    returns a path that ends in [.wav], and the path [convert_to_mp3]
    computes from it is [os.path.join(OUTPUT_DIR, stem.mp3)]. *)
Theorem extension_rewrites_round_trip (stem : string) (audio : Np.array) (w : world) :
  no_dot stem = true ->
  exists wav_path,
    fst (save_wav audio (stem +:+ ".mp3") w) = Ok wav_path
    /\ endswith wav_path ".wav" = true
    /\ mp3_path_of wav_path = os_path_join OUTPUT_DIR (stem +:+ ".mp3").
Proof.
  intros Hstem. exists (wav_path_of (stem +:+ ".mp3")).
  split; [reflexivity |].
  unfold wav_path_of, mp3_path_of.
  rewrite str_replace_extension by assumption.
  destruct (os_path_join_output_dir stem ".wav") as (dir & Hdir & Hjoin); [reflexivity |].
  rewrite (Hjoin ".wav"), (Hjoin ".mp3") by reflexivity.
  split; [apply endswith_append |].
  apply str_replace_extension. rewrite no_dot_append, Hdir, Hstem. reflexivity.
Qed.

Lemma extension_rewrites_round_trip_witness :
  exists wav_path,
    fst (save_wav [B64.zero] ("correct" +:+ ".mp3") (World ∅ [])) = Ok wav_path
    /\ endswith wav_path ".wav" = true
    /\ mp3_path_of wav_path = os_path_join OUTPUT_DIR ("correct" +:+ ".mp3").
Proof.
  apply (extension_rewrites_round_trip "correct" [B64.zero] (World ∅ [])).
  reflexivity.
Defined.

(** ** Transcoding *)

Lemma save_wav_spec (audio : Np.array) (filename : string) (w : world) :
  save_wav audio filename w
  = (Ok (wav_path_of filename),
     World (<[wav_path_of filename := wav_bytes audio]> (files w)) (stdout w)).
Proof. reflexivity. Qed.

(** Without the encoder, the WAV file is renamed and nothing is removed,
    when no file has the new name yet. *)
Lemma convert_to_mp3_not_installed (wav_path : string) (w : world) (data : list byte) :
  files w !! wav_path = Some data ->
  files w !! mp3_path_of wav_path = None ->
  convert_to_mp3 NotInstalled wav_path w
  = (Ok false,
     World (<[mp3_path_of wav_path := data]> (delete wav_path (files w)))
       ((stdout w ++ ["ffmpeg not found, keeping WAV files"])
        ++ ["Created: " +:+ mp3_path_of wav_path +:+ " (actually WAV)"])).
Proof.
  intros H Hdst.
  unfold convert_to_mp3, try_except, subprocess_run, ioraise, iobind, print,
    os_rename, ioret.
  cbn [files stdout]. rewrite H.
  destruct (decide (mp3_path_of wav_path = wav_path)) as [Heq | _];
    [rewrite Heq in Hdst; congruence |].
  rewrite Hdst. reflexivity.
Qed.

(** Without the encoder, a file that already has the new name stops the
    rename: [FileExistsError] leaves the handler, after the notice. *)
Lemma convert_to_mp3_not_installed_exists (wav_path : string) (w : world)
    (data old : list byte) :
  files w !! wav_path = Some data ->
  wav_path <> mp3_path_of wav_path ->
  files w !! mp3_path_of wav_path = Some old ->
  convert_to_mp3 NotInstalled wav_path w
  = (Raise FileExistsError,
     World (files w) (stdout w ++ ["ffmpeg not found, keeping WAV files"])).
Proof.
  intros H Hne Hdst.
  unfold convert_to_mp3, try_except, subprocess_run, ioraise, iobind, print,
    os_rename, ioret.
  cbn [files stdout]. rewrite H.
  destruct (decide (mp3_path_of wav_path = wav_path)); [congruence |].
  rewrite Hdst. reflexivity.
Qed.

(** A non-zero exit status: [check=True] raises, no handler matches. *)
Lemma convert_to_mp3_exit_nonzero run (wav_path : string) (w : world)
    (returncode : Z) (output : option (list byte)) :
  run (files w !! wav_path) = (returncode, output) -> returncode <> 0 ->
  convert_to_mp3 (Installed run) wav_path w
  = (Raise (CalledProcessError returncode),
     match output with
     | Some data => World (<[mp3_path_of wav_path := data]> (files w)) (stdout w)
     | None => w
     end).
Proof.
  intros Hrun Hcode.
  unfold convert_to_mp3, try_except, subprocess_run, iobind.
  rewrite Hrun. destruct (Z.eqb_spec returncode 0); [contradiction |].
  reflexivity.
Qed.

(** Exit status 0 with the output written: the WAV file is removed. *)
Lemma convert_to_mp3_exit_zero run (wav_path : string) (w : world)
    (data mp3 : list byte) :
  files w !! wav_path = Some data ->
  run (Some data) = (0, Some mp3) ->
  convert_to_mp3 (Installed run) wav_path w
  = (Ok true,
     World (delete wav_path (<[mp3_path_of wav_path := mp3]> (files w)))
       (stdout w ++ ["Created: " +:+ mp3_path_of wav_path])).
Proof.
  intros Hwav Hrun.
  unfold convert_to_mp3, try_except, subprocess_run, iobind, os_remove, print, ioret.
  rewrite Hwav, Hrun. cbn [Z.eqb files stdout].
  destruct (decide (mp3_path_of wav_path = wav_path)) as [-> | Hne].
  - rewrite lookup_insert_eq. reflexivity.
  - rewrite lookup_insert_ne, Hwav by assumption. reflexivity.
Qed.

(** One sound, from synthesis to the final file. *)
Lemma make_sound_inv (enc : ffmpeg) (tone : result Np.array) (filename : string)
    (w w' : world) (b : bool) :
  writes_output_on_success enc ->
  wav_path_of filename <> mp3_path_of (wav_path_of filename) ->
  make_sound enc tone filename w = (Ok b, w') ->
  exists buf data,
    tone = Ok buf
    /\ files w' !! mp3_path_of (wav_path_of filename) = Some data
    /\ match enc with
       | NotInstalled => b = false /\ data = wav_bytes buf
       | Installed run => b = true /\ run (Some (wav_bytes buf)) = (0, Some data)
       end
    /\ files w' !! wav_path_of filename = None
    /\ forall p, p <> wav_path_of filename ->
                 p <> mp3_path_of (wav_path_of filename) ->
                 files w' !! p = files w !! p.
Proof.
  intros Henc Hne. unfold make_sound, lift.
  destruct tone as [buf | e]; [| discriminate].
  unfold iobind at 1. unfold iobind at 1. rewrite save_wav_spec.
  set (w1 := World _ _).
  assert (Hwav : files w1 !! wav_path_of filename = Some (wav_bytes buf))
    by apply lookup_insert_eq.
  destruct enc as [| run].
  - destruct (files w1 !! mp3_path_of (wav_path_of filename)) as [old |] eqn:Hdst.
    { rewrite (convert_to_mp3_not_installed_exists _ _ _ old Hwav Hne Hdst).
      discriminate. }
    rewrite (convert_to_mp3_not_installed _ _ _ Hwav Hdst). intros [= <- <-].
    exists buf, (wav_bytes buf). cbn [files].
    split; [reflexivity |]. split; [apply lookup_insert_eq |].
    split; [split; reflexivity |]. split.
    + rewrite lookup_insert_ne by congruence. apply lookup_delete_eq.
    + intros p Hp1 Hp2.
      rewrite lookup_insert_ne, lookup_delete_ne, lookup_insert_ne by congruence.
      reflexivity.
  - destruct (run (Some (wav_bytes buf))) as [returncode output] eqn:Hrun.
    destruct (Z.eq_dec returncode 0) as [-> | Hcode].
    + destruct (Henc _ _ Hrun) as [mp3 ->].
      rewrite (convert_to_mp3_exit_zero _ _ _ _ _ Hwav Hrun). intros [= <- <-].
      exists buf, mp3. cbn [files].
      split; [reflexivity |]. split.
      { rewrite lookup_delete_ne, lookup_insert_eq by congruence. reflexivity. }
      split; [split; [reflexivity | assumption] |]. split; [apply lookup_delete_eq |].
      intros p Hp1 Hp2.
      rewrite lookup_delete_ne, !lookup_insert_ne by congruence. reflexivity.
    + rewrite (convert_to_mp3_exit_nonzero run _ w1 returncode output); [discriminate | | assumption].
      rewrite Hwav. assumption.
Qed.

Lemma make_sound_not_installed (buf : Np.array) (filename : string) (w : world) :
  wav_path_of filename <> mp3_path_of (wav_path_of filename) ->
  files w !! mp3_path_of (wav_path_of filename) = None ->
  make_sound NotInstalled (Ok buf) filename w
  = (Ok false,
     World (<[mp3_path_of (wav_path_of filename) := wav_bytes buf]>
              (delete (wav_path_of filename)
                 (<[wav_path_of filename := wav_bytes buf]> (files w))))
       ((stdout w ++ ["ffmpeg not found, keeping WAV files"])
        ++ ["Created: " +:+ mp3_path_of (wav_path_of filename) +:+ " (actually WAV)"])).
Proof.
  intros Hne Hdst.
  unfold make_sound, lift. unfold iobind at 1. unfold iobind at 1.
  rewrite save_wav_spec.
  rewrite (convert_to_mp3_not_installed _ _ (wav_bytes buf)); [reflexivity | |].
  - apply lookup_insert_eq.
  - cbn [files]. rewrite lookup_insert_ne by congruence. exact Hdst.
Qed.

Lemma make_sound_installed (run : option (list byte) -> Z * option (list byte))
    (buf : Np.array) (filename : string) (w : world) (mp3 : list byte) :
  run (Some (wav_bytes buf)) = (0, Some mp3) ->
  make_sound (Installed run) (Ok buf) filename w
  = (Ok true,
     World (delete (wav_path_of filename)
              (<[mp3_path_of (wav_path_of filename) := mp3]>
                 (<[wav_path_of filename := wav_bytes buf]> (files w))))
       (stdout w ++ ["Created: " +:+ mp3_path_of (wav_path_of filename)])).
Proof.
  intros Hrun. unfold make_sound, lift. unfold iobind at 1. unfold iobind at 1.
  rewrite save_wav_spec.
  rewrite (convert_to_mp3_exit_zero run _ _ (wav_bytes buf) mp3);
    [reflexivity | apply lookup_insert_eq | assumption].
Qed.

(** Exit status 0 without an output file: only the WAV file is removed. *)
Lemma make_sound_silent (run : option (list byte) -> Z * option (list byte))
    (buf : Np.array) (filename : string) (w : world) :
  run (Some (wav_bytes buf)) = (0, None) ->
  make_sound (Installed run) (Ok buf) filename w
  = (Ok true,
     World (delete (wav_path_of filename)
              (<[wav_path_of filename := wav_bytes buf]> (files w)))
       (stdout w ++ ["Created: " +:+ mp3_path_of (wav_path_of filename)])).
Proof.
  intros Hrun. unfold make_sound, lift. unfold iobind at 1. unfold iobind at 1.
  rewrite save_wav_spec.
  unfold convert_to_mp3, try_except, subprocess_run, iobind, os_remove, print, ioret.
  cbn [files stdout]. rewrite lookup_insert_eq, Hrun. cbn [Z.eqb files stdout].
  rewrite lookup_insert_eq. reflexivity.
Qed.

Lemma mp3_paths_of_main :
  mp3_path_of (wav_path_of "correct.mp3") = os_path_join OUTPUT_DIR "correct.mp3"
  /\ mp3_path_of (wav_path_of "incorrect.mp3") = os_path_join OUTPUT_DIR "incorrect.mp3"
  /\ mp3_path_of (wav_path_of "click.mp3") = os_path_join OUTPUT_DIR "click.mp3".
Proof. vm_compute. repeat split; reflexivity. Qed.

Lemma iobind_ok {A B : Type} (m : io A) (k : A -> io B) (w w' : world) (b : B) :
  iobind m k w = (Ok b, w') ->
  exists a w1, m w = (Ok a, w1) /\ k a w1 = (Ok b, w').
Proof.
  unfold iobind. destruct (m w) as [[a | e] w1]; [eauto | discriminate].
Qed.

(** ** The three sounds *)

Section Sounds.

Variable fsin : float -> float.

Lemma correct_ok :
  exists buf, correct fsin = Ok buf /\ length buf = Z.to_nat 15434.
Proof.
  apply (generate_tone_ok fsin _ _ _ _ 15434 441 4410);
    solve [discriminate | lia | vm_compute; reflexivity].
Qed.

Lemma incorrect_ok :
  exists buf, incorrect fsin = Ok buf /\ length buf = Z.to_nat 13230.
Proof.
  apply (generate_tone_ok fsin _ _ _ _ 13230 441 4410);
    solve [discriminate | lia | vm_compute; reflexivity].
Qed.

Lemma click_ok :
  exists buf, click fsin = Ok buf /\ length buf = Z.to_nat 3528.
Proof.
  apply (generate_tone_ok fsin _ _ _ _ 3528 220 1323);
    solve [discriminate | lia | vm_compute; reflexivity].
Qed.

(** A run that returned made its three sounds in order. *)
Lemma main_steps (enc : ffmpeg) (w w' : world) :
  main enc fsin w = (Ok tt, w') ->
  exists b1 w1 b2 w2 b3 w3,
    make_sound enc (correct fsin) "correct.mp3" w = (Ok b1, w1)
    /\ make_sound enc (incorrect fsin) "incorrect.mp3" w1 = (Ok b2, w2)
    /\ make_sound enc (click fsin) "click.mp3" w2 = (Ok b3, w3)
    /\ files w' = files w3.
Proof.
  intros H. unfold main in H.
  apply iobind_ok in H as ([] & w0 & [= <-] & H).
  apply iobind_ok in H as (b1 & w1 & H1 & H).
  apply iobind_ok in H as (b2 & w2 & H2 & H).
  apply iobind_ok in H as (b3 & w3 & H3 & H).
  injection H as <-. exists b1, w1, b2, w2, b3, w3. repeat split; assumption.
Qed.

(** Without the encoder the run returns when none of its three final files
    exists yet: each rename finds its new name free. *)
Lemma main_not_installed_returns (w : world) :
  outputs_absent w -> exists w', main NotInstalled fsin w = (Ok tt, w').
Proof.
  intros (A1 & A2 & A3).
  destruct correct_ok as (b1 & H1 & _), incorrect_ok as (b2 & H2 & _),
    click_ok as (b3 & H3 & _).
  destruct mp3_paths_of_main as (P1 & P2 & P3).
  unfold main, os_makedirs. unfold iobind at 1. unfold ioret at 1.
  rewrite H1. unfold iobind at 1.
  rewrite make_sound_not_installed; [| discriminate | rewrite P1; exact A1].
  rewrite H2. unfold iobind at 1.
  rewrite make_sound_not_installed; [| discriminate |].
  2: { cbn [files]. rewrite P1, P2.
       rewrite lookup_insert_ne, lookup_delete_ne, lookup_insert_ne by discriminate.
       exact A2. }
  rewrite H3. unfold iobind at 1.
  rewrite make_sound_not_installed; [| discriminate |].
  2: { cbn [files]. rewrite P1, P2, P3.
       rewrite lookup_insert_ne, lookup_delete_ne, lookup_insert_ne by discriminate.
       rewrite lookup_insert_ne, lookup_delete_ne, lookup_insert_ne by discriminate.
       exact A3. }
  eexists. reflexivity.
Qed.

(** With an encoder that succeeds on every input the run returns. *)
Lemma main_installed_returns
    (run : option (list byte) -> Z * option (list byte)) (w : world) :
  (forall data, exists mp3, run (Some data) = (0, Some mp3)) ->
  exists w', main (Installed run) fsin w = (Ok tt, w').
Proof.
  intros Hrun.
  destruct correct_ok as (b1 & H1 & _), incorrect_ok as (b2 & H2 & _),
    click_ok as (b3 & H3 & _).
  destruct (Hrun (wav_bytes b1)) as [m1 Hr1], (Hrun (wav_bytes b2)) as [m2 Hr2],
    (Hrun (wav_bytes b3)) as [m3 Hr3].
  unfold main, os_makedirs. unfold iobind at 1. unfold ioret at 1.
  rewrite H1. unfold iobind at 1. rewrite (make_sound_installed run b1 _ _ m1 Hr1).
  rewrite H2. unfold iobind at 1. rewrite (make_sound_installed run b2 _ _ m2 Hr2).
  rewrite H3. unfold iobind at 1. rewrite (make_sound_installed run b3 _ _ m3 Hr3).
  eexists. reflexivity.
Qed.

End Sounds.

(** ** The WAV container *)

Lemma length_tobytes (l : list Z) : length (tobytes l) = (2 * length l)%nat.
Proof.
  induction l as [| x l IH]; [reflexivity |].
  change (tobytes (x :: l)) with (le16 x ++ tobytes l).
  rewrite length_app, IH. simpl length. lia.
Qed.

Lemma length_wav_bytes (audio : Np.array) :
  Z.of_nat (length (wav_bytes audio)) = 44 + 2 * Z.of_nat (length audio).
Proof.
  unfold wav_bytes, wave_file.
  rewrite !length_app, length_tobytes. unfold quantize, Np.scale.
  rewrite !length_fmap. simpl length. lia.
Qed.

(** ** The run *)

(** The fallback files of a run without the encoder. *)
Lemma main_not_installed_files (fsin : float -> float) (w : world) :
  outputs_absent w ->
  exists w' buf1 buf2 buf3,
    main NotInstalled fsin w = (Ok tt, w')
    /\ correct fsin = Ok buf1 /\ incorrect fsin = Ok buf2 /\ click fsin = Ok buf3
    /\ files w' !! os_path_join OUTPUT_DIR "correct.mp3" = Some (wav_bytes buf1)
    /\ files w' !! os_path_join OUTPUT_DIR "incorrect.mp3" = Some (wav_bytes buf2)
    /\ files w' !! os_path_join OUTPUT_DIR "click.mp3" = Some (wav_bytes buf3).
Proof.
  intros Hw. destruct (main_not_installed_returns fsin w Hw) as [w' Hmain].
  destruct (main_steps fsin NotInstalled w w' Hmain)
    as (b1 & w1 & b2 & w2 & b3 & w3 & H1 & H2 & H3 & Hfiles).
  apply make_sound_inv in H1 as (buf1 & d1 & Ht1 & Hm1 & [_ ->] & _ & _);
    [| exact I | discriminate].
  apply make_sound_inv in H2 as (buf2 & d2 & Ht2 & Hm2 & [_ ->] & _ & Hf2);
    [| exact I | discriminate].
  apply make_sound_inv in H3 as (buf3 & d3 & Ht3 & Hm3 & [_ ->] & _ & Hf3);
    [| exact I | discriminate].
  exists w', buf1, buf2, buf3. rewrite Hfiles.
  split; [assumption |]. split; [assumption |]. split; [assumption |].
  split; [assumption |]. split.
  - rewrite !Hf3, !Hf2 by discriminate. exact Hm1.
  - split; [| exact Hm3]. rewrite !Hf3 by discriminate. exact Hm2.
Qed.

(** C3, as the code has it: an installed encoder that exits with a non-zero status
    makes [convert_to_mp3] raise [CalledProcessError] with that status
    ([check=True]); the handler for [FileNotFoundError] does not catch it, so
    the call does not return, prints nothing, and neither removes nor renames
    the WAV file. *)
Theorem convert_to_mp3_encoder_failure_raises
    (run : option (list byte) -> Z * option (list byte))
    (wav_path : string) (w : world) (returncode : Z) (output : option (list byte)) :
  run (files w !! wav_path) = (returncode, output) -> returncode <> 0 ->
  exists w',
    convert_to_mp3 (Installed run) wav_path w
    = (Raise (CalledProcessError returncode), w')
    /\ stdout w' = stdout w
    /\ forall p, p <> mp3_path_of wav_path -> files w' !! p = files w !! p.
Proof.
  intros Hrun Hcode. eexists. split.
  - apply (convert_to_mp3_exit_nonzero run wav_path w returncode output Hrun Hcode).
  - destruct output as [data |]; cbn [files stdout]; split; try reflexivity.
    intros p Hp. rewrite lookup_insert_ne by congruence. reflexivity.
Qed.

Lemma convert_to_mp3_encoder_failure_raises_witness :
  exists w',
    convert_to_mp3 (Installed (fun _ => (1, None))) "click.wav" click_world
    = (Raise (CalledProcessError 1), w')
    /\ stdout w' = stdout click_world
    /\ forall p, p <> mp3_path_of "click.wav" ->
                 files w' !! p = files click_world !! p.
Proof.
  apply (convert_to_mp3_encoder_failure_raises (fun _ => (1, None)) "click.wav"
           click_world 1 None).
  - reflexivity.
  - discriminate.
Defined.

(** C3, counterexample: with an encoder that exits with status 1 the call
    does not return at all. *)
Lemma convert_to_mp3_encoder_failure_does_not_return :
  ~ exists (b : bool) (w' : world),
      convert_to_mp3 (Installed (fun _ => (1, None))) "click.wav" click_world
      = (Ok b, w').
Proof.
  intros (b & w' & H).
  rewrite (convert_to_mp3_exit_nonzero _ _ _ 1 None) in H; [discriminate | reflexivity | discriminate].
Qed.




(** C8, as the code has it: after a run that returned, with an encoder that
    writes its output whenever it exits with status 0, each of the three
    sounds has its file [OUTPUT_DIR/name.mp3], holding either the encoder's
    output for the WAV bytes (encoder installed) or the WAV bytes themselves
    (encoder not installed), and the intermediate [OUTPUT_DIR/name.wav] does
    not exist. *)
Theorem one_file_per_sound (fsin : float -> float) (enc : ffmpeg) (w w' : world) :
  writes_output_on_success enc ->
  main enc fsin w = (Ok tt, w') ->
  Forall (fun '(filename, tone) =>
            exists buf data,
              tone = Ok buf
              /\ files w' !! os_path_join OUTPUT_DIR filename = Some data
              /\ match enc with
                 | NotInstalled => data = wav_bytes buf
                 | Installed run => run (Some (wav_bytes buf)) = (0, Some data)
                 end
              /\ files w' !! wav_path_of filename = None)
    [("correct.mp3", correct fsin); ("incorrect.mp3", incorrect fsin);
     ("click.mp3", click fsin)].
Proof.
  intros Henc Hmain.
  destruct (main_steps fsin enc w w' Hmain)
    as (b1 & w1 & b2 & w2 & b3 & w3 & H1 & H2 & H3 & ->).
  apply make_sound_inv in H1 as (buf1 & d1 & Ht1 & Hm1 & He1 & Hw1 & _);
    [| assumption | discriminate].
  apply make_sound_inv in H2 as (buf2 & d2 & Ht2 & Hm2 & He2 & Hw2 & Hf2);
    [| assumption | discriminate].
  apply make_sound_inv in H3 as (buf3 & d3 & Ht3 & Hm3 & He3 & Hw3 & Hf3);
    [| assumption | discriminate].
  constructor; [| constructor; [| constructor; [| constructor]]].
  - exists buf1, d1. split; [assumption |].
    rewrite !Hf3, !Hf2 by discriminate.
    split; [exact Hm1 |]. split; [destruct enc; tauto | exact Hw1].
  - exists buf2, d2. split; [assumption |].
    rewrite !Hf3 by discriminate.
    split; [exact Hm2 |]. split; [destruct enc; tauto | exact Hw2].
  - exists buf3, d3. split; [assumption |].
    split; [exact Hm3 |]. split; [destruct enc; tauto | exact Hw3].
Qed.

(** C4, as the code has it: without the encoder, and with none of the three
    final files there before, the run returns, and each fallback
    file has [44 + 2 * int(SAMPLE_RATE * duration)] bytes, the product and
    the truncation taken in binary64: 30912, 26504 and 7100 bytes. *)
Theorem fallback_file_sizes (fsin : float -> float) (w : world) :
  outputs_absent w ->
  exists w',
    main NotInstalled fsin w = (Ok tt, w')
    /\ Forall (fun '(filename, duration, size) =>
                 exists data samples,
                   files w' !! os_path_join OUTPUT_DIR filename = Some data
                   /\ sample_count duration = Ok samples
                   /\ Z.of_nat (length data) = 44 + 2 * samples
                   /\ Z.of_nat (length data) = size)
         [("correct.mp3", B64.of_decimal 35 2, 30912);
          ("incorrect.mp3", B64.of_decimal 3 1, 26504);
          ("click.mp3", B64.of_decimal 8 2, 7100)].
Proof.
  intros Hw.
  destruct (main_not_installed_files fsin w Hw)
    as (w' & b1 & b2 & b3 & Hmain & H1 & H2 & H3 & Hf1 & Hf2 & Hf3).
  destruct (correct_ok fsin) as (b1' & H1' & L1).
  destruct (incorrect_ok fsin) as (b2' & H2' & L2).
  destruct (click_ok fsin) as (b3' & H3' & L3).
  assert (b1' = b1) as -> by congruence.
  assert (b2' = b2) as -> by congruence.
  assert (b3' = b3) as -> by congruence.
  exists w'. split; [assumption |].
  constructor; [| constructor; [| constructor; [| constructor]]].
  - exists (wav_bytes b1), 15434. rewrite length_wav_bytes, L1.
    split; [assumption |]. split; [vm_compute; reflexivity |]. split; lia.
  - exists (wav_bytes b2), 13230. rewrite length_wav_bytes, L2.
    split; [assumption |]. split; [vm_compute; reflexivity |]. split; lia.
  - exists (wav_bytes b3), 3528. rewrite length_wav_bytes, L3.
    split; [assumption |]. split; [vm_compute; reflexivity |]. split; lia.
Qed.

Lemma outputs_absent_empty : outputs_absent (World ∅ []).
Proof. repeat split; apply lookup_empty. Qed.

Lemma fallback_file_sizes_witness :
  exists w',
    main NotInstalled sin_taylor (World ∅ []) = (Ok tt, w')
    /\ Forall (fun '(filename, duration, size) =>
                 exists data samples,
                   files w' !! os_path_join OUTPUT_DIR filename = Some data
                   /\ sample_count duration = Ok samples
                   /\ Z.of_nat (length data) = 44 + 2 * samples
                   /\ Z.of_nat (length data) = size)
         [("correct.mp3", B64.of_decimal 35 2, 30912);
          ("incorrect.mp3", B64.of_decimal 3 1, 26504);
          ("click.mp3", B64.of_decimal 8 2, 7100)].
Proof.
  apply (fallback_file_sizes sin_taylor (World ∅ [])).
  repeat split; apply lookup_empty.
Defined.

(** C4, counterexample, the first sound: [0.35 * 44100] is
    15434.999999999998 in binary64, so the buffer has 15434 samples and the
    file 30912 bytes, while [round(0.35 * 44100)] is 15435 and the stated
    size 30914. *)
Lemma correct_fallback_size_is_not_rounded :
  exists (w' : world) (data : list byte),
    main NotInstalled sin_taylor (World ∅ []) = (Ok tt, w')
    /\ files w' !! os_path_join OUTPUT_DIR "correct.mp3" = Some data
    /\ B64.py_round (B64.mul (B64.of_Z SAMPLE_RATE) (B64.of_decimal 35 2)) = Ok 15435
    /\ Z.of_nat (length data) <> 44 + 2 * 15435.
Proof.
  destruct (main_not_installed_files sin_taylor (World ∅ []) outputs_absent_empty)
    as (w' & b1 & b2 & b3 & Hmain & H1 & _ & _ & Hf1 & _).
  destruct (correct_ok sin_taylor) as (b1' & H1' & L1).
  assert (b1' = b1) as -> by congruence.
  exists w', (wav_bytes b1).
  split; [assumption |]. split; [assumption |].
  split; [vm_compute; reflexivity |].
  rewrite length_wav_bytes, L1. lia.
Qed.

Lemma one_file_per_sound_witness :
  Forall (fun '(filename, tone) =>
            exists buf data,
              tone = Ok buf
              /\ files (snd (main (Installed (fun _ => (0, Some []))) sin_taylor
                               click_world))
                   !! os_path_join OUTPUT_DIR filename = Some data
              /\ (0, Some []) = (0, Some data)
              /\ files (snd (main (Installed (fun _ => (0, Some []))) sin_taylor
                               click_world))
                   !! wav_path_of filename = None)
    [("correct.mp3", correct sin_taylor); ("incorrect.mp3", incorrect sin_taylor);
     ("click.mp3", click sin_taylor)].
Proof.
  apply (one_file_per_sound sin_taylor (Installed (fun _ => (0, Some [])))
           click_world
           (snd (main (Installed (fun _ => (0, Some []))) sin_taylor click_world))).
  - intros input output [= <-]. eexists. reflexivity.
  - destruct (main_installed_returns sin_taylor (fun _ => (0, Some [])) click_world)
      as [w' H].
    + intros data. eexists. reflexivity.
    + rewrite H. reflexivity.
Defined.

(** C8, counterexample: an encoder that exits with status 0 without writing
    its output.  The run returns, no error has aborted it, and for the first
    sound neither [correct.mp3] nor [correct.wav] exists. *)
Lemma silent_encoder_leaves_no_file :
  exists w',
    main (Installed (fun _ => (0, None))) sin_taylor (World ∅ []) = (Ok tt, w')
    /\ files w' !! os_path_join OUTPUT_DIR "correct.mp3" = None
    /\ files w' !! wav_path_of "correct.mp3" = None.
Proof.
  destruct (correct_ok sin_taylor) as (b1 & H1 & _),
    (incorrect_ok sin_taylor) as (b2 & H2 & _), (click_ok sin_taylor) as (b3 & H3 & _).
  unfold main, os_makedirs. unfold iobind at 1. unfold ioret at 1.
  rewrite H1. unfold iobind at 1.
  rewrite (make_sound_silent (fun _ => (0, None)) b1 _ _ eq_refl).
  rewrite H2. unfold iobind at 1.
  rewrite (make_sound_silent (fun _ => (0, None)) b2 _ _ eq_refl).
  rewrite H3. unfold iobind at 1.
  rewrite (make_sound_silent (fun _ => (0, None)) b3 _ _ eq_refl).
  eexists. split; [reflexivity |]. cbn [files]. split.
  - rewrite lookup_delete_ne, lookup_insert_ne by discriminate.
    rewrite lookup_delete_ne, lookup_insert_ne by discriminate.
    rewrite lookup_delete_ne, lookup_insert_ne by discriminate.
    apply lookup_empty.
  - rewrite lookup_delete_ne, lookup_insert_ne by discriminate.
    rewrite lookup_delete_ne, lookup_insert_ne by discriminate.
    apply lookup_delete_eq.
Qed.

(** ** Rounding in binary64 *)

(** Bounds on what the operations of [SpecFloat] return.  Values are
    compared exactly, as integers scaled to a common exponent ([vle]); on
    canonical mantissas this is the order [SFleb] decides.  The main facts:
    rounding never passes a representable bound ([binary_round_aux_le]),
    products keep exact bounds ([mul_in_range]), and the ramps of
    [np.linspace] between 0 and 1 stay between 0 and 1. *)

Module Rounding.
Import B64.

Lemma pow2_pos k : 0 < 2 ^ k \/ k < 0.
Proof. destruct (Z.lt_ge_cases k 0); [right; lia | left; apply Z.pow_pos_nonneg; lia]. Qed.

Lemma vle_scaled (k m1 e1 m2 e2 : Z) :
  k <= e1 -> k <= e2 ->
  vle m1 e1 m2 e2 <-> m1 * 2 ^ (e1 - k) <= m2 * 2 ^ (e2 - k).
Proof.
  intros H1 H2. unfold vle.
  set (j := Z.min e1 e2).
  assert (Hj : k <= j) by (subst j; lia).
  assert (Hp : 0 < 2 ^ (j - k)) by (apply Z.pow_pos_nonneg; lia).
  replace (e1 - k) with ((e1 - j) + (j - k)) by lia.
  replace (e2 - k) with ((e2 - j) + (j - k)) by lia.
  rewrite !Z.pow_add_r by (subst j; lia).
  rewrite !Z.mul_assoc. split; intros H; [nia | nia].
Qed.

(** *** Digits *)

Lemma digits2_pos_spec (p : positive) :
  2 ^ (Z.pos (digits2_pos p) - 1) <= Z.pos p < 2 ^ Z.pos (digits2_pos p).
Proof.
  induction p as [p IH | p IH |]; cbn [digits2_pos]; [| | simpl; lia].
  - rewrite Pos2Z.inj_succ. replace (Z.succ (Z.pos (digits2_pos p)) - 1) with (Z.succ (Z.pos (digits2_pos p) - 1)) by lia.
    rewrite !Z.pow_succ_r by lia. lia.
  - rewrite Pos2Z.inj_succ. replace (Z.succ (Z.pos (digits2_pos p)) - 1) with (Z.succ (Z.pos (digits2_pos p) - 1)) by lia.
    rewrite !Z.pow_succ_r by lia. lia.
Qed.

Lemma Zdigits2_log2 (m : Z) : 0 < m -> Zdigits2 m = Z.log2 m + 1.
Proof.
  intros Hm. destruct m as [| p | p]; try lia. cbn [Zdigits2].
  pose proof (digits2_pos_spec p) as H.
  assert (Z.log2 (Z.pos p) = Z.pos (digits2_pos p) - 1); [| lia].
  apply Z.log2_unique; [lia |].
  replace (Z.succ (Z.pos (digits2_pos p) - 1)) with (Z.pos (digits2_pos p)) by lia.
  exact H.
Qed.

(** *** Right shifts *)

Lemma shr_1_spec (mrs : shr_record) :
  0 <= shr_m mrs ->
  shr_m (shr_1 mrs) = shr_m mrs / 2
  /\ shr_r (shr_1 mrs) = Z.odd (shr_m mrs)
  /\ shr_s (shr_1 mrs) = shr_r mrs || shr_s mrs.
Proof.
  destruct mrs as [m r s]. cbn [shr_m shr_r shr_s]. intros Hm.
  destruct m as [| p | p]; [| | lia].
  - repeat split.
  - destruct p as [p | p |]; cbn [shr_1 shr_m shr_r shr_s].
    + repeat split. rewrite Pos2Z.inj_xI. apply Z.div_unique with 1; lia.
    + repeat split. rewrite Pos2Z.inj_xO. apply Z.div_unique with 0; lia.
    + repeat split.
Qed.

Lemma shr_inv_step (m k : Z) (mrs : shr_record) :
  0 <= m -> 0 <= k ->
  shr_inv m k mrs -> shr_inv m (k + 1) (shr_1 mrs).
Proof.
  intros Hm Hk [Hq Hflags].
  assert (Hp : 0 < 2 ^ k) by (apply Z.pow_pos_nonneg; lia).
  assert (Hq0 : 0 <= shr_m mrs) by (rewrite Hq; apply Z.div_pos; lia).
  destruct (shr_1_spec mrs Hq0) as (H1 & H2 & H3).
  unfold shr_inv. rewrite Z.pow_add_r, Z.pow_1_r by lia.
  split.
  - rewrite H1, Hq. rewrite Z.div_div by lia. reflexivity.
  - intros Hmod. rewrite H2, H3.
    assert (Hdiv : m = 2 ^ k * 2 * (m / (2 ^ k * 2))).
    { pose proof (Z.div_mod m (2 ^ k * 2)). lia. }
    assert (Hk0 : m mod 2 ^ k = 0).
    { rewrite Hdiv. rewrite <- Z.mul_assoc, Z.mul_comm. apply Z.mod_mul. lia. }
    destruct (Hflags Hk0) as [-> ->]. split; [| reflexivity].
    rewrite Hq. rewrite Hdiv at 1.
    rewrite <- Z.mul_assoc, Z.mul_comm, Z.div_mul by lia.
    rewrite Z.odd_mul. reflexivity.
Qed.

Lemma iter_pos_shr_inv (m : Z) (p : positive) :
  0 <= m ->
  forall (k : Z) (mrs : shr_record),
    0 <= k -> shr_inv m k mrs ->
    shr_inv m (k + Z.pos p) (SpecFloat.iter_pos shr_1 p mrs).
Proof.
  intros Hm. induction p as [p IH | p IH |]; intros k mrs Hk H; cbn [SpecFloat.iter_pos].
  - replace (k + Z.pos p~1) with (((k + 1) + Z.pos p) + Z.pos p) by lia.
    apply IH; [lia |]. apply IH; [lia |]. apply shr_inv_step; assumption.
  - replace (k + Z.pos p~0) with ((k + Z.pos p) + Z.pos p) by lia.
    apply IH; [lia |]. apply IH; assumption.
  - apply shr_inv_step; assumption.
Qed.

Lemma loc_of_shr_record_of_loc (m : Z) (l : location) :
  loc_of_shr_record (shr_record_of_loc m l) = l.
Proof. destruct l as [| []]; reflexivity. Qed.

Lemma shr_m_shr_record_of_loc (m : Z) (l : location) :
  shr_m (shr_record_of_loc m l) = m.
Proof. destruct l as [| []]; reflexivity. Qed.

Lemma iter_pos_shr_m (p : positive) :
  forall mrs : shr_record,
    0 <= shr_m mrs ->
    shr_m (SpecFloat.iter_pos shr_1 p mrs) = shr_m mrs / 2 ^ Z.pos p.
Proof.
  assert (Hstep : forall mrs, 0 <= shr_m mrs ->
            shr_m (shr_1 mrs) = shr_m mrs / 2 ^ 1 /\ 0 <= shr_m (shr_1 mrs)).
  { intros mrs H. destruct (shr_1_spec mrs H) as (-> & _).
    rewrite Z.pow_1_r. split; [reflexivity | apply Z.div_pos; lia]. }
  assert (Hnn : forall a k, 0 <= a -> 0 <= a / 2 ^ Z.pos k).
  { intros a k Ha. apply Z.div_pos; [assumption | apply Z.pow_pos_nonneg; lia]. }
  induction p as [p IH | p IH |]; intros mrs H; cbn [SpecFloat.iter_pos].
  - destruct (Hstep mrs H) as [H1 H1'].
    rewrite IH by (rewrite IH by assumption; apply Hnn; assumption).
    rewrite IH by assumption. rewrite H1.
    repeat (rewrite Z.div_div by (first [apply Z.pow_pos_nonneg; lia | apply Z.pow_nonzero; lia]);
            rewrite <- Z.pow_add_r by lia).
    f_equal. f_equal. lia.
  - rewrite IH by (rewrite IH by assumption; apply Hnn; assumption).
    rewrite IH by assumption.
    repeat (rewrite Z.div_div by (first [apply Z.pow_pos_nonneg; lia | apply Z.pow_nonzero; lia]);
            rewrite <- Z.pow_add_r by lia).
    f_equal. f_equal. lia.
  - apply Hstep, H.
Qed.

(** A right shift by [n] places (none when [n <= 0]). *)
Lemma shr_spec (m e n : Z) (l : location) :
  0 <= m ->
  exists mrs,
    shr (shr_record_of_loc m l) e n = (mrs, e + Z.max n 0)
    /\ shr_m mrs = m / 2 ^ Z.max n 0
    /\ (l = loc_Exact -> m mod 2 ^ Z.max n 0 = 0 ->
        loc_of_shr_record mrs = loc_Exact).
Proof.
  intros Hm. destruct (Z.le_gt_cases n 0) as [Hn | Hn].
  - exists (shr_record_of_loc m l).
    replace (Z.max n 0) with 0 by lia.
    rewrite Z.add_0_r, Z.pow_0_r, Z.div_1_r, shr_m_shr_record_of_loc.
    split; [destruct n; try reflexivity; lia |]. split; [reflexivity |].
    intros -> _. reflexivity.
  - destruct n as [| p | p]; try lia. cbn [shr].
    eexists; split; [replace (Z.max (Z.pos p) 0) with (Z.pos p) by lia; reflexivity |].
    replace (Z.max (Z.pos p) 0) with (Z.pos p) by lia.
    split.
    + rewrite iter_pos_shr_m; rewrite shr_m_shr_record_of_loc; [reflexivity | assumption].
    + intros -> Hmod.
      destruct (iter_pos_shr_inv m p Hm 0 (Build_shr_record m false false)) as [Hq Hf].
      * lia.
      * split; cbn [shr_m shr_r shr_s]; [rewrite Z.pow_0_r, Z.div_1_r; reflexivity | auto].
      * rewrite Z.add_0_l in Hf. destruct (Hf Hmod) as [Hr Hs].
        cbn [shr_record_of_loc].
        destruct (SpecFloat.iter_pos shr_1 p _) as [m' r s]. cbn in Hr, Hs. subst. reflexivity.
Qed.

Ltac unfold_fexp := unfold fexp, emin, prec, emax in *.

Lemma log2_mul_pow2 (m a : Z) : 0 < m -> 0 <= a -> Z.log2 (m * 2 ^ a) = Z.log2 m + a.
Proof. intros Hm Ha. rewrite Z.log2_mul_pow2 by lia. lia. Qed.

Lemma vle_log2 (m1 e1 m2 e2 : Z) :
  0 < m1 -> 0 < m2 -> vle m1 e1 m2 e2 -> Z.log2 m1 + e1 <= Z.log2 m2 + e2.
Proof.
  intros H1 H2 H. unfold vle in H.
  set (k := Z.min e1 e2) in *.
  assert (Ha : 0 <= e1 - k) by (subst k; lia).
  assert (Hb : 0 <= e2 - k) by (subst k; lia).
  apply Z.log2_le_mono in H.
  rewrite !log2_mul_pow2 in H by lia. lia.
Qed.

Lemma log2_div_pow2 (m n : Z) :
  0 <= n -> 0 < m / 2 ^ n -> Z.log2 (m / 2 ^ n) = Z.log2 m - n.
Proof.
  intros Hn Hq.
  assert (Hp : 0 < 2 ^ n) by (apply Z.pow_pos_nonneg; lia).
  assert (Hm : 2 ^ n <= m).
  { destruct (Z.lt_ge_cases m (2 ^ n)) as [Hlt | Hge]; [| assumption].
    destruct (Z.lt_ge_cases m 0) as [Hneg | Hpos].
    - pose proof (Z.div_lt_upper_bound m (2 ^ n) 0 Hp). lia.
    - rewrite Z.div_small in Hq by lia. lia. }
  rewrite <- Z.shiftr_div_pow2 by lia.
  rewrite Z.log2_shiftr by lia.
  assert (n <= Z.log2 m) by (apply Z.log2_le_pow2; lia).
  lia.
Qed.

Lemma round_nearest_even_range (mx : Z) (l : location) :
  mx <= round_nearest_even mx l <= mx + 1.
Proof.
  destruct l as [| []]; cbn [round_nearest_even]; try lia.
  destruct (Z.even mx); lia.
Qed.

Lemma fexp_mono (a b : Z) : a <= b -> fexp prec emax a <= fexp prec emax b.
Proof. intros H. unfold_fexp. lia. Qed.

Lemma vle_weaken (m1 m1' e1 m2 e2 : Z) :
  m1 <= m1' -> vle m1' e1 m2 e2 -> vle m1 e1 m2 e2.
Proof.
  intros H. unfold vle.
  assert (0 <= 2 ^ (e1 - Z.min e1 e2)) by (apply Z.pow_nonneg; lia). nia.
Qed.

(** Rounding a value located at or after [m * 2^e] never passes a
    representable value that bounds it; it gives zero only when the whole
    mantissa is shifted out. *)
Lemma binary_round_aux_le (s : bool) (m e : Z) (l : location) (mc ec : Z) :
  0 < m -> 0 < mc ->
  e <= fexp prec emax (Zdigits2 m + e) ->
  fexp prec emax (Zdigits2 mc + ec) = ec -> ec <= emax - prec ->
  (l = loc_Exact /\ vle m e mc ec) \/ vle (m + 1) e mc ec ->
  (binary_round_aux prec emax s m e l = S754_zero s
   /\ m < 2 ^ (fexp prec emax (Zdigits2 m + e) - e))
  \/ exists m2 e2,
       binary_round_aux prec emax s m e l = S754_finite s m2 e2
       /\ bounded prec emax m2 e2 = true
       /\ vle (Z.pos m2) e2 mc ec.
Proof.
  intros Hm Hmc Hn Hcan Hec Hbound.
  assert (Hle : vle m e mc ec).
  { destruct Hbound as [[_ H] | H]; [exact H |].
    apply (vle_weaken m (m + 1)); [lia | exact H]. }
  unfold binary_round_aux, shr_fexp.
  set (e1 := fexp prec emax (Zdigits2 m + e)) in *.
  destruct (shr_spec m e (e1 - e) l) as (mrs1 & -> & Hq1 & Hex1); [lia |].
  replace (Z.max (e1 - e) 0) with (e1 - e) in * by lia.
  replace (e + (e1 - e)) with e1 by lia.
  set (m1 := round_nearest_even (shr_m mrs1) (loc_of_shr_record mrs1)).
  assert (Hp : 0 < 2 ^ (e1 - e)) by (apply Z.pow_pos_nonneg; lia).
  assert (Hr : m / 2 ^ (e1 - e) <= m1 <= m / 2 ^ (e1 - e) + 1).
  { pose proof (round_nearest_even_range (shr_m mrs1) (loc_of_shr_record mrs1)) as Hr.
    fold m1 in Hr. rewrite Hq1 in Hr. exact Hr. }
  assert (Hq0 : 0 <= m / 2 ^ (e1 - e)) by (apply Z.div_pos; lia).
  assert (He1 : e1 <= ec).
  { rewrite <- Hcan. subst e1. apply fexp_mono.
    rewrite !Zdigits2_log2 by assumption.
    pose proof (vle_log2 _ _ _ _ Hm Hmc Hle). lia. }
  set (K := mc * 2 ^ (ec - e1)).
  assert (Hscale : forall x, vle x e mc ec -> x <= K * 2 ^ (e1 - e)).
  { intros x Hx. apply (vle_scaled e) in Hx; [| lia | lia].
    rewrite Z.sub_diag, Z.pow_0_r, Z.mul_1_r in Hx.
    subst K. rewrite <- Z.mul_assoc, <- Z.pow_add_r by lia.
    replace (ec - e1 + (e1 - e)) with (ec - e) by lia. exact Hx. }
  assert (Hm1K : m1 <= K).
  { destruct Hbound as [[-> Hex] | Hin].
    - apply Hscale in Hex.
      assert (Hq : m / 2 ^ (e1 - e) <= K).
      { apply Z.div_le_upper_bound; [assumption | lia]. }
      destruct (Z.eq_dec (m / 2 ^ (e1 - e)) K) as [Heq | Hne]; [| lia].
      assert (Hmod : m mod 2 ^ (e1 - e) = 0).
      { pose proof (Z.div_mod m (2 ^ (e1 - e))).
        pose proof (Z.mod_pos_bound m (2 ^ (e1 - e)) Hp). nia. }
      subst m1. rewrite (Hex1 eq_refl Hmod). cbn [round_nearest_even]. rewrite Hq1. lia.
    - apply Hscale in Hin.
      assert (Hq : m / 2 ^ (e1 - e) < K).
      { apply Z.div_lt_upper_bound; [assumption | lia]. }
      lia. }
  assert (Hm1 : 0 <= m1) by lia.
  set (e2 := fexp prec emax (Zdigits2 m1 + e1)).
  destruct (shr_spec m1 e1 (e2 - e1) loc_Exact Hm1) as (mrs2 & -> & Hq2 & _).
  assert (Hsmall : m / 2 ^ (e1 - e) = 0 -> m < 2 ^ (e1 - e)).
  { intros Hz. destruct (Z.lt_ge_cases m (2 ^ (e1 - e))) as [| Hge]; [assumption |].
    pose proof (Z.div_le_lower_bound m (2 ^ (e1 - e)) 1 Hp). lia. }
  destruct (Z.eq_dec m1 0) as [Hz | Hnz].
  { left. split; [| apply Hsmall; lia].
    rewrite Hq2, Hz, Z.div_0_l; [reflexivity |].
    apply Z.pow_nonzero; lia. }
  assert (Hm1pos : 0 < m1) by lia.
  assert (Hle1 : vle m1 e1 mc ec).
  { apply (vle_scaled e1); [lia | lia |].
    rewrite Z.sub_diag, Z.pow_0_r, Z.mul_1_r. exact Hm1K. }
  assert (Hdig : m / 2 ^ (e1 - e) <> 0 -> Zdigits2 m + e <= Zdigits2 m1 + e1).
  { intros Hq0'. assert (Hqpos : 0 < m / 2 ^ (e1 - e)) by lia.
    pose proof (log2_div_pow2 m (e1 - e) ltac:(lia) Hqpos) as Hlog.
    assert (Hmono : Z.log2 (m / 2 ^ (e1 - e)) <= Z.log2 m1)
      by (apply Z.log2_le_mono; lia).
    rewrite !Zdigits2_log2 by assumption. lia. }
  assert (He2 : e1 <= e2).
  { subst e2. destruct (Z.eq_dec (m / 2 ^ (e1 - e)) 0) as [Hq0' | Hq0'].
    - assert (e1 = emin prec emax); [| unfold_fexp; lia].
      pose proof (Hsmall Hq0') as Hlt.
      assert (Hlog : Z.log2 m < e1 - e) by (apply Z.log2_lt_pow2; lia).
      subst e1. rewrite Zdigits2_log2 in * by assumption. unfold_fexp. lia.
    - transitivity (fexp prec emax (Zdigits2 m + e)); [subst e1; lia |].
      apply fexp_mono. apply Hdig, Hq0'. }
  replace (Z.max (e2 - e1) 0) with (e2 - e1) in * by lia.
  replace (e1 + (e2 - e1)) with e2 by lia.
  assert (Hp2 : 0 < 2 ^ (e2 - e1)) by (apply Z.pow_pos_nonneg; lia).
  assert (He2c : e2 <= ec).
  { rewrite <- Hcan. subst e2. apply fexp_mono.
    rewrite !Zdigits2_log2 by assumption.
    pose proof (vle_log2 _ _ _ _ Hm1pos Hmc Hle1). lia. }
  rewrite Hq2.
  destruct (m1 / 2 ^ (e2 - e1)) as [| p | p] eqn:Hq.
  - left. split; [reflexivity |].
    destruct (Z.eq_dec (m / 2 ^ (e1 - e)) 0) as [Hq0' | Hq0']; [apply Hsmall, Hq0' |].
    exfalso.
    (* a non-zero first quotient is never shifted out by the second shift *)
    assert (Hlt : m1 < 2 ^ (e2 - e1)).
    { destruct (Z.lt_ge_cases m1 (2 ^ (e2 - e1))) as [| Hge]; [assumption |].
      pose proof (Z.div_le_lower_bound m1 (2 ^ (e2 - e1)) 1 Hp2). lia. }
    assert (Hlog : Z.log2 m1 < e2 - e1) by (apply Z.log2_lt_pow2; lia).
    pose proof (Hdig Hq0') as Hd.
    pose proof (Z.log2_nonneg m1).
    subst e2 e1. rewrite !Zdigits2_log2 in * by assumption. unfold_fexp. lia.
  - right. exists p, e2.
    destruct (Z.leb_spec e2 (emax - prec)) as [_ | Hbad]; [| lia].
    split; [reflexivity |]. split.
    + unfold bounded, canonical_mantissa.
      apply andb_true_intro. split; [| apply Z.leb_le; lia].
      apply Z.eqb_eq.
      change (Z.pos (digits2_pos p)) with (Zdigits2 (Z.pos p)).
      rewrite Zdigits2_log2 by lia. rewrite <- Hq.
      rewrite log2_div_pow2 by lia.
      subst e2. rewrite Zdigits2_log2 by assumption.
      f_equal. lia.
    + apply (vle_scaled e1); [lia | lia |].
      assert (Z.pos p * 2 ^ (e2 - e1) <= m1).
      { rewrite <- Hq. rewrite Z.mul_comm. apply Z.mul_div_le. assumption. }
      apply (vle_scaled e1) in Hle1; [| lia | lia].
      rewrite Z.sub_diag, Z.pow_0_r, Z.mul_1_r in Hle1. lia.
  - pose proof (Z.div_pos m1 (2 ^ (e2 - e1))). lia.
Qed.

Lemma vle_trans (m1 e1 m2 e2 m3 e3 : Z) :
  vle m1 e1 m2 e2 -> vle m2 e2 m3 e3 -> vle m1 e1 m3 e3.
Proof.
  intros H12 H23.
  set (k := Z.min e1 (Z.min e2 e3)).
  apply (vle_scaled k) in H12; [| subst k; lia | subst k; lia].
  apply (vle_scaled k) in H23; [| subst k; lia | subst k; lia].
  apply (vle_scaled k); [subst k; lia | subst k; lia | lia].
Qed.

Lemma vle_mul (m1 e1 m2 e2 m3 e3 m4 e4 : Z) :
  0 <= m1 -> 0 <= m3 ->
  vle m1 e1 m2 e2 -> vle m3 e3 m4 e4 ->
  vle (m1 * m3) (e1 + e3) (m2 * m4) (e2 + e4).
Proof.
  intros H1 H3 H12 H34. unfold vle in H12, H34.
  set (k := Z.min e1 e2) in *. set (j := Z.min e3 e4) in *.
  apply (vle_scaled (k + j)); [subst k j; lia | subst k j; lia |].
  replace (e1 + e3 - (k + j)) with ((e1 - k) + (e3 - j)) by lia.
  replace (e2 + e4 - (k + j)) with ((e2 - k) + (e4 - j)) by lia.
  rewrite !Z.pow_add_r by (subst k j; lia).
  assert (0 <= 2 ^ (e1 - k)) by (apply Z.pow_nonneg; lia).
  assert (0 <= 2 ^ (e3 - j)) by (apply Z.pow_nonneg; lia).
  nia.
Qed.

(** *** Canonical mantissas *)

Lemma bounded_inv (m : positive) (e : Z) :
  bounded prec emax m e = true ->
  fexp prec emax (Zdigits2 (Z.pos m) + e) = e
  /\ e <= emax - prec.
Proof.
  unfold bounded, canonical_mantissa. intros H.
  apply andb_prop in H as [H1 H2].
  apply Z.eqb_eq in H1. apply Z.leb_le in H2. split; assumption.
Qed.

(** On canonical positive numbers the comparison of [SpecFloat] is the
    order of the values. *)
Lemma SFleb_vle (m1 : positive) (e1 : Z) (m2 : positive) (e2 : Z) :
  bounded prec emax m1 e1 = true -> bounded prec emax m2 e2 = true ->
  SFleb (S754_finite false m1 e1) (S754_finite false m2 e2) = true
  <-> vle (Z.pos m1) e1 (Z.pos m2) e2.
Proof.
  intros [Hc1 _]%bounded_inv [Hc2 _]%bounded_inv.
  rewrite Zdigits2_log2 in Hc1, Hc2 by lia.
  pose proof (Z.log2_spec (Z.pos m1) ltac:(lia)) as Hl1.
  pose proof (Z.log2_spec (Z.pos m2) ltac:(lia)) as Hl2.
  pose proof (Z.log2_nonneg (Z.pos m1)) as Hn1.
  pose proof (Z.log2_nonneg (Z.pos m2)) as Hn2.
  unfold SFleb, SFcompare.
  destruct (Z.compare_spec e1 e2) as [-> | Hlt | Hgt].
  - rewrite Pos.compare_cont_spec. cbn [Pos.switch_Eq].
    unfold vle. rewrite Z.min_id, Z.sub_diag, Z.pow_0_r, !Z.mul_1_r.
    destruct (Pos.compare_spec m1 m2); split; intros; try reflexivity; try discriminate; lia.
  - split; [intros _ | reflexivity].
    apply (vle_scaled e1); [lia | lia |].
    rewrite Z.sub_diag, Z.pow_0_r, Z.mul_1_r.
    assert (Hpow : 2 ^ 1 <= 2 ^ (e2 - e1)) by (apply Z.pow_le_mono_r; lia).
    assert (Hm1 : Z.pos m1 < 2 ^ 53).
    { eapply Z.lt_le_trans; [apply Hl1 |]. apply Z.pow_le_mono_r; unfold_fexp; lia. }
    assert (Hm2 : 2 ^ 52 <= Z.pos m2).
    { eapply Z.le_trans; [| apply Hl2]. apply Z.pow_le_mono_r; unfold_fexp; lia. }
    change (2 ^ 53) with (2 ^ 52 * 2) in Hm1. change (2 ^ 1) with 2 in Hpow. nia.
  - split; [discriminate | intros Hv]. exfalso.
    apply (vle_scaled e2) in Hv; [| lia | lia].
    rewrite Z.sub_diag, Z.pow_0_r, Z.mul_1_r in Hv.
    assert (Hpow : 2 ^ 1 <= 2 ^ (e1 - e2)) by (apply Z.pow_le_mono_r; lia).
    assert (Hm2 : Z.pos m2 < 2 ^ 53).
    { eapply Z.lt_le_trans; [apply Hl2 |]. apply Z.pow_le_mono_r; unfold_fexp; lia. }
    assert (Hm1 : 2 ^ 52 <= Z.pos m1).
    { eapply Z.le_trans; [| apply Hl1]. apply Z.pow_le_mono_r; unfold_fexp; lia. }
    change (2 ^ 53) with (2 ^ 52 * 2) in Hm2. change (2 ^ 1) with 2 in Hpow. nia.
Qed.

(** The product of two canonical mantissas is never shifted left by the
    rounding. *)
Lemma mul_no_left_shift (mx : positive) (ex : Z) (my : positive) (ey : Z) :
  bounded prec emax mx ex = true -> bounded prec emax my ey = true ->
  ex + ey <= fexp prec emax (Zdigits2 (Z.pos (mx * my)) + (ex + ey)).
Proof.
  intros [Hc1 _]%bounded_inv [Hc2 _]%bounded_inv.
  rewrite Zdigits2_log2 in * by lia.
  pose proof (Z.log2_mul_below (Z.pos mx) (Z.pos my) ltac:(lia) ltac:(lia)) as Hlog.
  pose proof (Z.log2_nonneg (Z.pos mx)). pose proof (Z.log2_nonneg (Z.pos my)).
  rewrite Pos2Z.inj_mul. unfold_fexp. lia.
Qed.

Lemma in_range_zero (c : float) (s : bool) :
  (exists mc ec, c = S754_finite false mc ec) -> in_range c (S754_zero s) = true.
Proof. intros (mc & ec & ->). reflexivity. Qed.

Lemma in_range_finite_inv (mc : positive) (ec : Z) (x : float) :
  bounded prec emax mc ec = true ->
  in_range (S754_finite false mc ec) x = true ->
  (exists s, x = S754_zero s)
  \/ exists s m e, x = S754_finite s m e /\ bounded prec emax m e = true
                   /\ vle (Z.pos m) e (Z.pos mc) ec.
Proof.
  intros Hc H. unfold in_range, valid, leb, abs in H. apply andb_prop in H as [Hv Hle].
  destruct x as [s | s | | s m e]; try discriminate.
  - left. eauto.
  - right. exists s, m, e. split; [reflexivity |]. split; [exact Hv |].
    apply SFleb_vle; assumption.
Qed.

(** Multiplication keeps magnitudes within exact bounds. *)
Lemma mul_in_range (a b c x y : float) :
  exact_mul_leb a b c = true ->
  in_range a x = true -> in_range b y = true ->
  in_range c (mul x y) = true.
Proof.
  intros Habc Hx Hy.
  destruct a as [| | | [] ma ea]; try discriminate.
  destruct b as [| | | [] mb eb]; try discriminate.
  destruct c as [| | | [] mc ec]; try discriminate.
  cbn [exact_mul_leb] in Habc.
  apply andb_prop in Habc as [Hv Hle]. apply andb_prop in Hv as [Hv Hvc].
  apply andb_prop in Hv as [Hva Hvb]. apply Z.leb_le in Hle.
  change (vle (Z.pos (ma * mb)) (ea + eb) (Z.pos mc) ec) in Hle.
  destruct (in_range_finite_inv ma ea x Hva Hx) as [[sx ->] | (sx & mx & ex & -> & Hbx & Hlx)];
    destruct (in_range_finite_inv mb eb y Hvb Hy) as [[sy ->] | (sy & my & ey & -> & Hby & Hly)];
    try (apply in_range_zero; eauto).
  unfold mul. cbn [SFmul].
  assert (Hprod : vle (Z.pos (mx * my)) (ex + ey) (Z.pos mc) ec).
  { eapply vle_trans; [| exact Hle]. rewrite !Pos2Z.inj_mul.
    apply vle_mul; try lia; assumption. }
  destruct (bounded_inv mc ec Hvc) as [Hcan Hec].
  destruct (binary_round_aux_le (xorb sx sy) (Z.pos (mx * my)) (ex + ey) loc_Exact
              (Z.pos mc) ec)
    as [[-> _] | (m2 & e2 & -> & Hb2 & Hl2)]; try lia; try assumption.
  - apply mul_no_left_shift; assumption.
  - left. split; [reflexivity | exact Hprod].
  - reflexivity.
  - unfold in_range, valid, leb, abs. cbn [valid_binary SFabs]. rewrite Hb2. cbn [andb].
    apply SFleb_vle; assumption.
Qed.

(** A canonical mantissa is not changed by rounding. *)
Lemma binary_round_aux_canonical (s : bool) (m : positive) (e : Z) :
  bounded prec emax m e = true ->
  binary_round_aux prec emax s (Z.pos m) e loc_Exact = S754_finite s m e.
Proof.
  intros Hb. destruct (bounded_inv m e Hb) as [Hcan Hle].
  unfold binary_round_aux, shr_fexp.
  rewrite Hcan, Z.sub_diag.
  cbn [shr shr_record_of_loc shr_m loc_of_shr_record round_nearest_even].
  rewrite Hcan, Z.sub_diag. cbn [shr shr_record_of_loc shr_m].
  destruct (Z.leb_spec e (emax - prec)); [reflexivity | lia].
Qed.

Lemma pos_iter_xO (m d : positive) :
  Z.pos (Pos.iter xO m d) = Z.pos m * 2 ^ Z.pos d.
Proof.
  induction d as [| d IH] using Pos.peano_ind.
  - cbn [Pos.iter]. lia.
  - rewrite Pos.iter_succ, Pos2Z.inj_xO, IH, Pos2Z.inj_succ, Z.pow_succ_r by lia. lia.
Qed.

(** [shl_align] lowers the exponent to [ex'] when that is below [ex], and
    keeps the value. *)
Lemma shl_align_spec (mx : positive) (ex ex' : Z) :
  exists mz,
    shl_align mx ex ex' = (mz, Z.min ex ex')
    /\ Z.pos mz = Z.pos mx * 2 ^ (ex - Z.min ex ex').
Proof.
  unfold shl_align. destruct (ex' - ex) as [| d | d] eqn:Hd.
  - exists mx. replace (Z.min ex ex') with ex by lia.
    rewrite Z.sub_diag, Z.pow_0_r. split; [reflexivity | lia].
  - exists mx. replace (Z.min ex ex') with ex by lia.
    rewrite Z.sub_diag, Z.pow_0_r. split; [reflexivity | lia].
  - exists (Pos.iter xO mx d). replace (Z.min ex ex') with ex' by lia.
    split; [reflexivity |]. rewrite pos_iter_xO. f_equal. f_equal. lia.
Qed.

(** [binary_round] first aligns, so its rounding never shifts left. *)
Lemma binary_round_le (s : bool) (m : positive) (e mc ec : Z) :
  0 < mc ->
  fexp prec emax (Zdigits2 mc + ec) = ec -> ec <= emax - prec ->
  vle (Z.pos m) e mc ec ->
  binary_round prec emax s m e = S754_zero s
  \/ exists m2 e2,
       binary_round prec emax s m e = S754_finite s m2 e2
       /\ bounded prec emax m2 e2 = true
       /\ vle (Z.pos m2) e2 mc ec.
Proof.
  intros Hmc Hcan Hec Hle. unfold binary_round.
  set (e' := fexp prec emax (Z.pos (digits2_pos m) + e)).
  destruct (shl_align_spec m e e') as (mz & -> & Hmz).
  assert (Hp : 0 < 2 ^ (e - Z.min e e')) by (apply Z.pow_pos_nonneg; lia).
  assert (Hlog : Z.log2 (Z.pos mz) = Z.log2 (Z.pos m) + (e - Z.min e e')).
  { rewrite Hmz. apply log2_mul_pow2; lia. }
  assert (He'c : e' <= ec).
  { rewrite <- Hcan. subst e'. apply fexp_mono.
    change (Z.pos (digits2_pos m)) with (Zdigits2 (Z.pos m)).
    rewrite !Zdigits2_log2 by lia.
    pose proof (vle_log2 _ _ _ _ (Pos2Z.is_pos m) Hmc Hle). lia. }
  destruct (binary_round_aux_le s (Z.pos mz) (Z.min e e') loc_Exact mc ec)
    as [[-> _] | H]; try lia; try assumption.
  - rewrite Zdigits2_log2, Hlog by lia.
    replace (Z.log2 (Z.pos m) + (e - Z.min e e') + 1 + Z.min e e')
      with (Zdigits2 (Z.pos m) + e) by (rewrite Zdigits2_log2 by lia; lia).
    change (fexp prec emax (Zdigits2 (Z.pos m) + e)) with e'. lia.
  - left. split; [reflexivity |].
    apply (vle_scaled (Z.min e e')) in Hle; [| lia | lia].
    apply (vle_scaled (Z.min e e')); [lia | lia |].
    rewrite Z.sub_diag, Z.pow_0_r, Z.mul_1_r, Hmz. exact Hle.
  - left. reflexivity.
  - right. exact H.
Qed.

(** Integers below [2^53] convert exactly. *)
Lemma of_Z_exact (j : Z) :
  0 < j < 2 ^ 53 ->
  exists m e,
    of_Z j = S754_finite false m e
    /\ bounded prec emax m e = true
    /\ e <= 0 /\ Z.pos m = j * 2 ^ (- e).
Proof.
  intros Hj. destruct j as [| p | p]; try lia.
  unfold of_Z, binary_normalize, binary_round.
  set (e' := fexp prec emax (Z.pos (digits2_pos p) + 0)).
  assert (Hlog : Z.log2 (Z.pos p) < 53) by (apply Z.log2_lt_pow2; lia).
  pose proof (Z.log2_nonneg (Z.pos p)) as Hnn.
  assert (He' : e' = Z.log2 (Z.pos p) - 52).
  { subst e'. change (Z.pos (digits2_pos p)) with (Zdigits2 (Z.pos p)).
    rewrite Zdigits2_log2 by lia. unfold_fexp. lia. }
  destruct (shl_align_spec p 0 e') as (mz & -> & Hmz).
  replace (Z.min 0 e') with e' in * by lia.
  assert (Hb : bounded prec emax mz e' = true).
  { unfold bounded, canonical_mantissa. apply andb_true_intro. split.
    - apply Z.eqb_eq. change (Z.pos (digits2_pos mz)) with (Zdigits2 (Z.pos mz)).
      rewrite Zdigits2_log2 by lia. rewrite Hmz, log2_mul_pow2 by lia.
      unfold_fexp. lia.
    - apply Z.leb_le. unfold_fexp. lia. }
  rewrite (binary_round_aux_canonical false mz e' Hb).
  exists mz, e'. split; [reflexivity |]. split; [exact Hb |].
  split; [lia |]. rewrite Hmz. reflexivity.
Qed.

Lemma vle_mul_l (k m1 e1 m2 e2 : Z) :
  0 <= k -> vle m1 e1 m2 e2 -> vle (k * m1) e1 (k * m2) e2.
Proof.
  intros Hk H. unfold vle in *. rewrite <- !Z.mul_assoc.
  apply Z.mul_le_mono_nonneg_l; assumption.
Qed.

(** *** Division of one by a sample count *)

Lemma new_location_exact (nb_steps : Z) : new_location nb_steps 0 = loc_Exact.
Proof. unfold new_location. destruct (Z.even nb_steps); reflexivity. Qed.

Lemma div_eucl_div_mod (a b : Z) : Z.div_eucl a b = (a / b, a mod b).
Proof. unfold Z.div, Z.modulo. destruct (Z.div_eucl a b); reflexivity. Qed.

(** The integer division that [SFdiv] performs for [1 / (m2 * 2^e2)] with a
    53-bit mantissa [m2]. *)
Lemma SFdiv_core_one (m2 : positive) (e2 : Z) :
  Z.log2 (Z.pos m2) = 52 -> -52 <= e2 <= 0 ->
  SFdiv_core_binary prec emax (Z.pos 4503599627370496) (-52) (Z.pos m2) e2
  = (2 ^ 105 / Z.pos m2, -105 - e2, new_location (Z.pos m2) (2 ^ 105 mod Z.pos m2)).
Proof.
  intros Hlog He2. unfold SFdiv_core_binary.
  change (Zdigits2 (Z.pos 4503599627370496)) with 53.
  rewrite Zdigits2_log2, Hlog by lia.
  replace (Z.min (fexp prec emax (53 + -52 - (52 + 1 + e2))) (-52 - e2))
    with (-105 - e2) by (unfold_fexp; lia).
  replace (-52 - e2 - (-105 - e2)) with 53 by lia.
  cbv zeta. change (Z.shiftl (Z.pos 4503599627370496) 53) with (2 ^ 105).
  rewrite div_eucl_div_mod. reflexivity.
Qed.

(** A mantissa between [2^52] and [2^53] names a representable value. *)
Lemma canonical_rep (Q e : Z) :
  2 ^ 52 <= Q <= 2 ^ 53 -> emin prec emax <= e -> e + 1 <= emax - prec ->
  exists mc ec,
    fexp prec emax (Zdigits2 (Z.pos mc) + ec) = ec /\ ec <= emax - prec
    /\ vle Q e (Z.pos mc) ec /\ vle (Z.pos mc) ec Q e.
Proof.
  intros HQ He1 He2. destruct (Z.eq_dec Q (2 ^ 53)) as [-> | Hne].
  - exists 4503599627370496%positive, (e + 1).
    split; [cbn [Zdigits2 digits2_pos Pos.succ]; unfold_fexp; lia |].
    split; [lia |].
    split; apply (vle_scaled e); try lia;
      replace (e + 1 - e) with 1 by lia; rewrite Z.sub_diag; simpl; lia.
  - destruct Q as [| q | q]; try lia. exists q, e.
    assert (Hlog : Z.log2 (Z.pos q) = 52).
    { apply Z.log2_unique; [lia |]. change (Z.succ 52) with 53. lia. }
    split; [rewrite Zdigits2_log2, Hlog by lia; unfold_fexp; lia |].
    split; [lia |].
    split; unfold vle; lia.
Qed.

(** The step of a unit grid of [n] intervals, [1 / n] rounded: [n - 1] steps
    do not pass 1. *)
Lemma unit_step (sd : bool) (n : Z) :
  1 <= n < 2 ^ 52 ->
  exists ms es,
    div (S754_finite sd 4503599627370496 (-52)) (of_Z n) = S754_finite sd ms es
    /\ bounded prec emax ms es = true
    /\ vle ((n - 1) * Z.pos ms) es 1 0.
Proof.
  intros Hn.
  destruct (of_Z_exact n) as (m2 & e2 & -> & Hb2 & He2 & Hm2); [lia |].
  destruct (bounded_inv m2 e2 Hb2) as [Hcan2 _].
  assert (Hp2 : 0 < 2 ^ (- e2)) by (apply Z.pow_pos_nonneg; lia).
  assert (Hlogn : 0 <= Z.log2 n < 52).
  { split; [apply Z.log2_nonneg | apply Z.log2_lt_pow2; lia]. }
  assert (Hlog2 : Z.log2 (Z.pos m2) = Z.log2 n - e2).
  { rewrite Hm2. rewrite log2_mul_pow2 by lia. lia. }
  rewrite Zdigits2_log2, Hlog2 in Hcan2 by lia.
  assert (He2' : e2 = Z.log2 n - 52) by (unfold_fexp; lia).
  assert (Hlog : Z.log2 (Z.pos m2) = 52) by lia.
  pose proof (Z.log2_spec (Z.pos m2) (Pos2Z.is_pos m2)) as Hspec.
  rewrite Hlog in Hspec. change (Z.succ 52) with 53 in Hspec.
  unfold div. cbn [SFdiv]. rewrite (SFdiv_core_one m2 e2 Hlog) by lia.
  set (q := 2 ^ 105 / Z.pos m2). set (r := 2 ^ 105 mod Z.pos m2).
  pose proof (Z.div_mod (2 ^ 105) (Z.pos m2) ltac:(lia)) as Hdm.
  pose proof (Z.mod_pos_bound (2 ^ 105) (Z.pos m2) (Pos2Z.is_pos m2)) as Hr.
  fold q r in Hdm, Hr.
  assert (Hq : 2 ^ 52 <= q <= 2 ^ 53).
  { subst q. split.
    - apply Z.div_le_lower_bound; [lia |].
      change (2 ^ 105) with (2 ^ 53 * 2 ^ 52). nia.
    - apply Z.div_le_upper_bound; [lia |].
      change (2 ^ 105) with (2 ^ 52 * 2 ^ 53). nia. }
  set (Q := if Z.eq_dec r 0 then q else q + 1).
  assert (HQ : 2 ^ 52 <= Q <= 2 ^ 53).
  { subst Q. destruct (Z.eq_dec r 0); [lia |].
    assert (q < 2 ^ 53); [| lia].
    destruct (Z.lt_ge_cases q (2 ^ 53)) as [| Hge]; [assumption | exfalso].
    assert (2 ^ 52 * 2 ^ 53 <= Z.pos m2 * q) by nia.
    change (2 ^ 105) with (2 ^ 52 * 2 ^ 53) in Hdm. lia. }
  destruct (canonical_rep Q (-105 - e2) HQ) as (mc & ec & Hcanc & Hecc & HQc & HcQ);
    [unfold_fexp; lia | unfold_fexp; lia |].
  assert (Hlq : Z.log2 q = 52 \/ Z.log2 q = 53).
  { assert (52 <= Z.log2 q) by (apply Z.log2_le_pow2; lia).
    assert (Z.log2 q < 54) by (apply Z.log2_lt_pow2; simpl; lia). lia. }
  destruct (binary_round_aux_le (xorb sd false) q (-105 - e2)
              (new_location (Z.pos m2) r) (Z.pos mc) ec)
    as [[_ Hzero] | (ms & es & Hres & Hbs & Hles)]; try lia; try assumption.
  - rewrite Zdigits2_log2 by lia. unfold_fexp. lia.
  - subst Q. destruct (Z.eq_dec r 0) as [Hr0 | Hr0].
    + left. rewrite Hr0. split; [apply new_location_exact | exact HQc].
    + right. exact HQc.
  - exfalso. rewrite Zdigits2_log2 in Hzero by lia.
    assert (Hsh : fexp prec emax (Z.log2 q + 1 + (-105 - e2)) - (-105 - e2) <= 1)
      by (unfold_fexp; lia).
    assert (2 ^ (fexp prec emax (Z.log2 q + 1 + (-105 - e2)) - (-105 - e2)) <= 2 ^ 1)
      by (apply Z.pow_le_mono_r; lia).
    simpl in *. lia.
  - exists ms, es. rewrite xorb_false_r in Hres |- *. split; [exact Hres |].
    split; [exact Hbs |].
    pose proof (vle_trans _ _ _ _ _ _ Hles HcQ) as HsQ.
    apply (vle_trans _ _ ((n - 1) * Q) (-105 - e2)).
    + apply vle_mul_l; [lia | exact HsQ].
    + apply (vle_scaled (-105 - e2)); [lia | lia |].
      rewrite Z.sub_diag, Z.pow_0_r, Z.mul_1_r, Z.mul_1_l.
      replace (0 - (-105 - e2)) with (105 + e2) by lia.
      assert (HnQ : (n - 1) * Q <= n * q).
      { subst Q. destruct (Z.eq_dec r 0); nia. }
      assert (Hnq : n * q * 2 ^ (- e2) <= 2 ^ (105 + e2) * 2 ^ (- e2)).
      { rewrite <- Z.pow_add_r by lia. replace (105 + e2 + - e2) with 105 by lia.
        nia. }
      nia.
Qed.

(** *** The unit ramps of the fades *)

Lemma in_range_one_finite (s : bool) (m : positive) (e : Z) :
  bounded prec emax m e = true ->
  vle (Z.pos m) e (Z.pos 4503599627370496) (-52) ->
  in_range one (S754_finite s m e) = true.
Proof.
  intros Hb Hle. unfold in_range, valid, leb, abs.
  cbn [valid_binary SFabs]. rewrite Hb. cbn [andb].
  change one with (S754_finite false 4503599627370496 (-52)).
  apply SFleb_vle; [assumption | reflexivity | assumption].
Qed.

(** [i] steps of a unit grid with [n >= i + 1] intervals stay within 1. *)
Lemma ramp_product (sd : bool) (n i : Z) (ms : positive) (es : Z) :
  bounded prec emax ms es = true ->
  vle ((n - 1) * Z.pos ms) es 1 0 ->
  0 <= i <= n - 1 -> i < 2 ^ 53 ->
  (exists s, mul (of_Z i) (S754_finite sd ms es) = S754_zero s)
  \/ exists mz ez,
       mul (of_Z i) (S754_finite sd ms es) = S754_finite sd mz ez
       /\ bounded prec emax mz ez = true
       /\ vle (Z.pos mz) ez (Z.pos 4503599627370496) (-52).
Proof.
  intros Hbs Hstep Hi Hi53.
  destruct (Z.eq_dec i 0) as [-> | Hi0].
  { left. exists sd. reflexivity. }
  destruct (of_Z_exact i) as (mi & ei & -> & Hbi & Hei & Hmi); [lia |].
  unfold mul. cbn [SFmul xorb].
  assert (Hp : 0 < 2 ^ (- ei)) by (apply Z.pow_pos_nonneg; lia).
  assert (Hle : vle (Z.pos (mi * ms)) (ei + es) (Z.pos 4503599627370496) (-52)).
  { apply (vle_trans _ _ ((n - 1) * Z.pos ms) es).
    - apply (vle_scaled (ei + es)); [lia | lia |].
      rewrite Z.sub_diag, Z.pow_0_r, Z.mul_1_r.
      replace (es - (ei + es)) with (- ei) by lia.
      rewrite Pos2Z.inj_mul, Hmi. nia.
    - eapply vle_trans; [exact Hstep |]. unfold vle. apply Z.leb_le. vm_compute. reflexivity. }
  destruct (binary_round_aux_le sd (Z.pos (mi * ms)) (ei + es) loc_Exact
              (Z.pos 4503599627370496) (-52))
    as [[-> _] | (mz & ez & -> & Hbz & Hlz)]; try lia.
  - apply mul_no_left_shift; assumption.
  - reflexivity.
  - unfold_fexp. lia.
  - left. split; [reflexivity | exact Hle].
  - left. eauto.
  - right. eauto.
Qed.

(** [1 - z] for [0 < z <= 1] stays within [0, 1]. *)
Lemma add_one_neg (mz : positive) (ez : Z) :
  bounded prec emax mz ez = true ->
  vle (Z.pos mz) ez (Z.pos 4503599627370496) (-52) ->
  in_range one (add (S754_finite true mz ez) one) = true.
Proof.
  intros Hb Hle.
  change one with (S754_finite false 4503599627370496 (-52)) at 2.
  unfold add. cbn [SFadd].
  set (e0 := Z.min ez (-52)).
  destruct (shl_align_spec mz ez e0) as (mz' & -> & Hmz').
  destruct (shl_align_spec 4503599627370496 (-52) e0) as (m1' & -> & Hm1').
  cbn [fst cond_Zopp].
  replace (Z.min ez e0) with e0 in * by (subst e0; lia).
  replace (Z.min (-52) e0) with e0 in * by (subst e0; lia).
  unfold vle in Hle. fold e0 in Hle.
  rewrite <- Hmz', <- Hm1' in Hle.
  destruct (- Z.pos mz' + Z.pos m1') as [| p | p] eqn:Hsum; try lia.
  - reflexivity.
  - cbn [binary_normalize].
    destruct (binary_round_le false p e0 (Z.pos 4503599627370496) (-52))
      as [-> | (m2 & e2 & -> & Hb2 & Hl2)]; try lia.
    + reflexivity.
    + unfold_fexp. lia.
    + apply (vle_scaled e0); [subst e0; lia | subst e0; lia |].
      rewrite Z.sub_diag, Z.pow_0_r, Z.mul_1_r. lia.
    + reflexivity.
    + apply in_range_one_finite; assumption.
Qed.

Lemma Ok_inj {A : Type} (a b : A) : Ok a = Ok b -> a = b.
Proof. intros [= H]. exact H. Qed.

Lemma Some_inj {A : Type} (a b : A) : Some a = Some b -> a = b.
Proof. intros [= H]. exact H. Qed.

Lemma one_eq : one = S754_finite false 4503599627370496 (-52).
Proof. vm_compute. reflexivity. Qed.

Lemma mul_zero_one : mul zero one = zero.
Proof. vm_compute. reflexivity. Qed.

Lemma mul_one_one : mul one one = one.
Proof. vm_compute. reflexivity. Qed.

Lemma sub_one_zero : sub one zero = one.
Proof. vm_compute. reflexivity. Qed.

Lemma sub_zero_one : sub zero one = S754_finite true 4503599627370496 (-52).
Proof. vm_compute. reflexivity. Qed.

Lemma lookup_arange (k : Z) (i : nat) (v : float) :
  Np.arange k !! i = Some v -> v = of_Z (Z.of_nat i) /\ Z.of_nat i < k.
Proof.
  unfold Np.arange. rewrite list_lookup_fmap.
  destruct (seqZ 0 k !! i) as [j |] eqn:Hj; [| discriminate].
  apply lookup_seqZ in Hj as [-> Hlt]. intros [= <-].
  split; [f_equal; lia | lia].
Qed.

(** The fade-in ramp [np.linspace(0, 1, k)] lies within [0, 1]. *)
Lemma ramp_up_in_range (k : Z) (ramp : Np.array) :
  k < 2 ^ 52 ->
  Np.linspace zero one k true = Ok ramp ->
  Forall (fun v => in_range one v = true) ramp.
Proof.
  intros Hk H. unfold Np.linspace in H.
  destruct (Z.ltb_spec k 0) as [| Hk0]; [discriminate |].
  apply Ok_inj in H. subst ramp. cbv zeta. cbn [andb].
  rewrite mul_zero_one, mul_one_one, sub_one_zero.
  destruct (Z.ltb_spec 0 (k - 1)) as [Hdiv | Hdiv].
  - destruct (unit_step false (k - 1)) as (ms & es & Hstep & Hbs & Hle); [lia |].
    rewrite one_eq, !Hstep, <- one_eq.
    change (eqb (S754_finite false ms es) zero) with false. cbv iota.
    destruct (Z.ltb_spec 1 k); [| lia].
    apply Forall_lookup. intros i x Hx. unfold Np.set_last in Hx.
    rewrite !length_fmap, length_arange in Hx.
    destruct (decide (i = pred (Z.to_nat k))) as [-> | Hne].
    + rewrite list_lookup_insert_eq in Hx
        by (rewrite !length_fmap, length_arange; lia).
      apply Some_inj in Hx. subst x. vm_compute. reflexivity.
    + rewrite list_lookup_insert_ne in Hx by congruence.
      rewrite !list_lookup_fmap in Hx.
      destruct (Np.arange k !! i) as [v |] eqn:Hv; [| discriminate].
      apply lookup_arange in Hv as [-> Hik].
      cbn [fmap option_fmap option_map] in Hx. apply Some_inj in Hx. subst x.
      destruct (ramp_product false (k - 1) (Z.of_nat i) ms es Hbs Hle)
        as [[s ->] | (mz & ez & -> & Hbz & Hlz)]; try lia.
      * destruct s; reflexivity.
      * cbn [add SFadd]. apply in_range_one_finite; assumption.
  - destruct (Z.ltb_spec 1 k); [lia |].
    apply Forall_lookup. intros i x Hx. rewrite !list_lookup_fmap in Hx.
    destruct (Np.arange k !! i) as [v |] eqn:Hv; [| discriminate].
    apply lookup_arange in Hv as [-> Hik].
    cbn [fmap option_fmap option_map] in Hx. apply Some_inj in Hx. subst x.
    replace (Z.of_nat i) with 0 by lia. vm_compute. reflexivity.
Qed.

(** The fade-out ramp [np.linspace(1, 0, k)] lies within [0, 1]. *)
Lemma ramp_down_in_range (k : Z) (ramp : Np.array) :
  k < 2 ^ 52 ->
  Np.linspace one zero k true = Ok ramp ->
  Forall (fun v => in_range one v = true) ramp.
Proof.
  intros Hk H. unfold Np.linspace in H.
  destruct (Z.ltb_spec k 0) as [| Hk0]; [discriminate |].
  apply Ok_inj in H. subst ramp. cbv zeta. cbn [andb].
  rewrite mul_zero_one, mul_one_one, sub_zero_one.
  destruct (Z.ltb_spec 0 (k - 1)) as [Hdiv | Hdiv].
  - destruct (unit_step true (k - 1)) as (ms & es & Hstep & Hbs & Hle); [lia |].
    rewrite Hstep. change (eqb (S754_finite true ms es) zero) with false. cbv iota.
    destruct (Z.ltb_spec 1 k); [| lia].
    apply Forall_lookup. intros i x Hx. unfold Np.set_last in Hx.
    rewrite !length_fmap, length_arange in Hx.
    destruct (decide (i = pred (Z.to_nat k))) as [-> | Hne].
    + rewrite list_lookup_insert_eq in Hx
        by (rewrite !length_fmap, length_arange; lia).
      apply Some_inj in Hx. subst x. vm_compute. reflexivity.
    + rewrite list_lookup_insert_ne in Hx by congruence.
      rewrite !list_lookup_fmap in Hx.
      destruct (Np.arange k !! i) as [v |] eqn:Hv; [| discriminate].
      apply lookup_arange in Hv as [-> Hik].
      cbn [fmap option_fmap option_map] in Hx. apply Some_inj in Hx. subst x.
      destruct (ramp_product true (k - 1) (Z.of_nat i) ms es Hbs Hle)
        as [[s ->] | (mz & ez & -> & Hbz & Hlz)]; try lia.
      * destruct s; reflexivity.
      * apply add_one_neg; assumption.
  - destruct (Z.ltb_spec 1 k); [lia |].
    apply Forall_lookup. intros i x Hx. rewrite !list_lookup_fmap in Hx.
    destruct (Np.arange k !! i) as [v |] eqn:Hv; [| discriminate].
    apply lookup_arange in Hv as [-> Hik].
    cbn [fmap option_fmap option_map] in Hx. apply Some_inj in Hx. subst x.
    replace (Z.of_nat i) with 0 by lia. vm_compute. reflexivity.
Qed.

End Rounding.

(** ** Quantization *)

Lemma trunc_mag_scaled (m : positive) (e k : Z) :
  k <= e -> k <= 0 ->
  B64.trunc_mag m e = (Z.pos m * 2 ^ (e - k)) / 2 ^ (- k).
Proof.
  intros Hke Hk0.
  assert (Hp : 0 < 2 ^ (- k)) by (apply Z.pow_pos_nonneg; lia).
  unfold B64.trunc_mag. destruct e as [| p | p].
  - rewrite Z.sub_0_l, Z.div_mul by lia. reflexivity.
  - replace (Z.pos p - k) with (Z.pos p + - k) by lia.
    rewrite Z.pow_add_r, Z.mul_assoc, Z.div_mul by lia. reflexivity.
  - replace (- k) with ((Z.neg p - k) + Z.pos p) by lia.
    rewrite Z.pow_add_r by lia.
    assert (0 < 2 ^ (Z.neg p - k)) by (apply Z.pow_pos_nonneg; lia).
    assert (0 < 2 ^ Z.pos p) by (apply Z.pow_pos_nonneg; lia).
    rewrite (Z.mul_comm (2 ^ (Z.neg p - k))), Z.div_mul_cancel_r by lia.
    reflexivity.
Qed.

Lemma trunc_mag_mono (m1 : positive) (e1 : Z) (m2 : positive) (e2 : Z) :
  B64.vle (Z.pos m1) e1 (Z.pos m2) e2 ->
  B64.trunc_mag m1 e1 <= B64.trunc_mag m2 e2.
Proof.
  intros H. set (k := Z.min 0 (Z.min e1 e2)).
  rewrite (trunc_mag_scaled m1 e1 k), (trunc_mag_scaled m2 e2 k) by (subst k; lia).
  apply Z.div_le_mono; [apply Z.pow_pos_nonneg; subst k; lia |].
  apply (Rounding.vle_scaled k); [subst k; lia | subst k; lia | exact H].
Qed.

Lemma trunc_mag_nonneg (m : positive) (e : Z) : 0 <= B64.trunc_mag m e.
Proof.
  unfold B64.trunc_mag. destruct e; try lia. apply Z.div_pos; lia.
Qed.

Lemma int16_wrap_small (z : Z) : -32768 <= z < 32768 -> int16_wrap z = z.
Proof. intros H. unfold int16_wrap. rewrite Z.mod_small by lia. lia. Qed.

(** One sample of the expected range. *)
Lemma to_int16_amplitude (s : float) :
  B64.in_range amplitude s = true ->
  exists t r,
    to_int16 (B64.mul s (B64.of_Z 32767)) = t
    /\ B64.py_int (B64.mul s (B64.of_Z 32767)) = Ok t
    /\ B64.py_round (B64.mul s (B64.of_Z 32767)) = Ok r
    /\ Z.abs t <= 22936
    /\ Z.abs (t - r) <= 1 /\ Z.abs t <= Z.abs r.
Proof.
  intros Hs.
  assert (Hy : B64.in_range (B64.of_decimal 229369 1)
                 (B64.mul s (B64.of_Z 32767)) = true).
  { apply (Rounding.mul_in_range amplitude (B64.of_Z 32767));
      [vm_compute; reflexivity | exact Hs | vm_compute; reflexivity]. }
  set (y := B64.mul s (B64.of_Z 32767)) in *.
  assert (Hint : exists t, B64.py_int y = Ok t /\ to_int16 y = t /\ Z.abs t <= 22936).
  { change (B64.of_decimal 229369 1)
      with (S754_finite false 6304847063783834 (-38)) in Hy.
    apply Rounding.in_range_finite_inv in Hy; [| vm_compute; reflexivity].
    destruct Hy as [[sy ->] | (sy & m & e & -> & _ & Hle)].
    - exists 0. repeat split; lia.
    - apply trunc_mag_mono in Hle.
      change (B64.trunc_mag 6304847063783834 (-38)) with 22936 in Hle.
      pose proof (trunc_mag_nonneg m e) as H0.
      exists (B64.signed sy (B64.trunc_mag m e)). cbn [B64.py_int to_int16].
      split; [reflexivity |].
      split; [apply int16_wrap_small; destruct sy; simpl; lia |].
      destruct sy; simpl; lia. }
  destruct Hint as (t & Ht & Hq & Hbound).
  destruct (py_round_near_py_int y t Ht) as (r & Hr & Hnear & Habs).
  exists t, r. repeat split; assumption.
Qed.

(** C1, as the code has it: in a buffer whose samples are of the expected
    range, [|s| <= 0.7], every sample [s] is quantized to [s * 32767]
    truncated toward zero (the product taken in binary64): the result lies
    in [-22936, 22936], so nothing wraps, and it is [round(s * 32767)] or
    the integer next to it toward zero. *)
Theorem quantize_truncates (audio : Np.array) :
  Forall (fun s => B64.in_range amplitude s = true) audio ->
  Forall2 (fun s t =>
             B64.py_int (B64.mul s (B64.of_Z 32767)) = Ok t
             /\ Z.abs t <= 22936
             /\ exists r,
                  B64.py_round (B64.mul s (B64.of_Z 32767)) = Ok r
                  /\ Z.abs (t - r) <= 1 /\ Z.abs t <= Z.abs r)
    audio (quantize audio).
Proof.
  intros H. unfold quantize, Np.scale.
  induction H as [| s audio Hs _ IH]; [constructor |].
  cbn [fmap list_fmap]. constructor; [| exact IH].
  destruct (to_int16_amplitude s Hs) as (t & r & -> & Hint & Hr & Hb & Hnear & Habs).
  split; [exact Hint |]. split; [exact Hb |].
  exists r. repeat split; assumption.
Qed.

Lemma quantize_truncates_witness :
  Forall2 (fun s t =>
             B64.py_int (B64.mul s (B64.of_Z 32767)) = Ok t
             /\ Z.abs t <= 22936
             /\ exists r,
                  B64.py_round (B64.mul s (B64.of_Z 32767)) = Ok r
                  /\ Z.abs (t - r) <= 1 /\ Z.abs t <= Z.abs r)
    [amplitude; B64.zero; SFopp amplitude; B64.of_decimal 35 2]
    (quantize [amplitude; B64.zero; SFopp amplitude; B64.of_decimal 35 2]).
Proof.
  apply (quantize_truncates
           [amplitude; B64.zero; SFopp amplitude; B64.of_decimal 35 2]).
  repeat constructor.
Defined.

(** C1, counterexample at [s = 0.7]: [0.7 * 32767] is 22936.899999999998 in
    binary64, [np.int16] gives 22936, and rounding to nearest gives 22937. *)
Lemma quantize_is_not_round :
  B64.in_range amplitude amplitude = true
  /\ quantize [amplitude] = [22936]
  /\ B64.py_round (B64.mul amplitude (B64.of_Z 32767)) = Ok 22937
  /\ quantize [amplitude] <> [22937].
Proof. vm_compute. repeat split; discriminate. Qed.

(** ** Amplitude *)

Lemma Forall_zip_with_closed {A B : Type} (P : A -> Prop) (Q : B -> Prop)
    (f : A -> B -> A) (l : list A) (k : list B) :
  (forall x y, P x -> Q y -> P (f x y)) ->
  Forall P l -> Forall Q k -> Forall P (zip_with f l k).
Proof.
  intros Hf Hl. revert k. induction Hl as [| x l Hx Hl IH]; intros k Hk.
  - constructor.
  - destruct Hk as [| y k Hy Hk]; [constructor |].
    cbn [zip_with]. constructor; [apply Hf; assumption | apply IH; assumption].
Qed.

Lemma broadcast_to_Forall (Q : float -> Prop) (n : nat) (v v' : Np.array) :
  Np.broadcast_to n v = Ok v' -> Forall Q v -> Forall Q v'.
Proof.
  unfold Np.broadcast_to. destruct (decide (length v = n)).
  - intros [= <-] H. exact H.
  - destruct v as [| x [| ? ?]]; try discriminate.
    intros [= <-] H. apply Forall_replicate. apply Forall_inv in H. exact H.
Qed.

(** An in-place update of a slice keeps a property of the items that the
    update preserves. *)
Lemma update_slice_Forall (P Q : float -> Prop) (f : float -> float -> float)
    (a : Np.array) (start stop : option Z) (v a' : Np.array) :
  (forall x y, P x -> Q y -> P (f x y)) ->
  Forall P a -> Forall Q v ->
  Np.update_slice f a start stop v = Ok a' -> Forall P a'.
Proof.
  intros Hf Ha Hv. unfold Np.update_slice.
  destruct (Np.slice_bounds _ start stop) as [lo hi].
  intros H. apply rbind_ok in H as (v' & Hb & [= <-]).
  apply (broadcast_to_Forall Q) in Hb; [| assumption].
  apply Forall_app. split; [apply Forall_take, Ha |].
  apply Forall_app. split; [| apply Forall_drop, Ha].
  apply (Forall_zip_with_closed P Q); [assumption | | assumption].
  apply Forall_take, Forall_drop, Ha.
Qed.

Lemma mul_unit (x y : float) :
  B64.in_range B64.one x = true -> B64.in_range B64.one y = true ->
  B64.in_range B64.one (B64.mul x y) = true.
Proof. apply Rounding.mul_in_range. vm_compute. reflexivity. Qed.

Lemma mul_amplitude (x : float) :
  B64.in_range B64.one x = true ->
  B64.in_range amplitude (B64.mul x amplitude) = true.
Proof.
  intros Hx.
  apply (Rounding.mul_in_range B64.one amplitude amplitude);
    [vm_compute; reflexivity | exact Hx | vm_compute; reflexivity].
Qed.

Lemma update_slice_rhs_length (f : float -> float -> float)
    (a : Np.array) (start stop : option Z) (v a' : Np.array) :
  Np.update_slice f a start stop v = Ok a' ->
  (length v <= length a \/ length v = 1)%nat.
Proof.
  unfold Np.update_slice.
  destruct (Np.slice_bounds _ start stop) as [lo hi] eqn:Hb.
  apply slice_bounds_range in Hb; [| lia].
  intros H. apply rbind_ok in H as (v' & Hv & _).
  unfold Np.broadcast_to in Hv.
  destruct (decide (length v = Z.to_nat (hi - lo))) as [-> | _]; [left; lia |].
  destruct v as [| x [| ? ?]]; try discriminate. right. reflexivity.
Qed.

(** The fades and the final scale keep a buffer within [-1, 1] within
    [-0.7, 0.7]. *)
Lemma scaled_fades_in_range (audio : Np.array) (fade_in fade_out : float)
    (audio' : Np.array) :
  Z.of_nat (length audio) < 2 ^ 52 ->
  Forall (fun v => B64.in_range B64.one v = true) audio ->
  apply_fades audio fade_in fade_out = Ok audio' ->
  Forall (fun s => B64.in_range amplitude s = true) (Np.scale audio' amplitude).
Proof.
  intros Hlen Ha H. unfold apply_fades in H.
  apply rbind_ok in H as (ki & Hki & H).
  apply rbind_ok in H as (ko & Hko & H).
  apply rbind_ok in H as (ramp_in & Hri & H).
  apply rbind_ok in H as (a1 & H1 & H).
  apply rbind_ok in H as (ramp_out & Hro & H2).
  pose proof (update_slice_length _ _ _ _ _ _ H1) as Hlen1.
  pose proof (update_slice_rhs_length _ _ _ _ _ _ H1) as Hrhs1.
  pose proof (update_slice_rhs_length _ _ _ _ _ _ H2) as Hrhs2.
  destruct (linspace_inv _ _ _ _ _ Hri) as [Hki0 Hlri].
  destruct (linspace_inv _ _ _ _ _ Hro) as [Hko0 Hlro].
  assert (H252 : 1 < 2 ^ 52) by reflexivity.
  assert (Ha1 : Forall (fun v => B64.in_range B64.one v = true) a1).
  { apply (update_slice_Forall _ (fun v => B64.in_range B64.one v = true)
             B64.mul audio None (Some ki) ramp_in a1);
      [apply mul_unit | exact Ha | | exact H1].
    apply (Rounding.ramp_up_in_range ki); [lia | exact Hri]. }
  assert (Ha2 : Forall (fun v => B64.in_range B64.one v = true) audio').
  { apply (update_slice_Forall _ (fun v => B64.in_range B64.one v = true)
             B64.mul a1 (Some (- ko)) None ramp_out audio');
      [apply mul_unit | exact Ha1 | | exact H2].
    apply (Rounding.ramp_down_in_range ko); [lia | exact Hro]. }
  unfold Np.scale. apply Forall_fmap.
  eapply Forall_impl; [exact Ha2 |]. intros x Hx. apply mul_amplitude, Hx.
Qed.

Lemma forallb_Forall {A : Type} (f : A -> bool) (l : list A) :
  forallb f l = true -> Forall (fun x => f x = true) l.
Proof.
  induction l as [| x l IH]; [constructor |].
  cbn [forallb]. intros [Hx Hl]%andb_prop. constructor; [exact Hx | apply IH, Hl].
Qed.

(** C9, as the code has it: when the values of the generated wave (the
    sines) lie in [-1, 1], every sample of the buffer that [generate_tone]
    returns is a valid binary64 number of magnitude at most 0.7, for any
    buffer of fewer than 2^52 samples: the fade ramps lie in [0, 1], a
    binary64 product of numbers within [-1, 1] stays within [-1, 1], and the
    final product by 0.7 stays within [-0.7, 0.7]. *)
Theorem generate_tone_amplitude_bound (fsin : float -> float)
    (freqs : frequencies) (duration fade_in fade_out : float) (buf : Np.array) :
  (forall samples wave,
     sample_count duration = Ok samples ->
     waveform fsin freqs duration samples = Ok wave ->
     Forall (fun v => B64.in_range B64.one v = true) wave) ->
  Z.of_nat (length buf) < 2 ^ 52 ->
  generate_tone fsin freqs duration fade_in fade_out = Ok buf ->
  Forall (fun s => B64.in_range amplitude s = true) buf.
Proof.
  intros Hsin Hlen H. unfold generate_tone in H.
  apply rbind_ok in H as (samples & Hs & H).
  apply rbind_ok in H as (a0 & Hw & H).
  apply rbind_ok in H as (a1 & Hf & H).
  apply Rounding.Ok_inj in H. subst buf.
  apply (scaled_fades_in_range a0 fade_in fade_out a1); [| | exact Hf].
  - apply apply_fades_length in Hf. unfold Np.scale in Hlen.
    rewrite length_fmap in Hlen. lia.
  - apply (Hsin samples); assumption.
Qed.

Lemma generate_tone_amplitude_bound_witness :
  Forall (fun s => B64.in_range amplitude s = true)
    (returned (generate_tone sin_taylor (Freq (B64.of_Z 880))
                 (B64.of_decimal 1 3) (B64.of_decimal 1 4) (B64.of_decimal 2 4))).
Proof.
  apply (generate_tone_amplitude_bound sin_taylor (Freq (B64.of_Z 880))
           (B64.of_decimal 1 3) (B64.of_decimal 1 4) (B64.of_decimal 2 4)).
  - intros samples wave Hs Hw.
    assert (samples = 44) as -> by (vm_compute in Hs; congruence).
    apply forallb_Forall.
    vm_compute in Hw. apply Rounding.Ok_inj in Hw. subst wave.
    vm_compute. reflexivity.
  - vm_compute. reflexivity.
  - vm_compute. reflexivity.
Defined.

(** C9, counterexample: a frequency of 1e308 Hz with a duration of 1 ms and
    fades of 0.1 ms and 0.2 ms meets every stated precondition, but
    [2 * pi * f] overflows to infinity: the arguments of the sine are NaN (at
    time 0) or infinite, where the sine is NaN (here as with [np.sin]), and
    every one of the 44 samples returned is NaN, which is not within
    [-0.7, 0.7]. *)
Lemma amplitude_bound_fails_on_overflow :
  SFltb B64.zero (B64.of_Z (10 ^ 308)) = true
  /\ SFltb B64.zero (B64.of_decimal 1 3) = true
  /\ B64.leb B64.zero (B64.of_decimal 1 4) = true
  /\ B64.leb B64.zero (B64.of_decimal 2 4) = true
  /\ B64.leb (B64.add (B64.of_decimal 1 4) (B64.of_decimal 2 4))
       (B64.of_decimal 1 3) = true
  /\ B64.mul (B64.mul (B64.of_Z 2) B64.pi) (B64.of_Z (10 ^ 308))
     = S754_infinity false
  /\ sin_taylor (S754_infinity false) = B64.nan
  /\ sin_taylor B64.nan = B64.nan
  /\ generate_tone sin_taylor (Freq (B64.of_Z (10 ^ 308)))
       (B64.of_decimal 1 3) (B64.of_decimal 1 4) (B64.of_decimal 2 4)
     = Ok (replicate 44 B64.nan)
  /\ B64.in_range amplitude B64.nan = false.
Proof. vm_compute. repeat split; reflexivity. Qed.

(** * Further properties *)

(** ** Transcoding, continued *)

(** X1: when the encoder exits with status 0 and has written its output,
    [convert_to_mp3] returns [True]: the MP3 path holds the encoder's output,
    the WAV file is removed, every other file is untouched, and one line,
    [Created: <mp3 path>], is printed. *)
Theorem convert_to_mp3_success
    (run : option (list byte) -> Z * option (list byte))
    (wav_path : string) (w : world) (data mp3 : list byte) :
  files w !! wav_path = Some data ->
  run (Some data) = (0, Some mp3) ->
  wav_path <> mp3_path_of wav_path ->
  exists w',
    convert_to_mp3 (Installed run) wav_path w = (Ok true, w')
    /\ files w' !! mp3_path_of wav_path = Some mp3
    /\ files w' !! wav_path = None
    /\ (forall p, p <> wav_path -> p <> mp3_path_of wav_path ->
                  files w' !! p = files w !! p)
    /\ stdout w' = stdout w ++ ["Created: " +:+ mp3_path_of wav_path].
Proof.
  intros Hwav Hrun Hne. eexists. split.
  - apply (convert_to_mp3_exit_zero run wav_path w data mp3 Hwav Hrun).
  - cbn [files stdout]. split.
    + rewrite lookup_delete_ne, lookup_insert_eq by congruence. reflexivity.
    + split; [apply lookup_delete_eq |]. split; [| reflexivity].
      intros p Hp1 Hp2.
      rewrite lookup_delete_ne, lookup_insert_ne by congruence. reflexivity.
Qed.

Lemma convert_to_mp3_success_witness :
  exists w',
    convert_to_mp3 (Installed (fun _ => (0, Some []))) "click.wav" click_world
    = (Ok true, w')
    /\ files w' !! mp3_path_of "click.wav" = Some []
    /\ files w' !! "click.wav" = None
    /\ (forall p, p <> "click.wav" -> p <> mp3_path_of "click.wav" ->
                  files w' !! p = files click_world !! p)
    /\ stdout w' = stdout click_world ++ ["Created: " +:+ mp3_path_of "click.wav"].
Proof.
  apply (convert_to_mp3_success (fun _ => (0, Some [])) "click.wav" click_world
           (wav_bytes []) []).
  - reflexivity.
  - reflexivity.
  - discriminate.
Defined.

(** X2: without the encoder and without the WAV file the fallback itself
    fails: the notice is printed, [os.rename] raises [FileNotFoundError]
    inside the handler and the exception leaves [convert_to_mp3]; no file is
    touched and no [Created] line is printed. *)
Theorem convert_to_mp3_fallback_without_wav (wav_path : string) (w : world) :
  files w !! wav_path = None ->
  convert_to_mp3 NotInstalled wav_path w
  = (Raise FileNotFoundError,
     World (files w) (stdout w ++ ["ffmpeg not found, keeping WAV files"])).
Proof.
  intros H.
  unfold convert_to_mp3, try_except, subprocess_run, ioraise, iobind, print,
    os_rename.
  cbn [files stdout]. rewrite H. reflexivity.
Qed.

Lemma convert_to_mp3_fallback_without_wav_witness :
  convert_to_mp3 NotInstalled "correct.wav" click_world
  = (Raise FileNotFoundError,
     World (files click_world)
       (stdout click_world ++ ["ffmpeg not found, keeping WAV files"])).
Proof.
  apply (convert_to_mp3_fallback_without_wav "correct.wav" click_world).
  reflexivity.
Defined.

(** X3: the handler guards the whole [try] block, not only the call of the
    encoder.  When the encoder has exited with status 0 but the WAV file does
    not exist, the [FileNotFoundError] of [os.remove] is caught: the notice
    [ffmpeg not found, keeping WAV files] is printed although the encoder
    ran, and [os.rename] then raises [FileNotFoundError]; what the encoder
    wrote stays. *)
Theorem convert_to_mp3_remove_failure_is_handled
    (run : option (list byte) -> Z * option (list byte))
    (wav_path : string) (w : world) (output : option (list byte)) :
  files w !! wav_path = None ->
  run None = (0, output) ->
  wav_path <> mp3_path_of wav_path ->
  convert_to_mp3 (Installed run) wav_path w
  = (Raise FileNotFoundError,
     World (match output with
            | Some data => <[mp3_path_of wav_path := data]> (files w)
            | None => files w
            end)
       (stdout w ++ ["ffmpeg not found, keeping WAV files"])).
Proof.
  intros Hwav Hrun Hne.
  unfold convert_to_mp3, try_except, subprocess_run, iobind, os_remove, print,
    os_rename.
  rewrite Hwav, Hrun. cbn [Z.eqb].
  destruct output as [data |]; cbn [files stdout].
  - rewrite lookup_insert_ne by congruence. rewrite Hwav.
    cbn [files stdout]. rewrite lookup_insert_ne by congruence. rewrite Hwav.
    reflexivity.
  - rewrite Hwav. cbn [files stdout]. rewrite Hwav. reflexivity.
Qed.

Lemma convert_to_mp3_remove_failure_is_handled_witness :
  convert_to_mp3 (Installed (fun _ => (0, Some []))) "correct.wav" click_world
  = (Raise FileNotFoundError,
     World (<[mp3_path_of "correct.wav" := []]> (files click_world))
       (stdout click_world ++ ["ffmpeg not found, keeping WAV files"])).
Proof.
  apply (convert_to_mp3_remove_failure_is_handled (fun _ => (0, Some []))
           "correct.wav" click_world (Some [])).
  - reflexivity.
  - reflexivity.
  - discriminate.
Defined.

(** A name without a dot is not changed by the extension rewrites. *)
Lemma replace_from_no_dot (old' new s : string) :
  no_dot s = true -> replace_from (String "." old') new 0 s = s.
Proof.
  induction s as [| c s IH]; [reflexivity |].
  cbn [no_dot]. intros [Hc Hs]%andb_prop.
  cbn [replace_from String.prefix].
  destruct (ascii_dec "." c) as [<- | _]; [discriminate |].
  rewrite IH by assumption. reflexivity.
Qed.

Lemma wav_path_of_no_dot (filename : string) :
  no_dot filename = true ->
  no_dot (wav_path_of filename) = true
  /\ mp3_path_of (wav_path_of filename) = wav_path_of filename.
Proof.
  intros Hf. unfold wav_path_of, mp3_path_of, str_replace.
  rewrite (replace_from_no_dot _ _ filename Hf).
  assert (Hp : no_dot (os_path_join OUTPUT_DIR filename) = true).
  { unfold os_path_join. destruct (String.prefix "/" filename); [assumption |].
    change (String.eqb OUTPUT_DIR "" || endswith OUTPUT_DIR "/") with false.
    cbv iota. rewrite !no_dot_append, Hf. reflexivity. }
  split; [assumption | apply replace_from_no_dot, Hp].
Qed.

(** X4: a file name without any dot is changed by neither extension
    rewrite, so the WAV path and the MP3 path are the same path.  With an
    encoder that exits with status 0, [os.remove] deletes that one file: the
    call returns [True] and prints [Created: <path>], and nothing is left at
    the path. *)
Theorem make_sound_extensionless_name
    (run : option (list byte) -> Z * option (list byte))
    (buf : Np.array) (filename : string) (w : world) (output : option (list byte)) :
  no_dot filename = true ->
  run (Some (wav_bytes buf)) = (0, output) ->
  exists w',
    make_sound (Installed run) (Ok buf) filename w = (Ok true, w')
    /\ mp3_path_of (wav_path_of filename) = wav_path_of filename
    /\ files w' !! wav_path_of filename = None
    /\ stdout w' = stdout w ++ ["Created: " +:+ wav_path_of filename].
Proof.
  intros Hf Hrun. destruct (wav_path_of_no_dot filename Hf) as [_ Hsame].
  unfold make_sound, lift. unfold iobind at 1. unfold iobind at 1.
  rewrite save_wav_spec.
  unfold convert_to_mp3, try_except, subprocess_run, iobind, os_remove, print, ioret.
  rewrite Hsame. cbn [files stdout]. rewrite lookup_insert_eq, Hrun. cbn [Z.eqb].
  destruct output as [data |]; cbn [files stdout]; rewrite lookup_insert_eq;
    cbn [files stdout]; eexists; (split; [reflexivity |]); cbn [files stdout];
    (split; [reflexivity |]); (split; [apply lookup_delete_eq | reflexivity]).
Qed.

Lemma make_sound_extensionless_name_witness :
  exists w',
    make_sound (Installed (fun _ => (0, Some []))) (Ok []) "click" click_world
    = (Ok true, w')
    /\ mp3_path_of (wav_path_of "click") = wav_path_of "click"
    /\ files w' !! wav_path_of "click" = None
    /\ stdout w' = stdout click_world ++ ["Created: " +:+ wav_path_of "click"].
Proof.
  apply (make_sound_extensionless_name (fun _ => (0, Some [])) [] "click"
           click_world (Some [])).
  - reflexivity.
  - reflexivity.
Defined.

(** ** The run, continued *)

Lemma make_sound_encoder_failure (run : option (list byte) -> Z * option (list byte))
    (buf : Np.array) (filename : string) (w : world)
    (returncode : Z) (output : option (list byte)) :
  run (Some (wav_bytes buf)) = (returncode, output) -> returncode <> 0 ->
  make_sound (Installed run) (Ok buf) filename w
  = (Raise (CalledProcessError returncode),
     World (match output with
            | Some data =>
                <[mp3_path_of (wav_path_of filename) := data]>
                  (<[wav_path_of filename := wav_bytes buf]> (files w))
            | None => <[wav_path_of filename := wav_bytes buf]> (files w)
            end)
       (stdout w)).
Proof.
  intros Hrun Hcode. unfold make_sound, lift. unfold iobind at 1. unfold iobind at 1.
  rewrite save_wav_spec.
  rewrite (convert_to_mp3_exit_nonzero run _ _ returncode output);
    [destruct output; reflexivity | | assumption].
  cbn [files]. rewrite lookup_insert_eq. assumption.
Qed.

(** X5: with an encoder that succeeds on every input the run returns and
    prints four lines: [Created: OUTPUT_DIR/<name>.mp3] for correct,
    incorrect and click, in this order, then the closing line. *)
Theorem main_with_encoder_prints (fsin : float -> float)
    (run : option (list byte) -> Z * option (list byte)) (w : world) :
  (forall data, exists mp3, run (Some data) = (0, Some mp3)) ->
  exists w',
    main (Installed run) fsin w = (Ok tt, w')
    /\ stdout w'
       = stdout w
         ++ ["Created: " +:+ os_path_join OUTPUT_DIR "correct.mp3";
             "Created: " +:+ os_path_join OUTPUT_DIR "incorrect.mp3";
             "Created: " +:+ os_path_join OUTPUT_DIR "click.mp3";
             String (ascii_of_nat 10) "All sounds generated successfully!"].
Proof.
  intros Hrun.
  destruct (correct_ok fsin) as (b1 & H1 & _), (incorrect_ok fsin) as (b2 & H2 & _),
    (click_ok fsin) as (b3 & H3 & _).
  destruct (Hrun (wav_bytes b1)) as [m1 Hr1], (Hrun (wav_bytes b2)) as [m2 Hr2],
    (Hrun (wav_bytes b3)) as [m3 Hr3].
  destruct mp3_paths_of_main as (P1 & P2 & P3).
  unfold main, os_makedirs. unfold iobind at 1. unfold ioret at 1.
  rewrite H1. unfold iobind at 1. rewrite (make_sound_installed run b1 _ _ m1 Hr1).
  rewrite H2. unfold iobind at 1. rewrite (make_sound_installed run b2 _ _ m2 Hr2).
  rewrite H3. unfold iobind at 1. rewrite (make_sound_installed run b3 _ _ m3 Hr3).
  rewrite P1, P2, P3. unfold print. cbn [files stdout].
  eexists. split; [reflexivity |]. cbn [stdout].
  rewrite <- !app_assoc. reflexivity.
Qed.

Lemma main_with_encoder_prints_witness :
  exists w',
    main (Installed (fun _ => (0, Some []))) sin_taylor click_world = (Ok tt, w')
    /\ stdout w'
       = stdout click_world
         ++ ["Created: " +:+ os_path_join OUTPUT_DIR "correct.mp3";
             "Created: " +:+ os_path_join OUTPUT_DIR "incorrect.mp3";
             "Created: " +:+ os_path_join OUTPUT_DIR "click.mp3";
             String (ascii_of_nat 10) "All sounds generated successfully!"].
Proof.
  apply (main_with_encoder_prints sin_taylor (fun _ => (0, Some [])) click_world).
  intros data. exists []. reflexivity.
Defined.

(** X6: without the encoder, and with none of the three final files there
    before, the run returns and prints seven lines: for each sound the
    notice and [Created: ... (actually WAV)], then the same closing line,
    [All sounds generated successfully!], as a run that encoded. *)
Theorem main_without_encoder_prints (fsin : float -> float) (w : world) :
  outputs_absent w ->
  exists w',
    main NotInstalled fsin w = (Ok tt, w')
    /\ stdout w'
       = stdout w
         ++ ["ffmpeg not found, keeping WAV files";
             "Created: " +:+ os_path_join OUTPUT_DIR "correct.mp3" +:+ " (actually WAV)";
             "ffmpeg not found, keeping WAV files";
             "Created: " +:+ os_path_join OUTPUT_DIR "incorrect.mp3" +:+ " (actually WAV)";
             "ffmpeg not found, keeping WAV files";
             "Created: " +:+ os_path_join OUTPUT_DIR "click.mp3" +:+ " (actually WAV)";
             String (ascii_of_nat 10) "All sounds generated successfully!"].
Proof.
  intros (A1 & A2 & A3).
  destruct (correct_ok fsin) as (b1 & H1 & _), (incorrect_ok fsin) as (b2 & H2 & _),
    (click_ok fsin) as (b3 & H3 & _).
  destruct mp3_paths_of_main as (P1 & P2 & P3).
  unfold main, os_makedirs. unfold iobind at 1. unfold ioret at 1.
  rewrite H1. unfold iobind at 1.
  rewrite make_sound_not_installed; [| discriminate | rewrite P1; exact A1].
  rewrite H2. unfold iobind at 1.
  rewrite make_sound_not_installed; [| discriminate |].
  2: { cbn [files]. rewrite P1, P2.
       rewrite lookup_insert_ne, lookup_delete_ne, lookup_insert_ne by discriminate.
       exact A2. }
  rewrite H3. unfold iobind at 1.
  rewrite make_sound_not_installed; [| discriminate |].
  2: { cbn [files]. rewrite P1, P2, P3.
       rewrite lookup_insert_ne, lookup_delete_ne, lookup_insert_ne by discriminate.
       rewrite lookup_insert_ne, lookup_delete_ne, lookup_insert_ne by discriminate.
       exact A3. }
  rewrite P1, P2, P3. unfold print. cbn [files stdout].
  eexists. split; [reflexivity |]. cbn [stdout].
  rewrite <- !app_assoc. reflexivity.
Qed.

Lemma main_without_encoder_prints_witness :
  exists w',
    main NotInstalled sin_taylor click_world = (Ok tt, w')
    /\ stdout w'
       = stdout click_world
         ++ ["ffmpeg not found, keeping WAV files";
             "Created: " +:+ os_path_join OUTPUT_DIR "correct.mp3" +:+ " (actually WAV)";
             "ffmpeg not found, keeping WAV files";
             "Created: " +:+ os_path_join OUTPUT_DIR "incorrect.mp3" +:+ " (actually WAV)";
             "ffmpeg not found, keeping WAV files";
             "Created: " +:+ os_path_join OUTPUT_DIR "click.mp3" +:+ " (actually WAV)";
             String (ascii_of_nat 10) "All sounds generated successfully!"].
Proof.
  apply (main_without_encoder_prints sin_taylor click_world).
  repeat split; reflexivity.
Defined.

(** X19: a second run without the encoder does not get past the first
    sound.  When [correct.mp3] is already there, [os.rename] does not
    replace it: the run stops with [FileExistsError] after the notice, the
    old [correct.mp3] is unchanged and the new WAV bytes stay in
    [correct.wav]. *)
Theorem main_without_encoder_does_not_overwrite (fsin : float -> float)
    (w : world) (buf : Np.array) (old : list byte) :
  correct fsin = Ok buf ->
  files w !! os_path_join OUTPUT_DIR "correct.mp3" = Some old ->
  exists w',
    main NotInstalled fsin w = (Raise FileExistsError, w')
    /\ stdout w' = stdout w ++ ["ffmpeg not found, keeping WAV files"]
    /\ files w' !! os_path_join OUTPUT_DIR "correct.mp3" = Some old
    /\ files w' !! wav_path_of "correct.mp3" = Some (wav_bytes buf)
    /\ forall p, p <> wav_path_of "correct.mp3" -> files w' !! p = files w !! p.
Proof.
  intros H1 Hold.
  destruct mp3_paths_of_main as (P1 & _).
  unfold main, os_makedirs. unfold iobind at 1. unfold ioret at 1.
  rewrite H1. unfold iobind at 1.
  unfold make_sound, lift. unfold iobind at 1. unfold iobind at 1.
  rewrite save_wav_spec.
  rewrite (convert_to_mp3_not_installed_exists _ _ (wav_bytes buf) old).
  - eexists. split; [reflexivity |]. cbn [files stdout].
    split; [reflexivity |]. split.
    + rewrite lookup_insert_ne by discriminate. exact Hold.
    + split; [apply lookup_insert_eq |].
      intros p Hp. rewrite lookup_insert_ne by congruence. reflexivity.
  - apply lookup_insert_eq.
  - discriminate.
  - cbn [files]. rewrite P1. rewrite lookup_insert_ne by discriminate. exact Hold.
Qed.

Lemma main_without_encoder_does_not_overwrite_witness :
  exists w',
    main NotInstalled sin_taylor rerun_world = (Raise FileExistsError, w')
    /\ stdout w' = stdout rerun_world ++ ["ffmpeg not found, keeping WAV files"]
    /\ files w' !! os_path_join OUTPUT_DIR "correct.mp3" = Some []
    /\ files w' !! wav_path_of "correct.mp3"
       = Some (wav_bytes (returned (correct sin_taylor)))
    /\ forall p, p <> wav_path_of "correct.mp3" ->
                 files w' !! p = files rerun_world !! p.
Proof.
  apply (main_without_encoder_does_not_overwrite sin_taylor rerun_world
           (returned (correct sin_taylor)) []).
  - destruct (correct_ok sin_taylor) as (b & H & _). rewrite H. reflexivity.
  - reflexivity.
Defined.

(** X7: if the encoder fails on the first sound, the run stops there with
    [CalledProcessError]: nothing has been printed, the intermediate
    [correct.wav] is left behind, and apart from it and from what the encoder
    may have written at [correct.mp3] no file has changed; the other two
    sounds are not made. *)
Theorem main_aborts_on_encoder_failure (fsin : float -> float)
    (run : option (list byte) -> Z * option (list byte)) (w : world)
    (buf : Np.array) (returncode : Z) (output : option (list byte)) :
  correct fsin = Ok buf ->
  run (Some (wav_bytes buf)) = (returncode, output) -> returncode <> 0 ->
  exists w',
    main (Installed run) fsin w = (Raise (CalledProcessError returncode), w')
    /\ stdout w' = stdout w
    /\ files w' !! wav_path_of "correct.mp3" = Some (wav_bytes buf)
    /\ forall p, p <> wav_path_of "correct.mp3" ->
                 p <> os_path_join OUTPUT_DIR "correct.mp3" ->
                 files w' !! p = files w !! p.
Proof.
  intros H1 Hrun Hcode.
  destruct mp3_paths_of_main as (P1 & _).
  unfold main, os_makedirs. unfold iobind at 1. unfold ioret at 1.
  rewrite H1. unfold iobind at 1.
  rewrite (make_sound_encoder_failure run buf _ _ returncode output Hrun Hcode).
  rewrite P1. eexists. split; [reflexivity |]. cbn [files stdout].
  split; [reflexivity |].
  destruct output as [data |].
  - split.
    + rewrite lookup_insert_ne by discriminate. apply lookup_insert_eq.
    + intros p Hp1 Hp2. rewrite !lookup_insert_ne by congruence. reflexivity.
  - split; [apply lookup_insert_eq |].
    intros p Hp1 Hp2. rewrite lookup_insert_ne by congruence. reflexivity.
Qed.

Lemma main_aborts_on_encoder_failure_witness :
  exists w',
    main (Installed (fun _ => (1, None))) sin_taylor click_world
    = (Raise (CalledProcessError 1), w')
    /\ stdout w' = stdout click_world
    /\ files w' !! wav_path_of "correct.mp3"
       = Some (wav_bytes (returned (correct sin_taylor)))
    /\ forall p, p <> wav_path_of "correct.mp3" ->
                 p <> os_path_join OUTPUT_DIR "correct.mp3" ->
                 files w' !! p = files click_world !! p.
Proof.
  apply (main_aborts_on_encoder_failure sin_taylor (fun _ => (1, None)) click_world
           (returned (correct sin_taylor)) 1 None).
  - destruct (correct_ok sin_taylor) as (b & H & _). rewrite H. reflexivity.
  - reflexivity.
  - discriminate.
Defined.

(** ** When the tone is made *)

Lemma broadcast_to_ok_iff (n : nat) (v : Np.array) :
  (exists v', Np.broadcast_to n v = Ok v') <-> (length v = n \/ length v = 1%nat).
Proof.
  unfold Np.broadcast_to. destruct (decide (length v = n)) as [Heq | Hne].
  - split; [intros _; left; assumption | intros _; eexists; reflexivity].
  - destruct v as [| x [| y v]].
    + split; [intros [v' H]; discriminate | intros [H | H]; [contradiction | discriminate]].
    + split; [intros _; right; reflexivity | intros _; eexists; reflexivity].
    + split; [intros [v' H]; discriminate | intros [H | H]; [contradiction | discriminate]].
Qed.

Lemma update_slice_ok_iff f (a : Np.array) start stop (v : Np.array) lo hi :
  Np.slice_bounds (Z.of_nat (length a)) start stop = (lo, hi) ->
  (exists a', Np.update_slice f a start stop v = Ok a')
  <-> (length v = Z.to_nat (hi - lo) \/ length v = 1%nat).
Proof.
  intros Hb. unfold Np.update_slice. rewrite Hb.
  rewrite <- broadcast_to_ok_iff. split.
  - intros [a' H]. apply rbind_ok in H as (v' & Hv & _). eauto.
  - intros [v' ->]. eexists. reflexivity.
Qed.

Lemma slice_bounds_head (len k : Z) :
  0 <= len -> 0 <= k -> Np.slice_bounds len None (Some k) = (0, Z.min k len).
Proof.
  intros Hl Hk. unfold Np.slice_bounds, Np.adjust_index. cbn [from_option].
  destruct (Z.ltb_spec k 0); [lia | reflexivity].
Qed.

Lemma slice_bounds_tail (len k : Z) :
  0 <= len -> 0 <= k ->
  Np.slice_bounds len (Some (- k)) None
  = (if k =? 0 then 0 else Z.max (len - k) 0, len).
Proof.
  intros Hl Hk. unfold Np.slice_bounds, Np.adjust_index. cbn [from_option].
  destruct (Z.eqb_spec k 0) as [-> | Hne].
  - change (- 0) with 0. cbn. f_equal. lia.
  - destruct (Z.ltb_spec (- k) 0); [| lia]. f_equal. f_equal. lia.
Qed.

(** The fades return exactly when both ramps fit their views. *)
Lemma apply_fades_ok_iff (audio : Np.array) (fade_in fade_out : float) :
  (exists audio', apply_fades audio fade_in fade_out = Ok audio')
  <-> exists ki ko,
        sample_count fade_in = Ok ki /\ sample_count fade_out = Ok ko
        /\ 0 <= ki /\ (ki <= Z.of_nat (length audio) \/ ki = 1)
        /\ ((1 <= ko /\ (ko <= Z.of_nat (length audio) \/ ko = 1))
            \/ (ko = 0 /\ audio = [])).
Proof.
  unfold apply_fades. split.
  - intros [audio' H].
    apply rbind_ok in H as (ki & Hki & H).
    apply rbind_ok in H as (ko & Hko & H).
    apply rbind_ok in H as (ramp_in & Hri & H).
    apply rbind_ok in H as (a1 & H1 & H).
    apply rbind_ok in H as (ramp_out & Hro & H2).
    apply linspace_inv in Hri as [Hki0 Hlri].
    apply linspace_inv in Hro as [Hko0 Hlro].
    pose proof (update_slice_length _ _ _ _ _ _ H1) as Hlen1.
    exists ki, ko. split; [assumption |]. split; [assumption |].
    split; [assumption |].
    unfold Np.imul_slice in H1, H2.
    pose proof (proj1 (update_slice_ok_iff _ _ _ _ _ _ _
                         (slice_bounds_head _ ki (Nat2Z.is_nonneg _) Hki0))
                  (ex_intro _ a1 H1)) as Hin.
    pose proof (proj1 (update_slice_ok_iff _ _ _ _ _ _ _
                         (slice_bounds_tail _ ko (Nat2Z.is_nonneg _) Hko0))
                  (ex_intro _ audio' H2)) as Hout.
    rewrite Hlri in Hin. rewrite Hlro, Hlen1 in Hout.
    split; [lia |].
    destruct (Z.eqb_spec ko 0) as [-> | Hne].
    + right. split; [reflexivity |]. destruct audio; [reflexivity | simpl in Hout; lia].
    + left. lia.
  - intros (ki & ko & Hki & Hko & Hki0 & Hin & Hout).
    rewrite Hki, Hko. cbn [rbind].
    destruct (linspace_ok B64.zero B64.one ki true Hki0) as (ramp_in & -> & Hlri).
    cbn [rbind]. unfold Np.imul_slice.
    destruct (proj2 (update_slice_ok_iff B64.mul audio None (Some ki) ramp_in _ _
                       (slice_bounds_head _ ki (Nat2Z.is_nonneg _) Hki0))) as [a1 H1].
    { rewrite Hlri. lia. }
    rewrite H1. cbn [rbind].
    pose proof (update_slice_length _ _ _ _ _ _ H1) as Hlen1.
    assert (Hko0 : 0 <= ko) by lia.
    destruct (linspace_ok B64.one B64.zero ko true Hko0) as (ramp_out & -> & Hlro).
    cbn [rbind].
    apply (update_slice_ok_iff B64.mul a1 (Some (- ko)) None ramp_out _ _
             (slice_bounds_tail _ ko (Nat2Z.is_nonneg _) Hko0)).
    rewrite Hlro, Hlen1.
    destruct Hout as [[H1k Hk] | [-> ->]].
    + destruct (Z.eqb_spec ko 0); lia.
    + left. reflexivity.
Qed.

(** X8: exactly when [generate_tone] returns.  With [samples], [ki] and
    [ko] the sample counts of the duration and the two fades: the three
    counts exist, [samples >= 0], the list of frequencies is not empty,
    [ki >= 0] and the fade-in ramp fits the buffer ([ki <= samples], or a
    ramp of one item, which broadcasts), and the fade-out ramp fits as well
    ([1 <= ko <= samples], or [ko = 1]); [ko = 0] is accepted only on an
    empty buffer. *)
Theorem generate_tone_returns_iff (fsin : float -> float) (freqs : frequencies)
    (duration fade_in fade_out : float) :
  (exists buf, generate_tone fsin freqs duration fade_in fade_out = Ok buf)
  <-> exists samples ki ko,
        sample_count duration = Ok samples
        /\ sample_count fade_in = Ok ki /\ sample_count fade_out = Ok ko
        /\ 0 <= samples /\ freqs <> FreqList []
        /\ 0 <= ki /\ (ki <= samples \/ ki = 1)
        /\ ((1 <= ko /\ (ko <= samples \/ ko = 1)) \/ (ko = 0 /\ samples = 0)).
Proof.
  unfold generate_tone. split.
  - intros [buf H].
    apply rbind_ok in H as (samples & Hs & H).
    apply rbind_ok in H as (a0 & Hw & H).
    apply rbind_ok in H as (a1 & Hf & _).
    pose proof (waveform_inv fsin _ _ _ _ Hw) as [Hn Hlen].
    destruct (proj1 (apply_fades_ok_iff a0 fade_in fade_out) (ex_intro _ a1 Hf))
      as (ki & ko & Hki & Hko & Hki0 & Hin & Hout).
    exists samples, ki, ko.
    split; [assumption |]. split; [assumption |]. split; [assumption |].
    split; [assumption |]. split.
    { intros ->. rewrite waveform_empty_list in Hw by assumption. discriminate. }
    split; [assumption |]. split; [lia |].
    destruct Hout as [Hout | [-> ->]]; [left; lia | right].
    split; [reflexivity |]. simpl in Hlen. lia.
  - intros (samples & ki & ko & Hs & Hki & Hko & Hn & Hfreqs & Hki0 & Hin & Hout).
    rewrite Hs. cbn [rbind].
    destruct (waveform_ok fsin freqs duration samples Hfreqs Hn) as (a0 & -> & Hlen).
    cbn [rbind].
    destruct (proj2 (apply_fades_ok_iff a0 fade_in fade_out)) as [a1 ->].
    { exists ki, ko. split; [assumption |]. split; [assumption |].
      split; [assumption |]. split; [lia |].
      destruct Hout as [Hout | [-> ->]]; [left; lia | right].
      split; [reflexivity |]. destruct a0; [reflexivity | simpl in Hlen; lia]. }
    eexists. reflexivity.
Qed.

(** X9: an empty list of frequencies, with a duration of a non-negative
    sample count, raises [ZeroDivisionError] (from
    [samples // len(frequencies)]). *)
Theorem generate_tone_empty_list_raises (fsin : float -> float)
    (duration fade_in fade_out : float) (samples : Z) :
  sample_count duration = Ok samples -> 0 <= samples ->
  generate_tone fsin (FreqList []) duration fade_in fade_out
  = Raise ZeroDivisionError.
Proof.
  intros Hs Hn. unfold generate_tone. rewrite Hs. cbn [rbind].
  rewrite waveform_empty_list by assumption. reflexivity.
Qed.

Lemma generate_tone_empty_list_raises_witness :
  generate_tone sin_taylor (FreqList []) (B64.of_decimal 35 2) default_fade_in
    (B64.of_decimal 1 1)
  = Raise ZeroDivisionError.
Proof.
  apply (generate_tone_empty_list_raises sin_taylor (B64.of_decimal 35 2)
           default_fade_in (B64.of_decimal 1 1) 15434).
  - vm_compute. reflexivity.
  - lia.
Defined.

(** X10: a duration whose sample count is negative raises [ValueError]:
    [np.linspace] rejects the negative number of samples before anything
    else is computed, whatever the frequencies and the fades. *)
Theorem generate_tone_negative_duration_raises (fsin : float -> float)
    (freqs : frequencies) (duration fade_in fade_out : float) (samples : Z) :
  sample_count duration = Ok samples -> samples < 0 ->
  generate_tone fsin freqs duration fade_in fade_out = Raise ValueError.
Proof.
  intros Hs Hn. unfold generate_tone, waveform. rewrite Hs. cbn [rbind].
  rewrite linspace_neg by assumption. reflexivity.
Qed.

Lemma generate_tone_negative_duration_raises_witness :
  generate_tone sin_taylor (FreqList []) (SFopp (B64.of_decimal 8 2))
    default_fade_in (B64.of_decimal 1 1)
  = Raise ValueError.
Proof.
  apply (generate_tone_negative_duration_raises sin_taylor (FreqList [])
           (SFopp (B64.of_decimal 8 2)) default_fade_in (B64.of_decimal 1 1)
           (- 3528)).
  - vm_compute. reflexivity.
  - lia.
Defined.

Lemma apply_fades_raises (audio : Np.array) (fade_in fade_out : float)
    (ki ko : Z) (e : exn) :
  sample_count fade_in = Ok ki -> sample_count fade_out = Ok ko ->
  apply_fades audio fade_in fade_out = Raise e -> e = ValueError.
Proof.
  intros Hki Hko. unfold apply_fades. rewrite Hki, Hko. cbn [rbind].
  destruct (Np.linspace B64.zero B64.one ki true) as [ramp_in | e1] eqn:Hri;
    cbn [rbind].
  2: { intros [= <-]. eapply linspace_raises, Hri. }
  destruct (Np.imul_slice audio None (Some ki) ramp_in) as [a1 | e1] eqn:H1;
    cbn [rbind].
  2: { intros [= <-]. eapply update_slice_raises, H1. }
  destruct (Np.linspace B64.one B64.zero ko true) as [ramp_out | e1] eqn:Hro;
    cbn [rbind].
  2: { intros [= <-]. eapply linspace_raises, Hro. }
  apply update_slice_raises.
Qed.

(** X11: a fade of two samples or more that is longer than the tone raises
    [ValueError]: the slice is cut to the buffer, the ramp is not, and the
    in-place product cannot broadcast.  No partially faded or shortened
    buffer is returned. *)
Theorem generate_tone_fade_too_long_raises (fsin : float -> float)
    (freqs : frequencies) (duration fade_in fade_out : float) (samples ki ko : Z) :
  freqs <> FreqList [] ->
  sample_count duration = Ok samples -> 0 <= samples ->
  sample_count fade_in = Ok ki -> sample_count fade_out = Ok ko ->
  (samples < ki /\ 2 <= ki) \/ (samples < ko /\ 2 <= ko) ->
  generate_tone fsin freqs duration fade_in fade_out = Raise ValueError.
Proof.
  intros Hfreqs Hs Hn Hki Hko Hlong.
  destruct (generate_tone fsin freqs duration fade_in fade_out) as [buf | e] eqn:H.
  - exfalso. unfold generate_tone in H. rewrite Hs in H. cbn [rbind] in H.
    apply rbind_ok in H as (a0 & Hw & H).
    apply rbind_ok in H as (a1 & Hf & _).
    apply waveform_inv in Hw as [_ Hlen].
    destruct (proj1 (apply_fades_ok_iff a0 fade_in fade_out) (ex_intro _ a1 Hf))
      as (ki' & ko' & Hki' & Hko' & _ & Hin & Hout).
    rewrite Hki in Hki'. rewrite Hko in Hko'.
    injection Hki' as <-. injection Hko' as <-. lia.
  - unfold generate_tone in H. rewrite Hs in H. cbn [rbind] in H.
    destruct (waveform_ok fsin freqs duration samples Hfreqs Hn) as (a0 & Hw & _).
    rewrite Hw in H. cbn [rbind] in H.
    destruct (apply_fades a0 fade_in fade_out) as [a1 | e1] eqn:Hf;
      cbn [rbind] in H; [discriminate |].
    injection H as <-. f_equal.
    apply (apply_fades_raises a0 fade_in fade_out ki ko e1 Hki Hko Hf).
Qed.

Lemma generate_tone_fade_too_long_raises_witness :
  generate_tone sin_taylor (Freq (B64.of_Z 880)) (B64.of_decimal 8 2)
    (B64.of_decimal 1 1) (B64.of_decimal 3 2)
  = Raise ValueError.
Proof.
  apply (generate_tone_fade_too_long_raises sin_taylor (Freq (B64.of_Z 880))
           (B64.of_decimal 8 2) (B64.of_decimal 1 1) (B64.of_decimal 3 2)
           3528 4410 1323).
  - discriminate.
  - vm_compute. reflexivity.
  - lia.
  - vm_compute. reflexivity.
  - vm_compute. reflexivity.
  - left. lia.
Defined.

(** ** Where the fades act *)

Lemma update_slice_lookup_outside f (a : Np.array) start stop (v a' : Np.array)
    lo hi (i : nat) :
  Np.slice_bounds (Z.of_nat (length a)) start stop = (lo, hi) ->
  Np.update_slice f a start stop v = Ok a' ->
  Z.of_nat i < lo \/ hi <= Z.of_nat i ->
  a' !! i = a !! i.
Proof.
  intros Hb H Hi. unfold Np.update_slice in H. rewrite Hb in H.
  apply slice_bounds_range in Hb; [| lia].
  apply rbind_ok in H as (v' & Hv & [= <-]).
  apply broadcast_to_inv in Hv.
  destruct (Z.lt_ge_cases (Z.of_nat i) lo) as [Hlt | Hge].
  - rewrite lookup_app_l by (rewrite length_take; lia).
    apply lookup_take_lt. lia.
  - rewrite lookup_app_r by (rewrite length_take; lia).
    rewrite length_take.
    rewrite lookup_app_r
      by (rewrite length_zip_with, length_take, length_drop; lia).
    rewrite length_zip_with, length_take, length_drop, lookup_drop.
    f_equal. lia.
Qed.

Lemma update_slice_lookup_inside f (a : Np.array) start stop (v a' : Np.array)
    lo hi (i : nat) (x y : float) :
  Np.slice_bounds (Z.of_nat (length a)) start stop = (lo, hi) ->
  length v = Z.to_nat (hi - lo) ->
  Np.update_slice f a start stop v = Ok a' ->
  lo <= Z.of_nat i < hi ->
  a !! i = Some x -> v !! (i - Z.to_nat lo)%nat = Some y ->
  a' !! i = Some (f x y).
Proof.
  intros Hb Hv H Hi Hx Hy.
  rewrite (update_slice_ok f a start stop v lo hi Hb Hv) in H. injection H as <-.
  apply slice_bounds_range in Hb; [| lia].
  rewrite lookup_app_r by (rewrite length_take; lia).
  rewrite length_take.
  replace (i - Z.to_nat lo `min` length a)%nat with (i - Z.to_nat lo)%nat by lia.
  rewrite lookup_app_l
    by (rewrite length_zip_with, length_take, length_drop; lia).
  apply lookup_zip_with_Some. exists x, y. split; [reflexivity |].
  split; [| assumption].
  rewrite lookup_take_lt by lia. rewrite lookup_drop.
  rewrite <- Hx. f_equal. lia.
Qed.

(** X12: between the two ramps the tone is the wave times 0.7: for every
    index [i] with [ki <= i < samples - ko], sample [i] of the returned
    buffer is sample [i] of the generated wave multiplied by the amplitude;
    neither fade touches it. *)
Theorem generate_tone_between_fades (fsin : float -> float) (freqs : frequencies)
    (duration fade_in fade_out : float) (buf : Np.array) :
  generate_tone fsin freqs duration fade_in fade_out = Ok buf ->
  exists samples ki ko wave,
    sample_count duration = Ok samples
    /\ sample_count fade_in = Ok ki /\ sample_count fade_out = Ok ko
    /\ waveform fsin freqs duration samples = Ok wave
    /\ forall i : nat,
         ki <= Z.of_nat i < samples - ko ->
         buf !! i = (fun x => B64.mul x amplitude) <$> wave !! i.
Proof.
  intros H. unfold generate_tone in H.
  apply rbind_ok in H as (samples & Hs & H).
  apply rbind_ok in H as (a0 & Hw & H).
  apply rbind_ok in H as (a2 & Hf & [= <-]).
  pose proof (waveform_inv fsin _ _ _ _ Hw) as [Hn Hlen].
  unfold apply_fades in Hf.
  apply rbind_ok in Hf as (ki & Hki & Hf).
  apply rbind_ok in Hf as (ko & Hko & Hf).
  apply rbind_ok in Hf as (ramp_in & Hri & Hf).
  apply rbind_ok in Hf as (a1 & H1 & Hf).
  apply rbind_ok in Hf as (ramp_out & Hro & H2).
  apply linspace_inv in Hri as [Hki0 Hlri].
  apply linspace_inv in Hro as [Hko0 Hlro].
  pose proof (update_slice_length _ _ _ _ _ _ H1) as Hlen1.
  exists samples, ki, ko, a0.
  split; [assumption |]. split; [assumption |]. split; [assumption |].
  split; [assumption |].
  intros i Hi. unfold Np.scale. rewrite list_lookup_fmap. f_equal.
  unfold Np.imul_slice in H1, H2.
  pose proof (slice_bounds_tail (Z.of_nat (length a1)) ko (Nat2Z.is_nonneg _) Hko0)
    as Hb2.
  pose proof (slice_bounds_head (Z.of_nat (length a0)) ki (Nat2Z.is_nonneg _) Hki0)
    as Hb1.
  assert (Hko1 : ko <> 0).
  { intros ->.
    pose proof (proj1 (update_slice_ok_iff _ _ _ _ _ _ _ Hb2) (ex_intro _ a2 H2))
      as Hout.
    rewrite Hlro in Hout. change (0 =? 0) with true in Hout. cbv iota in Hout.
    lia. }
  rewrite (update_slice_lookup_outside _ _ _ _ _ _ _ _ i Hb2 H2).
  - apply (update_slice_lookup_outside _ _ _ _ _ _ _ _ i Hb1 H1). lia.
  - destruct (Z.eqb_spec ko 0); [contradiction | lia].
Qed.

Lemma generate_tone_between_fades_witness :
  exists samples ki ko wave,
    sample_count (B64.of_decimal 1 3) = Ok samples
    /\ sample_count (B64.of_decimal 1 4) = Ok ki
    /\ sample_count (B64.of_decimal 2 4) = Ok ko
    /\ waveform sin_taylor (Freq (B64.of_Z 880)) (B64.of_decimal 1 3) samples = Ok wave
    /\ forall i : nat,
         ki <= Z.of_nat i < samples - ko ->
         returned (generate_tone sin_taylor (Freq (B64.of_Z 880))
                     (B64.of_decimal 1 3) (B64.of_decimal 1 4) (B64.of_decimal 2 4))
           !! i
         = (fun x => B64.mul x amplitude) <$> wave !! i.
Proof.
  apply (generate_tone_between_fades sin_taylor (Freq (B64.of_Z 880))
           (B64.of_decimal 1 3) (B64.of_decimal 1 4) (B64.of_decimal 2 4)).
  vm_compute. reflexivity.
Defined.

(** ** Silence at both ends *)

(** A number within [-1, 1] is a zero or finite. *)
Lemma in_range_one_inv (x : float) :
  B64.in_range B64.one x = true ->
  (exists s, x = S754_zero s) \/ exists s m e, x = S754_finite s m e.
Proof.
  destruct x as [s | s | | s m e]; intros H.
  - left. eauto.
  - destruct s; discriminate.
  - discriminate.
  - right. eauto.
Qed.

Lemma mul_zero_r (x : float) (s' : bool) :
  B64.in_range B64.one x = true -> exists s, B64.mul x (S754_zero s') = S754_zero s.
Proof.
  intros [[s ->] | (s & m & e & ->)]%in_range_one_inv; eexists; reflexivity.
Qed.

Lemma mul_zero_l (y : float) (s' : bool) :
  B64.in_range B64.one y = true -> exists s, B64.mul (S754_zero s') y = S754_zero s.
Proof.
  intros [[s ->] | (s & m & e & ->)]%in_range_one_inv; eexists; reflexivity.
Qed.

(** The fade-in ramp starts at 0. *)
Lemma ramp_up_head (k : Z) (ramp : Np.array) :
  1 <= k < 2 ^ 52 ->
  Np.linspace B64.zero B64.one k true = Ok ramp ->
  ramp !! 0%nat = Some B64.zero.
Proof.
  intros Hk H. unfold Np.linspace in H.
  destruct (Z.ltb_spec k 0) as [| Hk0]; [lia |].
  apply Rounding.Ok_inj in H. subst ramp. cbv zeta. cbn [andb].
  rewrite Rounding.mul_zero_one, Rounding.mul_one_one, Rounding.sub_one_zero.
  assert (H0 : Np.arange k !! 0%nat = Some B64.zero).
  { unfold Np.arange. rewrite list_lookup_fmap.
    rewrite (proj2 (lookup_seqZ 0 k 0%nat 0)); [reflexivity | lia]. }
  destruct (Z.ltb_spec 0 (k - 1)) as [Hdiv | Hdiv].
  - destruct (Rounding.unit_step false (k - 1)) as (ms & es & Hstep & _ & _); [lia |].
    rewrite Rounding.one_eq, !Hstep, <- Rounding.one_eq.
    change (B64.eqb (S754_finite false ms es) B64.zero) with false. cbv iota.
    destruct (Z.ltb_spec 1 k); [| lia].
    unfold Np.set_last. rewrite !length_fmap, length_arange.
    rewrite list_lookup_insert_ne by lia.
    rewrite !list_lookup_fmap, H0. reflexivity.
  - destruct (Z.ltb_spec 1 k); [lia |].
    rewrite !list_lookup_fmap, H0. reflexivity.
Qed.

(** The fade-out ramp of two samples or more ends at 0. *)
Lemma ramp_down_last (k : Z) (ramp : Np.array) :
  2 <= k ->
  Np.linspace B64.one B64.zero k true = Ok ramp ->
  ramp !! Z.to_nat (k - 1) = Some B64.zero.
Proof.
  intros Hk H. unfold Np.linspace in H.
  destruct (Z.ltb_spec k 0) as [| Hk0]; [lia |].
  apply Rounding.Ok_inj in H. subst ramp. cbv zeta. cbn [andb].
  destruct (Z.ltb_spec 1 k); [| lia].
  rewrite Rounding.mul_zero_one.
  unfold Np.set_last.
  match goal with
  | |- <[ _ := _ ]> ?l !! _ = _ =>
      assert (Hlen : length l = Z.to_nat k)
  end.
  { rewrite length_fmap.
    destruct (0 <? k - 1); [destruct (B64.eqb _ _) |];
      rewrite length_fmap; apply length_arange. }
  rewrite Hlen.
  replace (Z.to_nat (k - 1)) with (pred (Z.to_nat k)) by lia.
  apply list_lookup_insert_eq. lia.
Qed.

(** What an in-place update leaves at an index: the old item, or its image
    under [f] with an item of the right-hand side. *)
Lemma update_slice_lookup_cases (Q : float -> Prop) f (a : Np.array) start stop
    (v a' : Np.array) (i : nat) (x : float) :
  Forall Q v ->
  Np.update_slice f a start stop v = Ok a' ->
  a !! i = Some x ->
  a' !! i = Some x \/ exists y, Q y /\ a' !! i = Some (f x y).
Proof.
  intros HQ H Hx. pose proof H as H'. unfold Np.update_slice in H.
  destruct (Np.slice_bounds _ start stop) as [lo hi] eqn:Hb.
  pose proof (slice_bounds_range _ _ _ _ _ (Nat2Z.is_nonneg _) Hb) as Hr.
  pose proof (lookup_lt_Some _ _ _ Hx) as Hi.
  destruct (decide (lo <= Z.of_nat i < hi)) as [Hin | Hout].
  - right. apply rbind_ok in H as (v' & Hv & [= <-]).
    pose proof (broadcast_to_inv _ _ _ Hv) as Hlen.
    apply (broadcast_to_Forall Q) in Hv; [| assumption].
    destruct (v' !! (i - Z.to_nat lo)%nat) as [y |] eqn:Hy.
    2: { apply lookup_ge_None in Hy. lia. }
    exists y. split; [eapply Forall_lookup_1; eassumption |].
    rewrite lookup_app_r by (rewrite length_take; lia).
    rewrite length_take.
    replace (i - Z.to_nat lo `min` length a)%nat with (i - Z.to_nat lo)%nat by lia.
    rewrite lookup_app_l
      by (rewrite length_zip_with, length_take, length_drop; lia).
    apply lookup_zip_with_Some. exists x, y. split; [reflexivity |].
    split; [| assumption].
    rewrite lookup_take_lt by lia. rewrite lookup_drop.
    rewrite <- Hx. f_equal. lia.
  - left. rewrite <- Hx.
    apply (update_slice_lookup_outside f a start stop v a' lo hi i Hb H'). lia.
Qed.

Lemma scale_zero_quantizes (s : bool) :
  exists s', B64.mul (S754_zero s) amplitude = S754_zero s'
             /\ to_int16 (B64.mul (S754_zero s') (B64.of_Z 32767)) = 0.
Proof. destruct s; eexists; split; reflexivity. Qed.

(** The parts of a call of [generate_tone] that returned. *)
Lemma generate_tone_parts (fsin : float -> float) (freqs : frequencies)
    (duration fade_in fade_out : float) (buf : Np.array) :
  generate_tone fsin freqs duration fade_in fade_out = Ok buf ->
  exists samples wave ki ko ramp_in a1 ramp_out a2,
    sample_count duration = Ok samples
    /\ waveform fsin freqs duration samples = Ok wave
    /\ sample_count fade_in = Ok ki /\ sample_count fade_out = Ok ko
    /\ Np.linspace B64.zero B64.one ki true = Ok ramp_in
    /\ Np.imul_slice wave None (Some ki) ramp_in = Ok a1
    /\ Np.linspace B64.one B64.zero ko true = Ok ramp_out
    /\ Np.imul_slice a1 (Some (- ko)) None ramp_out = Ok a2
    /\ buf = Np.scale a2 amplitude
    /\ length wave = length buf /\ length a1 = length buf.
Proof.
  intros H. unfold generate_tone in H.
  apply rbind_ok in H as (samples & Hs & H).
  apply rbind_ok in H as (a0 & Hw & H).
  apply rbind_ok in H as (a2 & Hf & [= <-]).
  unfold apply_fades in Hf.
  apply rbind_ok in Hf as (ki & Hki & Hf).
  apply rbind_ok in Hf as (ko & Hko & Hf).
  apply rbind_ok in Hf as (ramp_in & Hri & Hf).
  apply rbind_ok in Hf as (a1 & H1 & Hf).
  apply rbind_ok in Hf as (ramp_out & Hro & H2).
  pose proof (update_slice_length _ _ _ _ _ _ H1) as Hlen1.
  pose proof (update_slice_length _ _ _ _ _ _ H2) as Hlen2.
  exists samples, a0, ki, ko, ramp_in, a1, ramp_out, a2.
  unfold Np.scale. rewrite length_fmap.
  repeat (split; [assumption || reflexivity || congruence |]). congruence.
Qed.

(** X13: the tone starts in silence.  When the fade-in has at least one
    sample and the generated wave lies within [-1, 1], the first sample of a
    returned, non-empty buffer (of fewer than 2^52 samples) is a zero, of
    either sign, and [save_wav] quantizes it to 0. *)
Theorem generate_tone_starts_at_zero (fsin : float -> float) (freqs : frequencies)
    (duration fade_in fade_out : float) (buf : Np.array) (ki : Z) :
  (forall samples wave,
     sample_count duration = Ok samples ->
     waveform fsin freqs duration samples = Ok wave ->
     Forall (fun v => B64.in_range B64.one v = true) wave) ->
  Z.of_nat (length buf) < 2 ^ 52 ->
  generate_tone fsin freqs duration fade_in fade_out = Ok buf ->
  buf <> [] ->
  sample_count fade_in = Ok ki -> 1 <= ki ->
  exists s, buf !! 0%nat = Some (S754_zero s) /\ quantize buf !! 0%nat = Some 0.
Proof.
  intros Hsin Hlen H Hne Hki Hki1.
  apply generate_tone_parts in H
    as (samples & a0 & ki' & ko & ramp_in & a1 & ramp_out & a2 & Hs & Hw & Hki'
        & Hko & Hri & H1 & Hro & H2 & -> & Hl0 & Hl1).
  rewrite Hki in Hki'. injection Hki' as <-.
  specialize (Hsin samples a0 Hs Hw).
  assert (HN : (0 < length a0)%nat).
  { rewrite Hl0. destruct (Np.scale a2 amplitude); [contradiction | simpl; lia]. }
  unfold Np.imul_slice in H1, H2.
  pose proof (update_slice_rhs_length _ _ _ _ _ _ H1) as Hrhs1.
  pose proof (update_slice_rhs_length _ _ _ _ _ _ H2) as Hrhs2.
  destruct (linspace_inv _ _ _ _ _ Hri) as [Hki0 Hlri].
  destruct (linspace_inv _ _ _ _ _ Hro) as [Hko0 Hlro].
  assert (H252 : 1 < 2 ^ 52) by reflexivity.
  (* the first sample after the fade-in *)
  destruct (a0 !! 0%nat) as [x0 |] eqn:Hx0.
  2: { apply lookup_ge_None in Hx0. lia. }
  pose proof (Forall_lookup_1 _ _ _ _ Hsin Hx0) as Hr0.
  destruct (mul_zero_r x0 false Hr0) as [s1 Hs1].
  assert (Ha1 : a1 !! 0%nat = Some (S754_zero s1)).
  { rewrite <- Hs1.
    apply (update_slice_lookup_inside B64.mul a0 None (Some ki) ramp_in a1 0
             (Z.min ki (Z.of_nat (length a0))) 0 x0 B64.zero).
    - apply slice_bounds_head; lia.
    - rewrite Hlri. f_equal. lia.
    - exact H1.
    - lia.
    - exact Hx0.
    - apply (ramp_up_head ki); [lia | exact Hri]. }
  (* the fade-out may reach it *)
  assert (Ha2 : exists s2, a2 !! 0%nat = Some (S754_zero s2)).
  { destruct (update_slice_lookup_cases (fun v => B64.in_range B64.one v = true)
                B64.mul a1 (Some (- ko)) None ramp_out a2 0 (S754_zero s1))
      as [Hsame | (y & Hy & Hmul)].
    - apply (Rounding.ramp_down_in_range ko); [lia | exact Hro].
    - exact H2.
    - exact Ha1.
    - eauto.
    - destruct (mul_zero_l y s1 Hy) as [s2 Hs2]. rewrite Hs2 in Hmul. eauto. }
  destruct Ha2 as [s2 Ha2].
  destruct (scale_zero_quantizes s2) as (s & Hscale & Hq).
  exists s. unfold quantize, Np.scale. rewrite !list_lookup_fmap, Ha2.
  cbn [fmap option_fmap option_map]. rewrite Hscale, Hq. split; reflexivity.
Qed.

Lemma generate_tone_starts_at_zero_witness :
  exists s,
    returned (generate_tone sin_taylor (Freq (B64.of_Z 880))
                (B64.of_decimal 1 3) (B64.of_decimal 1 4) (B64.of_decimal 2 4))
      !! 0%nat = Some (S754_zero s)
    /\ quantize (returned (generate_tone sin_taylor (Freq (B64.of_Z 880))
                (B64.of_decimal 1 3) (B64.of_decimal 1 4) (B64.of_decimal 2 4)))
         !! 0%nat = Some 0.
Proof.
  apply (generate_tone_starts_at_zero sin_taylor (Freq (B64.of_Z 880))
           (B64.of_decimal 1 3) (B64.of_decimal 1 4) (B64.of_decimal 2 4) _ 4).
  - intros samples wave Hs Hw.
    assert (samples = 44) as -> by (vm_compute in Hs; congruence).
    apply forallb_Forall.
    vm_compute in Hw. apply Rounding.Ok_inj in Hw. subst wave.
    vm_compute. reflexivity.
  - vm_compute. reflexivity.
  - vm_compute. reflexivity.
  - vm_compute. discriminate.
  - vm_compute. reflexivity.
  - lia.
Defined.

(** X14: the tone ends in silence.  When the fade-out has at least two
    samples and the generated wave lies within [-1, 1], the last sample of
    the returned buffer (of fewer than 2^52 samples) is a zero, of either
    sign, and [save_wav] quantizes it to 0. *)
Theorem generate_tone_ends_at_zero (fsin : float -> float) (freqs : frequencies)
    (duration fade_in fade_out : float) (buf : Np.array) (ko : Z) :
  (forall samples wave,
     sample_count duration = Ok samples ->
     waveform fsin freqs duration samples = Ok wave ->
     Forall (fun v => B64.in_range B64.one v = true) wave) ->
  Z.of_nat (length buf) < 2 ^ 52 ->
  generate_tone fsin freqs duration fade_in fade_out = Ok buf ->
  sample_count fade_out = Ok ko -> 2 <= ko ->
  exists s, buf !! pred (length buf) = Some (S754_zero s)
            /\ quantize buf !! pred (length buf) = Some 0.
Proof.
  intros Hsin Hlen H Hko Hko2.
  apply generate_tone_parts in H
    as (samples & a0 & ki & ko' & ramp_in & a1 & ramp_out & a2 & Hs & Hw & Hki
        & Hko' & Hri & H1 & Hro & H2 & -> & Hl0 & Hl1).
  rewrite Hko in Hko'. injection Hko' as <-.
  specialize (Hsin samples a0 Hs Hw).
  unfold Np.imul_slice in H1, H2.
  pose proof (update_slice_rhs_length _ _ _ _ _ _ H1) as Hrhs1.
  pose proof (update_slice_rhs_length _ _ _ _ _ _ H2) as Hrhs2.
  destruct (linspace_inv _ _ _ _ _ Hri) as [Hki0 Hlri].
  destruct (linspace_inv _ _ _ _ _ Hro) as [Hko0 Hlro].
  assert (H252 : 1 < 2 ^ 52) by reflexivity.
  set (N := length (Np.scale a2 amplitude)) in *.
  assert (HkoN : ko <= Z.of_nat N) by lia.
  (* after the fade-in every sample is still within [-1, 1] *)
  assert (Ha1 : Forall (fun v => B64.in_range B64.one v = true) a1).
  { apply (update_slice_Forall _ (fun v => B64.in_range B64.one v = true)
             B64.mul a0 None (Some ki) ramp_in a1);
      [apply mul_unit | exact Hsin | | exact H1].
    apply (Rounding.ramp_up_in_range ki); [lia | exact Hri]. }
  destruct (a1 !! pred N) as [x1 |] eqn:Hx1.
  2: { apply lookup_ge_None in Hx1. lia. }
  pose proof (Forall_lookup_1 _ _ _ _ Ha1 Hx1) as Hr1.
  destruct (mul_zero_r x1 false Hr1) as [s2 Hs2].
  assert (Ha2 : a2 !! pred N = Some (S754_zero s2)).
  { rewrite <- Hs2.
    apply (update_slice_lookup_inside B64.mul a1 (Some (- ko)) None ramp_out a2
             (Z.of_nat N - ko) (Z.of_nat N) (pred N) x1 B64.zero).
    - rewrite slice_bounds_tail by lia. rewrite Hl1.
      destruct (Z.eqb_spec ko 0); [lia |]. f_equal. lia.
    - rewrite Hlro. f_equal. lia.
    - exact H2.
    - lia.
    - exact Hx1.
    - replace (pred N - Z.to_nat (Z.of_nat N - ko))%nat with (Z.to_nat (ko - 1))
        by lia.
      apply (ramp_down_last ko); [lia | exact Hro]. }
  destruct (scale_zero_quantizes s2) as (s & Hscale & Hq).
  exists s. unfold quantize. fold N. unfold Np.scale.
  rewrite !list_lookup_fmap, Ha2.
  cbn [fmap option_fmap option_map]. rewrite Hscale, Hq. split; reflexivity.
Qed.

Lemma generate_tone_ends_at_zero_witness :
  exists s,
    returned (generate_tone sin_taylor (Freq (B64.of_Z 880))
                (B64.of_decimal 1 3) (B64.of_decimal 1 4) (B64.of_decimal 2 4))
      !! pred (length (returned (generate_tone sin_taylor (Freq (B64.of_Z 880))
                (B64.of_decimal 1 3) (B64.of_decimal 1 4) (B64.of_decimal 2 4))))
    = Some (S754_zero s)
    /\ quantize (returned (generate_tone sin_taylor (Freq (B64.of_Z 880))
                (B64.of_decimal 1 3) (B64.of_decimal 1 4) (B64.of_decimal 2 4)))
         !! pred (length (returned (generate_tone sin_taylor (Freq (B64.of_Z 880))
                (B64.of_decimal 1 3) (B64.of_decimal 1 4) (B64.of_decimal 2 4))))
       = Some 0.
Proof.
  apply (generate_tone_ends_at_zero sin_taylor (Freq (B64.of_Z 880))
           (B64.of_decimal 1 3) (B64.of_decimal 1 4) (B64.of_decimal 2 4) _ 8).
  - intros samples wave Hs Hw.
    assert (samples = 44) as -> by (vm_compute in Hs; congruence).
    apply forallb_Forall.
    vm_compute in Hw. apply Rounding.Ok_inj in Hw. subst wave.
    vm_compute. reflexivity.
  - vm_compute. reflexivity.
  - vm_compute. reflexivity.
  - vm_compute. reflexivity.
  - lia.
Defined.

(** ** Quantization, continued *)

Lemma int16_wrap_range (z : Z) : -32768 <= int16_wrap z <= 32767.
Proof.
  unfold int16_wrap. pose proof (Z.mod_pos_bound (z + 32768) 65536). lia.
Qed.

Lemma to_int16_range (x : float) : -32768 <= to_int16 x <= 32767.
Proof. destruct x; simpl; try lia. apply int16_wrap_range. Qed.

(** One sample within [-1, 1]. *)
Lemma to_int16_unit (s : float) :
  B64.in_range B64.one s = true ->
  exists t, B64.py_int (B64.mul s (B64.of_Z 32767)) = Ok t
            /\ to_int16 (B64.mul s (B64.of_Z 32767)) = t
            /\ -32767 <= t <= 32767.
Proof.
  intros Hs.
  assert (Hy : B64.in_range (B64.of_Z 32767) (B64.mul s (B64.of_Z 32767)) = true).
  { apply (Rounding.mul_in_range B64.one (B64.of_Z 32767));
      [vm_compute; reflexivity | exact Hs | vm_compute; reflexivity]. }
  set (y := B64.mul s (B64.of_Z 32767)) in *.
  change (B64.of_Z 32767) with (S754_finite false 9006924376834048 (-38)) in Hy.
  apply Rounding.in_range_finite_inv in Hy; [| vm_compute; reflexivity].
  destruct Hy as [[sy ->] | (sy & m & e & -> & _ & Hle)].
  - exists 0. repeat split; lia.
  - apply trunc_mag_mono in Hle.
    change (B64.trunc_mag 9006924376834048 (-38)) with 32767 in Hle.
    pose proof (trunc_mag_nonneg m e) as H0.
    exists (B64.signed sy (B64.trunc_mag m e)). cbn [B64.py_int to_int16].
    split; [reflexivity |].
    split; [apply int16_wrap_small; destruct sy; simpl; lia |].
    destruct sy; simpl; lia.
Qed.

(** X15: samples within [-1, 1] never wrap: each sample [s] is quantized to
    [int(s * 32767)], the product taken in binary64, and the result lies
    within [-32767, 32767]. *)
Theorem quantize_unit_range (audio : Np.array) :
  Forall (fun s => B64.in_range B64.one s = true) audio ->
  Forall2 (fun s t => B64.py_int (B64.mul s (B64.of_Z 32767)) = Ok t
                      /\ -32767 <= t <= 32767)
    audio (quantize audio).
Proof.
  intros H. unfold quantize, Np.scale.
  induction H as [| s audio Hs _ IH]; [constructor |].
  cbn [fmap list_fmap]. constructor; [| exact IH].
  destruct (to_int16_unit s Hs) as (t & Hint & -> & Hr). split; assumption.
Qed.

Lemma quantize_unit_range_witness :
  Forall2 (fun s t => B64.py_int (B64.mul s (B64.of_Z 32767)) = Ok t
                      /\ -32767 <= t <= 32767)
    [B64.one; SFopp B64.one; amplitude] (quantize [B64.one; SFopp B64.one; amplitude]).
Proof.
  apply (quantize_unit_range [B64.one; SFopp B64.one; amplitude]).
  repeat constructor.
Defined.

(** ** The WAV container, continued *)

Lemma byte_of_Z_to_N (z : Z) : Z.of_N (Byte.to_N (byte_of_Z z)) = z mod 256.
Proof.
  unfold byte_of_Z. pose proof (Z.mod_pos_bound z 256 ltac:(lia)) as Hm.
  destruct (Byte.of_N (Z.to_N (z mod 256))) as [b |] eqn:Hb.
  - apply Byte.to_of_N in Hb. change (default x00 (Some b)) with b. rewrite Hb. lia.
  - apply Byte.of_N_None_iff in Hb. lia.
Qed.

(** Reading bytes as a little-endian unsigned number. *)
Lemma le16_value (v : Z) :
  foldr (fun b acc => Z.of_N (Byte.to_N b) + 256 * acc) 0 (le16 v) = v mod 65536.
Proof.
  unfold le16. cbn [foldr]. rewrite !byte_of_Z_to_N.
  change 65536 with (256 * 256). rewrite Z.rem_mul_r by lia. lia.
Qed.

Lemma le32_value (v : Z) :
  0 <= v < 2 ^ 32 ->
  foldr (fun b acc => Z.of_N (Byte.to_N b) + 256 * acc) 0 (le32 v) = v.
Proof.
  intros Hv. unfold le32. cbn [foldr]. rewrite !byte_of_Z_to_N.
  change 65536 with (256 * 256). change 16777216 with (256 * 256 * 256).
  rewrite <- !Z.div_div by lia.
  pose proof (Z.div_mod v 256 ltac:(lia)).
  pose proof (Z.div_mod (v / 256) 256 ltac:(lia)).
  pose proof (Z.div_mod (v / 256 / 256) 256 ltac:(lia)).
  assert (v / 256 / 256 / 256 < 256).
  { repeat (apply Z.div_lt_upper_bound; [lia |]). change (2 ^ 32) with 4294967296 in Hv. lia. }
  assert (0 <= v / 256 / 256 / 256) by (repeat (apply Z.div_pos; [| lia]); lia).
  rewrite (Z.mod_small (v / 256 / 256 / 256)) by lia. lia.
Qed.

(** X16: the file [save_wav] writes for a buffer of [n] samples, when its
    sizes fit 32 bits: the canonical 44-byte header (RIFF, WAVE, a 16-byte
    PCM format chunk for 1 channel, 44100 frames per second, 88200 bytes per
    second, 2 bytes per frame and 16 bits per sample, then the data chunk)
    followed by [2 n] bytes of samples.  Read as little-endian numbers, the
    RIFF size field is the length of the file minus 8 and the data size
    field is the length of the payload. *)
Theorem wav_bytes_layout (audio : Np.array) :
  36 + 2 * Z.of_nat (length audio) < 2 ^ 32 ->
  exists riff_size data_size payload : list byte,
    wav_bytes audio
    = list_byte_of_string "RIFF" ++ riff_size
      ++ list_byte_of_string "WAVEfmt "
      ++ [x10; x00; x00; x00; x01; x00; x01; x00; x44; xac; x00; x00;
          x88; x58; x01; x00; x02; x00; x10; x00]
      ++ list_byte_of_string "data" ++ data_size ++ payload
    /\ length riff_size = 4%nat /\ length data_size = 4%nat
    /\ foldr (fun b acc => Z.of_N (Byte.to_N b) + 256 * acc) 0 riff_size
       = Z.of_nat (length (wav_bytes audio)) - 8
    /\ foldr (fun b acc => Z.of_N (Byte.to_N b) + 256 * acc) 0 data_size
       = Z.of_nat (length payload)
    /\ payload = tobytes (quantize audio)
    /\ Z.of_nat (length payload) = 2 * Z.of_nat (length audio).
Proof.
  intros Hfit.
  assert (Hlen : Z.of_nat (length (tobytes (quantize audio)))
                 = 2 * Z.of_nat (length audio)).
  { rewrite length_tobytes. unfold quantize, Np.scale. rewrite !length_fmap. lia. }
  exists (le32 (36 + Z.of_nat (length (tobytes (quantize audio))))),
    (le32 (Z.of_nat (length (tobytes (quantize audio))))),
    (tobytes (quantize audio)).
  split; [reflexivity |]. split; [reflexivity |]. split; [reflexivity |].
  rewrite !le32_value by lia. rewrite length_wav_bytes.
  repeat split; lia.
Qed.

Lemma wav_bytes_layout_witness :
  exists riff_size data_size payload : list byte,
    wav_bytes [amplitude]
    = list_byte_of_string "RIFF" ++ riff_size
      ++ list_byte_of_string "WAVEfmt "
      ++ [x10; x00; x00; x00; x01; x00; x01; x00; x44; xac; x00; x00;
          x88; x58; x01; x00; x02; x00; x10; x00]
      ++ list_byte_of_string "data" ++ data_size ++ payload
    /\ length riff_size = 4%nat /\ length data_size = 4%nat
    /\ foldr (fun b acc => Z.of_N (Byte.to_N b) + 256 * acc) 0 riff_size
       = Z.of_nat (length (wav_bytes [amplitude])) - 8
    /\ foldr (fun b acc => Z.of_N (Byte.to_N b) + 256 * acc) 0 data_size
       = Z.of_nat (length payload)
    /\ payload = tobytes (quantize [amplitude])
    /\ Z.of_nat (length payload) = 2 * Z.of_nat (length [amplitude]).
Proof.
  apply (wav_bytes_layout [amplitude]). reflexivity.
Defined.

(** X17: silence stays silence: a buffer of zeros, of either sign, is
    quantized to zeros and serialized as zero bytes only. *)
Theorem silence_is_zero_bytes (audio : Np.array) :
  Forall (fun x => exists s, x = S754_zero s) audio ->
  quantize audio = replicate (length audio) 0
  /\ tobytes (quantize audio) = replicate (2 * length audio) x00.
Proof.
  intros H. unfold quantize, Np.scale.
  induction H as [| x audio [s ->] _ [IHq IHb]]; [split; reflexivity |].
  cbn [fmap list_fmap length replicate].
  assert (Hz : to_int16 (B64.mul (S754_zero s) (B64.of_Z 32767)) = 0)
    by (destruct s; reflexivity).
  rewrite Hz. split; [f_equal; exact IHq |].
  change (tobytes (0 :: ?l)) with (le16 0 ++ tobytes l).
  rewrite IHb. replace (2 * S (length audio))%nat with (S (S (2 * length audio))) by lia.
  reflexivity.
Qed.

Lemma silence_is_zero_bytes_witness :
  quantize [B64.zero; S754_zero true] = replicate (length [B64.zero; S754_zero true]) 0
  /\ tobytes (quantize [B64.zero; S754_zero true])
     = replicate (2 * length [B64.zero; S754_zero true]) x00.
Proof.
  apply (silence_is_zero_bytes [B64.zero; S754_zero true]).
  repeat constructor; eexists; reflexivity.
Defined.

Lemma int16_wrap_mod (v : Z) : int16_wrap (v mod 65536) = int16_wrap v.
Proof.
  unfold int16_wrap. rewrite Z.add_mod_idemp_l by lia. reflexivity.
Qed.

Lemma lookup_tobytes (l : list Z) (i : nat) (v : Z) :
  l !! i = Some v ->
  tobytes l !! (2 * i)%nat = Some (byte_of_Z v)
  /\ tobytes l !! (2 * i + 1)%nat = Some (byte_of_Z (v / 256)).
Proof.
  revert i. induction l as [| x l IH]; intros i H; [discriminate |].
  change (tobytes (x :: l)) with (byte_of_Z x :: byte_of_Z (x / 256) :: tobytes l).
  destruct i as [| i].
  - injection H as ->. split; reflexivity.
  - cbn [lookup list_lookup] in H. apply IH in H as [H0 H1].
    replace (2 * S i)%nat with (S (S (2 * i))) by lia.
    replace (S (S (2 * i)) + 1)%nat with (S (S (2 * i + 1))) by lia.
    split; assumption.
Qed.

(** X18: the payload can be read back: sample [i] is at bytes [2 i] and
    [2 i + 1] of the payload, and these two bytes, read as a little-endian
    number in two's complement, are the quantized value. *)
Theorem payload_reads_back (audio : Np.array) (i : nat) (t : Z) :
  quantize audio !! i = Some t ->
  exists b0 b1 : byte,
    tobytes (quantize audio) !! (2 * i)%nat = Some b0
    /\ tobytes (quantize audio) !! (2 * i + 1)%nat = Some b1
    /\ int16_wrap (Z.of_N (Byte.to_N b0) + 256 * Z.of_N (Byte.to_N b1)) = t.
Proof.
  intros Ht. destruct (lookup_tobytes _ _ _ Ht) as [H0 H1].
  exists (byte_of_Z t), (byte_of_Z (t / 256)).
  split; [assumption |]. split; [assumption |].
  pose proof (le16_value t) as Hv. unfold le16 in Hv. cbn [foldr] in Hv.
  rewrite Z.mul_0_r, Z.add_0_r in Hv. rewrite Hv, int16_wrap_mod.
  apply int16_wrap_small.
  unfold quantize in Ht. rewrite list_lookup_fmap in Ht.
  destruct (Np.scale audio (B64.of_Z 32767) !! i) as [y |]; [| discriminate].
  injection Ht as <-. pose proof (to_int16_range y). lia.
Qed.

Lemma payload_reads_back_witness :
  exists b0 b1 : byte,
    tobytes (quantize [SFopp amplitude]) !! (2 * 0)%nat = Some b0
    /\ tobytes (quantize [SFopp amplitude]) !! (2 * 0 + 1)%nat = Some b1
    /\ int16_wrap (Z.of_N (Byte.to_N b0) + 256 * Z.of_N (Byte.to_N b1)) = -22936.
Proof.
  apply (payload_reads_back [SFopp amplitude] 0 (-22936)). reflexivity.
Defined.
